(** * ai-content-saas-backend: job lifecycle and worker execution engine

    A shallow embedding of the job store contract (models/Job), the job
    query route (routes/jobs.js), the generation provider (providers/ai)
    and the jobs runner (workers/jobs-runner.js), with the properties of
    the specification stated and settled against it; then the submission
    route (routes/ai.js) and the authentication middleware
    (middleware/auth), with further properties of the code.

    Conventions.
    - A JavaScript string is the list of its UTF-16 code units.
    - A number that reaches the program through JSON is a finite double or
      an infinity; it is read as an extended rational.  Counters the
      program itself maintains (attempt, tokensUsed, delays, timestamps)
      are integers.
    - Asynchronous code is a program over the awaited operations; the
      store, the SDK and the clock answer through an environment. *)

From Stdlib Require Import ZArith QArith Qminmax List String Ascii Lia Lqa Sorted.
From stdpp Require Import base list.

Local Open Scope Z_scope.
Set Warnings "-register-all".

(* ===================================================================== *)
(** ** JavaScript values *)
(* ===================================================================== *)

Module Js.

Definition jsstring := list N.

(** A string literal of the source (ASCII) as code units. *)
Definition lit (s : string) : jsstring :=
  map N_of_ascii (list_ascii_of_string s).

Inductive JsNum : Type :=
| Finite (q : Q)
| PosInf
| NegInf.

(** What [JSON.parse], a request body or a Mixed field can hold, and
    [undefined] for a property that is absent. *)
Inductive JsVal : Type :=
| JUndefined
| JNull
| JBool (b : bool)
| JNum (n : JsNum)
| JStr (s : jsstring)
| JArr (items : list JsVal)
| JObj (fields : list (jsstring * JsVal)).

(** [a === b] on strings. *)
Fixpoint streq (a b : jsstring) : bool :=
  match a, b with
  | [], [] => true
  | x :: a', y :: b' => N.eqb x y && streq a' b'
  | _, _ => false
  end.

Definition num_truthy (n : JsNum) : bool :=
  match n with
  | Finite q => negb (Qeq_bool q 0)
  | PosInf | NegInf => true
  end.

(** ToBoolean. *)
Definition truthy (v : JsVal) : bool :=
  match v with
  | JUndefined | JNull => false
  | JBool b => b
  | JNum n => num_truthy n
  | JStr s => match s with [] => false | _ => true end
  | JArr _ | JObj _ => true
  end.

Fixpoint assoc (k : jsstring) (fs : list (jsstring * JsVal)) : option JsVal :=
  match fs with
  | [] => None
  | (k', v) :: rest => if streq k k' then Some v else assoc k rest
  end.

(** [v?.k] for the property names the program reads (none of them is a
    built-in property of strings, arrays, numbers or booleans). *)
Definition get (v : JsVal) (k : string) : JsVal :=
  match v with
  | JObj fs => match assoc (lit k) fs with Some x => x | None => JUndefined end
  | _ => JUndefined
  end.

(** [a || b] and [a && b]. *)
Definition or_ (a b : JsVal) : JsVal := if truthy a then a else b.
Definition and_ (a b : JsVal) : JsVal := if truthy a then b else a.

Definition is_string (v : JsVal) : bool :=
  match v with JStr _ => true | _ => false end.
(** [Array.isArray]. *)
Definition isArray (v : JsVal) : bool :=
  match v with JArr _ => true | _ => false end.

(** [Math.min] and [Math.max] on numbers that are not NaN. *)
Definition num_min (a b : JsNum) : JsNum :=
  match a, b with
  | NegInf, _ | _, NegInf => NegInf
  | PosInf, x | x, PosInf => x
  | Finite p, Finite q => Finite (Qmin p q)
  end.
Definition num_max (a b : JsNum) : JsNum :=
  match a, b with
  | PosInf, _ | _, PosInf => PosInf
  | NegInf, x | x, NegInf => x
  | Finite p, Finite q => Finite (Qmax p q)
  end.

Definition num_le (a b : JsNum) : Prop :=
  match a, b with
  | NegInf, _ => True
  | _, PosInf => True
  | Finite p, Finite q => (p <= q)%Q
  | _, _ => False
  end.

Definition num_leb (a b : JsNum) : bool :=
  match a, b with
  | NegInf, _ => true
  | _, PosInf => true
  | Finite p, Finite q => Qle_bool p q
  | _, _ => false
  end.

(** Equality of numbers as values (1/2 and 2/4 are the same number). *)
Definition num_eq (a b : JsNum) : Prop := num_le a b /\ num_le b a.

Definition of_Z (z : Z) : JsNum := Finite (inject_Z z).

(** The number of [0, 100] nearest to [n]. *)
Definition clamp (n : JsNum) : JsNum :=
  if num_leb n (of_Z 0) then of_Z 0
  else if num_leb (of_Z 100) n then of_Z 100
  else n.

(** An object literal [{ ...fields, k: v }]: a later key replaces an
    earlier one. *)
Fixpoint set_field (k : jsstring) (v : JsVal) (fs : list (jsstring * JsVal))
  : list (jsstring * JsVal) :=
  match fs with
  | [] => [(k, v)]
  | (k', v') :: rest =>
      if streq k k' then (k, v) :: rest else (k', v') :: set_field k v rest
  end.

(** Decimal digits of an array index, as a property key. *)
Definition digit (n : nat) : N := (48 + N.of_nat (n mod 10))%N.
Fixpoint index_key_aux (fuel n : nat) (acc : jsstring) : jsstring :=
  match fuel with
  | O => acc
  | S f =>
      let acc' := digit n :: acc in
      match (n / 10)%nat with
      | O => acc'
      | m => index_key_aux f m acc'
      end
  end.
Definition index_key (n : nat) : jsstring := index_key_aux (S n) n [].

(** The own enumerable properties copied by a spread [{ ...v }]. *)
Definition spread (v : JsVal) : list (jsstring * JsVal) :=
  match v with
  | JObj fs => fs
  | JArr items => imap (fun i x => (index_key i, x)) items
  | JStr s => imap (fun i c => (index_key i, JStr [c])) s
  | _ => []
  end.

End Js.

(* ===================================================================== *)
(** ** models/Job: the job document and the store operations used *)
(* ===================================================================== *)

Module JobModel.
Import Js.

Inductive Status : Type := PENDING | RUNNING | SUCCEEDED | FAILED.

Definition status_eqb (a b : Status) : bool :=
  match a, b with
  | PENDING, PENDING | RUNNING, RUNNING
  | SUCCEEDED, SUCCEEDED | FAILED, FAILED => true
  | _, _ => false
  end.

Definition status_name (s : Status) : jsstring :=
  match s with
  | PENDING => lit "PENDING"
  | RUNNING => lit "RUNNING"
  | SUCCEEDED => lit "SUCCEEDED"
  | FAILED => lit "FAILED"
  end.

(** JobSchema.  An ObjectId is its 96-bit number; [JUndefined] and
    [None] stand for a field that is not stored. *)
Record Job : Type := mkJob {
  _id : N;
  userId : N;
  type : jsstring;
  status : Status;
  payload : JsVal;
  result : JsVal;
  error : JsVal;
  model : option jsstring;
  tokensUsed : Z;
  attempt : Z;
  claimedBy : option jsstring;
  claimedAt : option Z;
  createdAt : Z;
  updatedAt : Z
}.

Definition Store := list Job.

(** [Job.findById(id)]. *)
Definition findById (st : Store) (id : N) : option Job :=
  find (fun j => N.eqb (_id j) id) st.

(** [Job.create({ userId, type, status: 'PENDING', payload, attempt: 0,
    tokensUsed: 0 })] of routes/ai.js; the store assigns the identifier
    and the timestamps. *)
Definition create (oid : N) (now : Z) (uid : N) (ty : jsstring) (pl : JsVal)
  : Job :=
  {| _id := oid; userId := uid; type := ty; status := PENDING;
     payload := pl; result := JUndefined; error := JUndefined;
     model := None; tokensUsed := 0; attempt := 0;
     claimedBy := None; claimedAt := None;
     createdAt := now; updatedAt := now |}.

Definition insert (st : Store) (j : Job) : Store := st ++ [j].

(** *** The claim: findOneAndUpdate with sort { createdAt: 1 } *)

Definition allowedTypes : list jsstring :=
  [lit "KEYWORDS"; lit "ARTICLE"; lit "SEO"; lit "META"; lit "IMAGE";
   lit "HASHTAGS"].

(** The filter: status PENDING, type in the list, and claimedBy absent
    or equal to the instance. *)
Definition claimable (inst : jsstring) (j : Job) : bool :=
  status_eqb (status j) PENDING
  && existsb (streq (type j)) allowedTypes
  && match claimedBy j with
     | None => true
     | Some c => streq c inst
     end.

(** First document of the sort by ascending createdAt; documents with
    equal createdAt keep the store's order. *)
Fixpoint oldest (l : list Job) : option Job :=
  match l with
  | [] => None
  | j :: rest =>
      match oldest rest with
      | Some j' => if createdAt j' <? createdAt j then Some j' else Some j
      | None => Some j
      end
  end.

(** $set: { status: "RUNNING", claimedBy, claimedAt } *)
Definition set_claimed (inst : jsstring) (now : Z) (j : Job) : Job :=
  {| _id := _id j; userId := userId j; type := type j; status := RUNNING;
     payload := payload j; result := result j; error := error j;
     model := model j; tokensUsed := tokensUsed j; attempt := attempt j;
     claimedBy := Some inst; claimedAt := Some now;
     createdAt := createdAt j; updatedAt := now |}.

(** The update of the document with this identifier (identifiers are
    unique in a collection). *)
Definition replace_doc (id : N) (f : Job -> Job) (st : Store) : Store :=
  map (fun x => if N.eqb (_id x) id then f x else x) st.

(** The atomic find-and-modify; with [new: true] it returns the
    document after the update, or null when nothing matches. *)
Definition findOneAndUpdate (inst : jsstring) (now : Z) (st : Store)
  : option Job * Store :=
  match oldest (List.filter (claimable inst) st) with
  | None => (None, st)
  | Some j =>
      (Some (set_claimed inst now j),
       replace_doc (_id j) (set_claimed inst now) st)
  end.

(** Claims issued one after the other by one instance; the store
    serialises them.  The result lists the documents returned. *)
Fixpoint claimMany (inst : jsstring) (nows : list Z) (st : Store) : list Job :=
  match nows with
  | [] => []
  | now :: rest =>
      match findOneAndUpdate inst now st with
      | (Some j, st') => j :: claimMany inst rest st'
      | (None, st') => claimMany inst rest st'
      end
  end.

(** Claims by any instances, in the order in which the store serialises
    them: what each caller observes, and the store afterwards. *)
Fixpoint claimsBy (callers : list (jsstring * Z)) (st : Store)
  : list (jsstring * option Job) * Store :=
  match callers with
  | [] => ([], st)
  | (inst, now) :: rest =>
      let (r, st') := findOneAndUpdate inst now st in
      let (rs, st'') := claimsBy rest st' in
      ((inst, r) :: rs, st'')
  end.

(** The callers that obtained a document, with the document. *)
Definition winners (rs : list (jsstring * option Job)) : list (jsstring * Job) :=
  omap (fun r => match snd r with Some j => Some (fst r, j) | None => None end) rs.

Definition isPending (j : Job) : bool := status_eqb (status j) PENDING.

(** The caller [fst w] holds the job [snd w] in the store: the stored
    document is RUNNING and claimed by that caller. *)
Definition holds_job (st : Store) (w : jsstring * Job) : Prop :=
  status (snd w) = RUNNING
  /\ claimedBy (snd w) = Some (fst w)
  /\ findById st (_id (snd w)) = Some (snd w).

(** *** updateOne({ _id }, { $set, $inc }) *)

Record Update : Type := mkUpdate {
  u_status : Status;
  u_result : option JsVal;
  u_model : option jsstring;
  u_attempt : option Z;
  u_error : option JsVal;
  u_incTokens : Z
}.

Definition apply_update (u : Update) (now : Z) (j : Job) : Job :=
  {| _id := _id j; userId := userId j; type := type j;
     status := u_status u;
     payload := payload j;
     result := match u_result u with Some r => r | None => result j end;
     error := match u_error u with Some e => e | None => error j end;
     model := match u_model u with Some m => Some m | None => model j end;
     tokensUsed := tokensUsed j + u_incTokens u;
     attempt := match u_attempt u with Some a => a | None => attempt j end;
     claimedBy := claimedBy j; claimedAt := claimedAt j;
     createdAt := createdAt j; updatedAt := now |}.

Definition updateOne (id : N) (u : Update) (now : Z) (st : Store) : Store :=
  replace_doc id (apply_update u now) st.

End JobModel.

(* ===================================================================== *)
(** ** routes/jobs.js: GET /jobs/:id *)
(* ===================================================================== *)

Module JobsRoute.
Import Js JobModel.

(** idSchema: /^[a-f\d]{24}$/i *)
Definition hex_val (c : N) : option N :=
  if ((48 <=? c) && (c <=? 57))%N then Some (c - 48)%N
  else if ((97 <=? c) && (c <=? 102))%N then Some (c - 87)%N
  else if ((65 <=? c) && (c <=? 70))%N then Some (c - 55)%N
  else None.

Definition idSchema (s : jsstring) : bool :=
  Nat.eqb (length s) 24
  && forallb (fun c => match hex_val c with Some _ => true | None => false end) s.

(** The ObjectId a 24-digit hex string denotes, and [String(oid)]. *)
Definition oid_of_hex (s : jsstring) : N :=
  fold_left (fun acc c => (acc * 16 + default 0 (hex_val c))%N) s 0%N.

Definition hex_char (d : N) : N := if (d <? 10)%N then (48 + d)%N else (87 + d)%N.

Definition hex_of_oid (n : N) : jsstring :=
  map (fun i => hex_char ((n / 16 ^ N.of_nat (23 - i)) mod 16)%N) (seq 0 24).

Record Response : Type := mkResponse { res_status : Z; res_body : JsVal }.

Definition error_body (msg : string) : JsVal :=
  JObj [(lit "error", JStr (lit msg))].

(** The projection returned with 200: the optional fields are spread in
    only when their test holds. *)
Definition jobView (job : Job) : list (jsstring * JsVal) :=
  [ (lit "id", JStr (hex_of_oid (_id job)));
    (lit "userId", JStr (hex_of_oid (userId job)));
    (lit "type", JStr (type job));
    (lit "status", JStr (status_name (status job))) ]
  ++ match result job with
     | JUndefined => []
     | r => [(lit "result", r)]
     end
  ++ (if truthy (error job) then [(lit "error", error job)] else [])
  ++ (if Z.eqb (tokensUsed job) 0 then []
      else [(lit "tokensUsed", JNum (of_Z (tokensUsed job)))])
  ++ match model job with
     | Some (c :: m) => [(lit "model", JStr (c :: m))]
     | _ => []
     end.

(** The field of a response object, if it has one of that name. *)
Definition field (k : string) (fs : list (jsstring * JsVal)) : option JsVal :=
  assoc (lit k) fs.

(** The handler: [id] is req.params.id, [user] is req?.user?.id. *)
Definition getJob (st : Store) (id : jsstring) (user : JsVal) : Response :=
  if negb (idSchema id) then mkResponse 400 (error_body "Invalid job id format")
  else if negb (truthy user) then mkResponse 401 (error_body "Unauthorized")
  else
    match findById st (oid_of_hex id) with
    | None => mkResponse 404 (error_body "Job not found")
    | Some job =>
        match user with
        | JStr u =>
            if streq (hex_of_oid (userId job)) u
            then mkResponse 200 (JObj (jobView job))
            else mkResponse 404 (error_body "Job not found")
        | _ => mkResponse 404 (error_body "Job not found")
        end
    end.

End JobsRoute.

(* ===================================================================== *)
(** ** Thrown values, the host's built-ins, awaited operations *)
(* ===================================================================== *)

Module Exn.
Import Js.

(** An Error object with the properties the program reads
    ([JUndefined] when a property is absent). *)
Record JsError : Type := mkJsError {
  e_name : jsstring;
  e_message : jsstring;
  e_code : JsVal;
  e_status : JsVal;
  e_statusCode : JsVal;
  e_raw : JsVal;
  e_rawText : JsVal;
  e_responseData : JsVal;
  e_stack : JsVal;
  e_parseError : JsVal
}.

(** What a [catch] can receive: [withRetry] throws [undefined] when its
    loop never ran; everything else is an Error. *)
Inductive Thrown : Type :=
| ThrowUndefined
| ThrowError (e : JsError).

(** Error.prototype.toString. *)
Definition error_toString (e : JsError) : jsstring :=
  match e_name e, e_message e with
  | [], m => m
  | n, [] => n
  | n, m => n ++ lit ": " ++ m
  end.

End Exn.

(** Built-ins of the JavaScript host and text measures of the provider
    module that the properties below do not depend on.  They are
    parameters of the development. *)
Record Host : Type := mkHost {
  (** [JSON.parse]: the SyntaxError message, or the value. *)
  JSON_parse : Js.jsstring -> Js.jsstring + Js.JsVal;
  (** [String.prototype.toLowerCase]. *)
  toLowerCase : Js.jsstring -> Js.jsstring;
  (** The [stack] of a fresh Error with this name and message. *)
  stackOf : Js.jsstring -> Js.jsstring -> Js.jsstring;
  (** Number of words of an article content with its tags removed
      (generateSEOReview's wordCount). *)
  wordCount : Js.jsstring -> Z;
  (** Field normalisation of generateKeywords, generateArticle,
      generateMeta and generateHashtags: kind, arguments, parsed data;
      it may throw on a field of an unexpected type. *)
  normalizeOther : Js.jsstring -> Js.JsVal -> Js.JsVal -> Exn.Thrown + Js.JsVal;
  (** The same for generateImage, which also reads [Date.now()]. *)
  normalizeImage : Js.JsVal -> Js.JsVal -> Z -> Exn.Thrown + Js.JsVal
}.

Module Async.
Import Js JobModel Exn.

(** What [model.generateContent] followed by [response.text()] and the
    usage metadata yields:
    text and [Number(totalTokenCount || 0)]. *)
Record SdkResult : Type := mkSdkResult { sdk_text : jsstring; sdk_tokens : Z }.

(** Operations of the runner and the provider.  The first three are
    synchronous; the others are awaited. *)
Inductive Op : Type -> Type :=
| GetBusy : Op bool
| SetBusy (b : bool) : Op unit
| Now : Op Z
| FindOneAndUpdate (inst : jsstring) (now : Z) : Op (Thrown + option Job)
| UpdateOne (id : N) (u : Update) : Op (Thrown + unit)
| GenerateContent : Op (Thrown + SdkResult)
| Sleep (ms : Z) : Op unit.

Definition awaited {R} (op : Op R) : bool :=
  match op with
  | GetBusy | SetBusy _ | Now => false
  | _ => true
  end.

Inductive Prog (A : Type) : Type :=
| Ret (a : A)
| Do {R : Type} (op : Op R) (k : R -> Prog A).
Arguments Ret {A} a.
Arguments Do {A R} op k.

Fixpoint bind {A B} (p : Prog A) (f : A -> Prog B) : Prog B :=
  match p with
  | Ret a => f a
  | Do op k => Do op (fun r => bind (k r) f)
  end.

Definition call {R} (op : Op R) : Prog R := Do op Ret.

(** Code that may throw returns the thrown value on the left. *)
Definition ProgE (A : Type) : Type := Prog (Thrown + A).

Definition throw {A} (e : Thrown) : ProgE A := Ret (inl e).
Definition ok {A} (a : A) : ProgE A := Ret (inr a).

Definition bindE {A B} (p : ProgE A) (f : A -> ProgE B) : ProgE B :=
  bind p (fun r => match r with inl e => Ret (inl e) | inr a => f a end).

End Async.

Declare Scope prog_scope.
Delimit Scope prog_scope with prog.
Notation "x <- p ;; q" := (Async.bind p (fun x => q))
  (at level 100, p at next level, right associativity) : prog_scope.
Notation "x <-! p ;; q" := (Async.bindE p (fun x => q))
  (at level 100, p at next level, right associativity) : prog_scope.

(** Environment variables after the defaults of the source are applied
    ([Number(process.env.X || d)] for the numeric ones). *)
Record Config : Type := mkConfig {
  INSTANCE_ID : Js.jsstring;
  JOB_MAX_ATTEMPTS : Z;
  AI_RETRY_ATTEMPTS : Z;
  AI_RETRY_BASE_MS : Z;
  GOOGLE_API_KEY : bool;
  GEMINI_MODEL : Js.jsstring;
  AI_PROVIDER : Js.jsstring;
  DEFAULT_LOCALE : Js.jsstring
}.

Definition default_config (inst : Js.jsstring) : Config :=
  {| INSTANCE_ID := inst;
     JOB_MAX_ATTEMPTS := 3;
     AI_RETRY_ATTEMPTS := 3;
     AI_RETRY_BASE_MS := 400;
     GOOGLE_API_KEY := true;
     GEMINI_MODEL := Js.lit "gemini-2.0-flash-exp";
     AI_PROVIDER := Js.lit "gemini";
     DEFAULT_LOCALE := Js.lit "en" |}.

(* ===================================================================== *)
(** ** providers/ai: text helpers *)
(* ===================================================================== *)

Module Text.
Import Js.

(** The characters matched by \s, which are also those [trim] removes. *)
Definition isWhiteSpace (c : N) : bool :=
  existsb (N.eqb c)
    [9; 10; 11; 12; 13; 32; 160; 5760; 8232; 8233; 8239; 8287; 12288; 65279]%N
  || ((8192 <=? c) && (c <=? 8202))%N.

Fixpoint dropWhile (f : N -> bool) (s : jsstring) : jsstring :=
  match s with
  | [] => []
  | c :: rest => if f c then dropWhile f rest else s
  end.

Definition trim (s : jsstring) : jsstring :=
  rev (dropWhile isWhiteSpace (rev (dropWhile isWhiteSpace s))).

Fixpoint isPrefix (p s : jsstring) : bool :=
  match p, s with
  | [], _ => true
  | _ :: _, [] => false
  | a :: p', b :: s' => N.eqb a b && isPrefix p' s'
  end.

(** [s.includes(needle)]. *)
Fixpoint includes (s needle : jsstring) : bool :=
  isPrefix needle s
  || match s with
     | [] => false
     | _ :: rest => includes rest needle
     end.

(** ASCII case folding of one code unit, as the /i flag compares. *)
Definition fold_case (c : N) : N :=
  if ((65 <=? c) && (c <=? 90))%N then (c + 32)%N else c.

(** [s.replace(/^```json\s*/i, '')] *)
Definition stripOpeningFence (s : jsstring) : jsstring :=
  if isPrefix (lit "```json") (map fold_case (take 7 s))
  then dropWhile isWhiteSpace (drop 7 s)
  else s.

(** [s.replace(/\s*```$/, '')] *)
Definition stripClosingFence (s : jsstring) : jsstring :=
  if isPrefix (lit "```") (rev s)
  then rev (dropWhile isWhiteSpace (drop 3 (rev s)))
  else s.

Definition allWhiteSpace (s : jsstring) : Prop :=
  List.Forall (fun c => isWhiteSpace c = true) s.

(** What the two replacements remove: an opening fence is the marker
    (in any case) with the white space after it, a closing fence is the
    marker with the white space before it. *)
Definition openingFence (pre : jsstring) : Prop :=
  pre = []
  \/ exists f ws, pre = f ++ ws /\ map fold_case f = lit "```json" /\ allWhiteSpace ws.

Definition closingFence (post : jsstring) : Prop :=
  post = [] \/ exists ws, post = ws ++ lit "```" /\ allWhiteSpace ws.

(** A text that does not begin, or end, with white space. *)
Definition noSpaceAtStart (s : jsstring) : Prop :=
  match s with
  | [] => True
  | c :: _ => isWhiteSpace c = false
  end.

Definition noSpaceAtEnd (s : jsstring) : Prop := noSpaceAtStart (rev s).

(** A text that begins with the opening marker, in any case, or ends
    with the closing marker. *)
Definition beginsWithMarker (s : jsstring) : Prop :=
  exists f rest, s = f ++ rest /\ map fold_case f = lit "```json".

Definition endsWithMarker (s : jsstring) : Prop :=
  exists v, s = v ++ lit "```".

(** [clean] is what trimming and the two replacements leave of [text]:
    [text] is the white space [l], then [pre], [clean] and [post], then
    the white space [r], where the part between [l] and [r] has no white
    space at either end; [pre] is the opening marker with all the white
    space after it, or nothing when that part does not begin with the
    marker; and [post] is the closing marker with all the white space
    before it, or nothing when what the first replacement left does not
    end with the marker. *)
Definition cleaned (text l pre clean post r : jsstring) : Prop :=
  text = l ++ pre ++ clean ++ post ++ r
  /\ allWhiteSpace l /\ allWhiteSpace r
  /\ noSpaceAtStart (pre ++ clean ++ post)
  /\ noSpaceAtEnd (pre ++ clean ++ post)
  /\ ((pre = [] /\ ~ beginsWithMarker (clean ++ post))
      \/ (exists f ws,
             pre = f ++ ws /\ map fold_case f = lit "```json"
             /\ allWhiteSpace ws /\ noSpaceAtStart (clean ++ post)))
  /\ ((post = [] /\ ~ endsWithMarker clean)
      \/ (exists ws,
             post = ws ++ lit "```" /\ allWhiteSpace ws /\ noSpaceAtEnd clean)).

Definition openBrace : N := 123%N.
Definition closeBrace : N := 125%N.

(** [text.match(/\{[\s\S]*\}/)]: from the first opening brace to the
    last closing brace after it. *)
Definition jsonMatch (text : jsstring) : option jsstring :=
  match dropWhile (fun c => negb (N.eqb c openBrace)) text with
  | [] => None
  | from =>
      match dropWhile (fun c => negb (N.eqb c closeBrace)) (rev from) with
      | [] => None
      | r => Some (rev r)
      end
  end.

(** Written from the specification's words, for comparison with
    [jsonMatch]: the first balanced brace group of the text.  [depth]
    counts the braces open so far and [acc] holds the group read so far,
    reversed. *)
Fixpoint balancedFrom (depth : nat) (acc s : jsstring) : option jsstring :=
  match s with
  | [] => None
  | c :: rest =>
      if N.eqb c openBrace then balancedFrom (S depth) (c :: acc) rest
      else if N.eqb c closeBrace then
        match depth with
        | O => None
        | S O => Some (rev (c :: acc))
        | S d => balancedFrom d (c :: acc) rest
        end
      else balancedFrom depth (c :: acc) rest
  end.

Definition firstBalancedObject (text : jsstring) : option jsstring :=
  match dropWhile (fun c => negb (N.eqb c openBrace)) text with
  | [] => None
  | from => balancedFrom 0 [] from
  end.

End Text.

(* ===================================================================== *)
(** ** providers/ai: retries, parsing, typed operations *)
(* ===================================================================== *)

Module Provider.
Import Js JobModel Exn Async Text.
Local Open Scope prog_scope.

Section WithHost.
Context (host : Host) (cfg : Config).

(** A fresh Error (or TypeError) object: name, message and stack. *)
Definition mkError (name message : jsstring) : JsError :=
  {| e_name := name; e_message := message;
     e_code := JUndefined; e_status := JUndefined;
     e_statusCode := JUndefined; e_raw := JUndefined;
     e_rawText := JUndefined; e_responseData := JUndefined;
     e_stack := JStr (stackOf host name message);
     e_parseError := JUndefined |}.

Definition newError (name message : string) : JsError :=
  mkError (lit name) (lit message).

Definition num_is (n : JsNum) (z : Z) : bool :=
  match n with
  | Finite q => Qeq_bool q (inject_Z z)
  | _ => false
  end.

Definition num_geb (n : JsNum) (z : Z) : bool :=
  match n with
  | Finite q => Qle_bool (inject_Z z) q
  | PosInf => true
  | NegInf => false
  end.

Definition isRetriableError (err : Thrown) : bool :=
  match err with
  | ThrowUndefined => false
  | ThrowError e =>
      let msg :=
        toLowerCase host
          (match e_message e with
           | [] => error_toString e
           | m => m
           end) in
      if includes msg (lit "etimedout")
         || includes msg (lit "econnreset")
         || includes msg (lit "abort")
      then true
      else
        match or_ (e_status e) (or_ (e_code e) (e_statusCode e)) with
        | JNum n => num_is n 429 || num_geb n 500
        | _ => false
        end
  end.

(** The loop of [withRetry]; [i] is the loop index and [lastErr] the
    variable of that name. *)
Fixpoint withRetry_from {A} (fuel : nat) (i : Z) (attempts baseMs : Z)
    (fn : ProgE A) (lastErr : Thrown) : ProgE A :=
  match fuel with
  | O => throw lastErr
  | S fuel' =>
      if i <? attempts then
        r <- fn ;;
        match r with
        | inr a => ok a
        | inl err =>
            if (i =? attempts - 1) || negb (isRetriableError err)
            then throw err
            else
              _ <- call (Sleep (baseMs * 2 ^ i)) ;;
              withRetry_from fuel' (i + 1) attempts baseMs fn err
        end
      else throw lastErr
  end.

Definition withRetry {A} (fn : ProgE A) : ProgE A :=
  withRetry_from (Z.to_nat (AI_RETRY_ATTEMPTS cfg)) 0
    (AI_RETRY_ATTEMPTS cfg) (AI_RETRY_BASE_MS cfg) fn ThrowUndefined.

(** *** parseJSONResponse *)

Definition parseFailed (text parseErrorMessage : jsstring) : JsError :=
  {| e_name := lit "Error"; e_message := lit "JSON_PARSE_FAILED";
     e_code := JUndefined; e_status := JUndefined;
     e_statusCode := JUndefined; e_raw := JUndefined;
     e_rawText := JStr text; e_responseData := JUndefined;
     e_stack := JStr (stackOf host (lit "Error") (lit "JSON_PARSE_FAILED"));
     e_parseError := JStr parseErrorMessage |}.

Definition cleanText (text : jsstring) : jsstring :=
  stripClosingFence (stripOpeningFence (trim text)).

Definition parseJSONResponse (text : jsstring) : JsError + JsVal :=
  match JSON_parse host (cleanText text) with
  | inr data => inr data
  | inl parseError =>
      match jsonMatch text with
      | Some m =>
          match JSON_parse host m with
          | inr data => inr data
          | inl _ => inl (parseFailed text parseError)
          end
      | None => inl (parseFailed text parseError)
      end
  end.

(** *** generateText *)

Record TextResult : Type := mkTextResult {
  t_text : jsstring; t_tokensUsed : Z; t_model : jsstring
}.

(** The closure [exec]: one call of the SDK. *)
Definition exec : ProgE TextResult :=
  r <- call GenerateContent ;;
  match r with
  | inl e => throw e
  | inr res => ok (mkTextResult (sdk_text res) (sdk_tokens res) (GEMINI_MODEL cfg))
  end.

(** The prompt is a non-empty template string, so the prompt check
    passes; [getClient] throws when the key is not set. *)
Definition generateText : ProgE TextResult :=
  if GOOGLE_API_KEY cfg then withRetry exec
  else throw (ThrowError (newError "Error"
         "GOOGLE_API_KEY is not set. Set GOOGLE_API_KEY in .env (see 11-ops-runbook.md). Expected in backend/.env (same folder as index.js).")).

(** *** The six typed operations *)

Record GenResult : Type := mkGenResult {
  g_result : JsVal; g_tokensUsed : Z; g_model : jsstring
}.

(** The callback of [keywords.map(...)] and the [filter(Boolean)]. *)
Definition keywordString (k : JsVal) : JsVal :=
  match k with
  | JStr _ => k
  | _ => or_ (get k "keyword") (or_ (get k "term") (JStr []))
  end.

Definition keywordStrings (ks : list JsVal) : list JsVal :=
  List.filter truthy (map keywordString ks).

Definition typeError (message : string) : Thrown :=
  ThrowError (newError "TypeError" message).

(** [keywords.map] exists only on an array. *)
Definition mapKeywords (keywords : JsVal) : Thrown + list JsVal :=
  match keywords with
  | JArr ks => inr (keywordStrings ks)
  | _ => inl (typeError "keywords.map is not a function")
  end.

(** [article.content.replace] exists only on a string. *)
Definition contentText (content : JsVal) : Thrown + jsstring :=
  match content with
  | JStr c => inr c
  | _ => inl (typeError "article.content.replace is not a function")
  end.

(** ToString of a value that came from JSON, as a template literal and
    [join] apply it.  Such a value holds no function: an object with an
    own property [toString] has no callable [toString] and no [valueOf]
    that returns a primitive (Object.prototype.valueOf returns the
    object), so its conversion throws a TypeError; every other object is
    "[object Object]".  An array is the join of its elements, null and
    undefined being the empty string, so it has a string when its
    elements have one. *)
Fixpoint hasString (v : JsVal) : bool :=
  match v with
  | JObj fs =>
      match assoc (lit "toString") fs with
      | Some _ => false
      | None => true
      end
  | JArr items => forallb hasString items
  | _ => true
  end.

Definition conversionError : Thrown :=
  typeError "Cannot convert object to primitive value".

(** The conversions of one template literal, or of one [join]: they are
    made in order and throw the same error.  The text they build goes
    into the prompt only, and is not kept. *)
Definition toStrings (vs : list JsVal) : Thrown + unit :=
  if forallb hasString vs then inr tt else inl conversionError.

(** [keywordStrings.length > 0 ? keywordStrings.slice(0, n).join(', ')
    : topic].  The result lists what the prompt has still to convert
    where it interpolates keywordsList: the topic, or nothing for a
    joined string. *)
Definition keywordsList (n : nat) (kws : list JsVal) (topic : JsVal)
  : Thrown + list JsVal :=
  match kws with
  | [] => inr [topic]
  | _ =>
      match toStrings (take n kws) with
      | inl e => inl e
      | inr _ => inr []
      end
  end.

(** [settings?.tone || 'professional'] *)
Definition toneOf (settings : JsVal) : JsVal :=
  or_ (get settings "tone") (JStr (lit "professional")).

(** Field normalisation of generateSEOReview (the lines after
    [parseJSONResponse]). *)
Definition seoScore (data : JsVal) : JsNum :=
  match get data "score" with
  | JNum n => num_max (of_Z 0) (num_min (of_Z 100) n)
  | _ => of_Z 75
  end.

Definition arrayOrEmpty (v : JsVal) : JsVal :=
  if isArray v then v else JArr [].

Definition seoResult (title topic : JsVal) (content : jsstring)
    (kws : list JsVal) (data : JsVal) : JsVal :=
  let score := seoScore data in
  let analysis := or_ (get data "analysis") (JObj []) in
  let recommendations := arrayOrEmpty (get data "recommendations") in
  let strengths := arrayOrEmpty (get data "strengths") in
  let issues := arrayOrEmpty (get data "issues") in
  JObj
    [ (lit "score", JNum score);
      (lit "analysis",
       JObj (set_field (lit "improvements") issues
               (set_field (lit "strengths") strengths (spread analysis))));
      (lit "recommendations", recommendations);
      (lit "article",
       JObj [ (lit "title", title);
              (lit "wordCount", JNum (of_Z (wordCount host content))) ]);
      (lit "keywords", JArr kws);
      (lit "topic", topic) ].

(** The common tail of the operations: call generateText, parse the
    text, normalise the fields. *)
Definition generateAndParse (normalise : JsVal -> ProgE JsVal)
  : ProgE GenResult :=
  t <-! generateText ;;
  match parseJSONResponse (t_text t) with
  | inl e => throw (ThrowError e)
  | inr data =>
      res <-! normalise data ;;
      ok (mkGenResult res (t_tokensUsed t) (GEMINI_MODEL cfg))
  end.

Definition lift {A} (r : Thrown + A) : ProgE A := Ret r.

Definition generateKeywords (seed locale : JsVal) : ProgE GenResult :=
  if negb (truthy seed) || negb (is_string seed)
  then throw (ThrowError (newError "Error"
         "generateKeywords: `seed` (string) is required."))
  else
    generateAndParse (fun data =>
      lift (normalizeOther host (lit "KEYWORDS")
              (JObj [(lit "seed", seed); (lit "locale", locale)]) data)).

Definition generateArticle (keywords topic locale settings : JsVal)
  : ProgE GenResult :=
  if negb (truthy topic) || negb (is_string topic)
  then throw (ThrowError (newError "Error"
         "generateArticle: `topic` (string) is required."))
  else
    kws <-! lift (mapKeywords keywords) ;;
    list <-! lift (keywordsList 10 kws topic) ;;
    _ <-! lift (toStrings ([topic] ++ list ++ [toneOf settings])) ;;
    generateAndParse (fun data =>
      lift (normalizeOther host (lit "ARTICLE")
              (JObj [(lit "keywords", JArr kws); (lit "topic", topic);
                     (lit "locale", locale); (lit "settings", settings)])
              data)).

Definition generateSEOReview (title content keywords topic locale : JsVal)
  : ProgE GenResult :=
  if negb (truthy content) || negb (truthy topic)
  then throw (ThrowError (newError "Error"
         "generateSEOReview: `article` with content and `topic` are required."))
  else
    kws <-! lift (mapKeywords keywords) ;;
    list <-! lift (keywordsList 10 kws topic) ;;
    text <-! lift (contentText content) ;;
    _ <-! lift (toStrings ([title; topic] ++ list)) ;;
    generateAndParse (fun data => ok (seoResult title topic text kws data)).

(** generateMeta, generateImage and generateHashtags share the code
    before [generateText], up to the number [n] of keywords joined;
    [article.content] is read only when it is truthy. *)
Definition articleChecks (name : string) (n : nat)
    (title content keywords topic : JsVal) : ProgE (list JsVal) :=
  if negb (truthy title) || negb (truthy topic)
  then throw (ThrowError (newError "Error"
         (name ++ ": `article` with title and `topic` are required.")))
  else
    kws <-! lift (mapKeywords keywords) ;;
    list <-! lift (keywordsList n kws topic) ;;
    _ <-! (if truthy content then lift (contentText content) else ok []) ;;
    _ <-! lift (toStrings ([title; topic] ++ list)) ;;
    ok kws.

Definition articleArgs (title content topic locale : JsVal)
    (kws : list JsVal) : JsVal :=
  JObj [(lit "article", JObj [(lit "title", title); (lit "content", content)]);
        (lit "keywords", JArr kws); (lit "topic", topic);
        (lit "locale", locale)].

Definition generateMeta (title content keywords topic locale : JsVal)
  : ProgE GenResult :=
  kws <-! articleChecks "generateMeta" 8 title content keywords topic ;;
  generateAndParse (fun data =>
    lift (normalizeOther host (lit "META")
            (articleArgs title content topic locale kws) data)).

Definition generateImage (title content keywords topic locale : JsVal)
  : ProgE GenResult :=
  kws <-! articleChecks "generateImage" 5 title content keywords topic ;;
  generateAndParse (fun data =>
    now <- call Now ;;
    lift (normalizeImage host
            (articleArgs title content topic locale kws) data now)).

Definition generateHashtags (title content keywords topic locale : JsVal)
  : ProgE GenResult :=
  kws <-! articleChecks "generateHashtags" 8 title content keywords topic ;;
  generateAndParse (fun data =>
    lift (normalizeOther host (lit "HASHTAGS")
            (articleArgs title content topic locale kws) data)).

End WithHost.
End Provider.

(* ===================================================================== *)
(** ** workers/jobs-runner.js *)
(* ===================================================================== *)

Module Runner.
Import Js JobModel Exn Async Text Provider.
Local Open Scope prog_scope.

Definition MAX_RAW_SNIPPET : nat := 500.

Section WithHost.
Context (host : Host) (cfg : Config).

Definition errorMessage (err : Thrown) : jsstring :=
  match err with
  | ThrowUndefined => lit "Unknown error"
  | ThrowError e =>
      match e_message e with
      | [] => error_toString e
      | m => m
      end
  end.

Definition errorProp (f : JsError -> JsVal) (err : Thrown) : JsVal :=
  match err with
  | ThrowUndefined => JUndefined
  | ThrowError e => f e
  end.

(** toJobError(err, type) *)
Definition toJobError (err : Thrown) (type : string) : JsVal :=
  let raw :=
    or_ (errorProp e_raw err)
      (or_ (errorProp e_rawText err)
         (or_ (errorProp e_responseData err)
            (or_ (errorProp e_stack err) (JStr [])))) in
  let rawSnippet :=
    match raw with
    | JStr r => JStr (take MAX_RAW_SNIPPET r)
    | _ => JUndefined
    end in
  let parseError := errorProp e_parseError err in
  JObj
    ([ (lit "type", JStr (lit type));
       (lit "code", or_ (errorProp e_code err) (JStr (lit "AI_CALL_FAILED")));
       (lit "provider", JStr (AI_PROVIDER cfg));
       (lit "message", JStr (errorMessage err)) ]
     ++ (if truthy rawSnippet then [(lit "rawSnippet", rawSnippet)] else [])
     ++ (if truthy parseError then [(lit "parseError", parseError)] else [])).

Definition maxAttempts : Z := JOB_MAX_ATTEMPTS cfg.

Definition seedOf (pl : JsVal) : JsVal :=
  or_ (and_ pl (or_ (get pl "seed") (get pl "topic"))) (JStr (lit "untitled")).

Definition localeOf (pl : JsVal) : JsVal :=
  or_ (and_ pl (get pl "locale")) (JStr (DEFAULT_LOCALE cfg)).

Definition keywordsOf (pl : JsVal) : JsVal := or_ (get pl "keywords") (JArr []).
Definition settingsOf (pl : JsVal) : JsVal := or_ (get pl "settings") (JObj []).

(** The types whose branch requires title and content. *)
Definition articleTypes : list jsstring :=
  [lit "SEO"; lit "META"; lit "IMAGE"; lit "HASHTAGS"].

(** The error of that requirement, e.g.
    [new Error('SEO job requires title and content in payload')]. *)
Definition preconditionError (jobType : jsstring) : JsError :=
  mkError host (lit "Error")
    (jobType ++ lit " job requires title and content in payload").

(** The branches for SEO, META, IMAGE and HASHTAGS: title and content
    are required before the provider is called. *)
Definition withArticle (jobType : jsstring) (pl : JsVal)
    (generate : JsVal -> JsVal -> JsVal -> JsVal -> JsVal -> ProgE GenResult)
  : ProgE GenResult :=
  let title := get pl "title" in
  let content := get pl "content" in
  let keywords := keywordsOf pl in
  if negb (truthy title) || negb (truthy content)
  then throw (ThrowError (preconditionError jobType))
  else generate title content keywords (seedOf pl) (localeOf pl).

(** The if/else chain on [jobType]. *)
Definition dispatch (job : Job) : ProgE GenResult :=
  let jobType := type job in
  let pl := payload job in
  if streq jobType (lit "KEYWORDS") then
    generateKeywords host cfg (seedOf pl) (localeOf pl)
  else if streq jobType (lit "ARTICLE") then
    generateArticle host cfg (keywordsOf pl) (seedOf pl) (localeOf pl)
      (settingsOf pl)
  else if streq jobType (lit "SEO") then
    withArticle jobType pl (generateSEOReview host cfg)
  else if streq jobType (lit "META") then
    withArticle jobType pl (generateMeta host cfg)
  else if streq jobType (lit "IMAGE") then
    withArticle jobType pl (generateImage host cfg)
  else if streq jobType (lit "HASHTAGS") then
    withArticle jobType pl (generateHashtags host cfg)
  else
    throw (ThrowError (mkError host (lit "Error")
             (lit "Unsupported job type: " ++ jobType))).

(** [keywords] is an array, and the first [n] of its keyword strings,
    which the prompt joins, have a string. *)
Definition joinsKeywords (n : nat) (keywords : JsVal) : bool :=
  match keywords with
  | JArr ks => forallb hasString (take n (keywordStrings ks))
  | _ => false
  end.

(** What [dispatch] and the typed operation require before
    [generateText] is called, collected: the seed of a KEYWORDS or
    ARTICLE job is a string; keywords is an array whenever it is mapped,
    and the keyword strings joined into the prompt have a string, as the
    other values interpolated into it have (the tone of an ARTICLE job,
    the title and the topic of an article job); an article job has a
    title and a content that is a string. *)
Definition passesChecks (job : Job) : bool :=
  let pl := payload job in
  let article (n : nat) :=
    truthy (get pl "title") && truthy (get pl "content")
    && joinsKeywords n (keywordsOf pl) && is_string (get pl "content")
    && hasString (get pl "title") && hasString (seedOf pl) in
  if streq (type job) (lit "KEYWORDS") then is_string (seedOf pl)
  else if streq (type job) (lit "ARTICLE") then
    is_string (seedOf pl) && joinsKeywords 10 (keywordsOf pl)
    && hasString (toneOf (settingsOf pl))
  else if streq (type job) (lit "SEO") then article 10%nat
  else if streq (type job) (lit "META") then article 8%nat
  else if streq (type job) (lit "IMAGE") then article 5%nat
  else if streq (type job) (lit "HASHTAGS") then article 8%nat
  else false.

Definition successUpdate (r : GenResult) (a : Z) : Update :=
  {| u_status := SUCCEEDED; u_result := Some (g_result r);
     u_model := Some (g_model r); u_attempt := Some (a + 1);
     u_error := None; u_incTokens := g_tokensUsed r |}.

Definition exhaustedUpdate (lastErr : JsError) : Update :=
  {| u_status := FAILED; u_result := None; u_model := None;
     u_attempt := Some maxAttempts;
     u_error := Some (toJobError (ThrowError lastErr) "PROVIDER");
     u_incTokens := 0 |}.

Definition uncaughtUpdate (err : Thrown) : Update :=
  {| u_status := FAILED; u_result := None; u_model := None;
     u_attempt := None;
     u_error := Some (toJobError err "WORKER_UNCAUGHT");
     u_incTokens := 0 |}.

(** The body of the inner [try]: generate, then write the success. *)
Definition attemptOnce (job : Job) (a : Z) : ProgE unit :=
  r <-! dispatch job ;;
  call (UpdateOne (_id job) (successUpdate r a)).

(** The [for] loop from attempt [a]; the result is [lastErr].  The
    inner [catch] reads [err.message], which throws when [err] is
    undefined. *)
Fixpoint retryLoop (fuel : nat) (job : Job) (a : Z) (lastErr : option JsError)
  : ProgE (option JsError) :=
  match fuel with
  | O => ok lastErr
  | S fuel' =>
      if a <? maxAttempts then
        r <- attemptOnce job a ;;
        match r with
        | inr _ => ok None
        | inl ThrowUndefined =>
            throw (typeError host
                     "Cannot read properties of undefined (reading 'message')")
        | inl (ThrowError e) =>
            _ <- call (Sleep (300 + a * 300)) ;;
            retryLoop fuel' job (a + 1) (Some e)
        end
      else ok lastErr
  end.

(** Everything between the claim and the outer [catch]. *)
Definition processClaimed (job : Job) : ProgE unit :=
  lastErr <-! retryLoop (Z.to_nat (maxAttempts - attempt job)) job
                (attempt job) None ;;
  match lastErr with
  | Some e => call (UpdateOne (_id job) (exhaustedUpdate e))
  | None => ok tt
  end.

(** The outer [try]: it yields the value of the variable [job] with
    what the block threw, if anything. *)
Definition claimAndProcess : Prog (option Job * (Thrown + unit)) :=
  now <- call Now ;;
  c <- call (FindOneAndUpdate (INSTANCE_ID cfg) now) ;;
  match c with
  | inl err => Ret (None, inl err)
  | inr None =>
      _ <- call (SetBusy false) ;;
      Ret (None, inr tt)
  | inr (Some job) =>
      r <- processClaimed job ;;
      Ret (Some job, r)
  end.

(** The outer [catch]: the rejection of its update is swallowed. *)
Definition markUncaught (r : option Job * (Thrown + unit)) : Prog unit :=
  match r with
  | (Some job, inl err) =>
      _ <- call (UpdateOne (_id job) (uncaughtUpdate err)) ;;
      Ret tt
  | _ => Ret tt
  end.

Definition processOne : Prog unit :=
  busy <- call GetBusy ;;
  if busy : bool then Ret tt
  else
    _ <- call (SetBusy true) ;;
    r <- claimAndProcess ;;
    _ <- markUncaught r ;;
    call (SetBusy false).

End WithHost.
End Runner.

(* ===================================================================== *)
(** ** Running a program against a store, an SDK and a clock *)
(* ===================================================================== *)

Module Exec.
Import Js JobModel Exn Async.

(** What was awaited, in order. *)
Inductive Event : Type :=
| EClaim (inst : jsstring) (claimed : option N)
| EClaimRejected (inst : jsstring)
| EUpdate (id : N) (u : Update)
| EUpdateRejected (id : N) (u : Update)
| ESdk
| ESleep (ms : Z).

(** The environment answers the [n]-th awaited operation: what the SDK
    yields, whether the store rejects, and what time it is. *)
Record Env : Type := mkEnv {
  sdk : nat -> Thrown + SdkResult;
  fault : nat -> option Thrown;
  clock : nat -> Z
}.

(** The store, the runner's module variable [busy], and the trace. *)
Record World : Type := mkWorld {
  store : Store;
  busy : bool;
  trace : list Event
}.

Definition log (ev : Event) (w : World) : World :=
  {| store := store w; busy := busy w; trace := trace w ++ [ev] |}.

Definition handle (env : Env) {R} (op : Op R) (w : World) : R * World :=
  let n := length (trace w) in
  match op in Op R return R * World with
  | GetBusy => (busy w, w)
  | SetBusy b => (tt, {| store := store w; busy := b; trace := trace w |})
  | Now => (clock env n, w)
  | FindOneAndUpdate inst now =>
      match fault env n with
      | Some e => (inl e, log (EClaimRejected inst) w)
      | None =>
          let (j, st) := findOneAndUpdate inst now (store w) in
          (inr j,
           {| store := st; busy := busy w;
              trace := trace w ++ [EClaim inst (option_map _id j)] |})
      end
  | UpdateOne id u =>
      match fault env n with
      | Some e => (inl e, log (EUpdateRejected id u) w)
      | None =>
          (inr tt,
           {| store := updateOne id u (clock env n) (store w); busy := busy w;
              trace := trace w ++ [EUpdate id u] |})
      end
  | GenerateContent => (sdk env n, log ESdk w)
  | Sleep ms => (tt, log (ESleep ms) w)
  end.

Fixpoint run (env : Env) {A} (p : Prog A) (w : World) : A * World :=
  match p with
  | Ret a => (a, w)
  | Do op k => let (r, w') := handle env op w in run env (k r) w'
  end.

Definition sdkCalls (t : list Event) : nat :=
  length (List.filter (fun e => match e with ESdk => true | _ => false end) t).

Definition sleeps (t : list Event) : list Z :=
  omap (fun e => match e with ESleep ms => Some ms | _ => None end) t.

Definition updates (t : list Event) : list (N * Update) :=
  omap (fun e => match e with EUpdate id u => Some (id, u) | _ => None end) t.

Definition appendTrace (w : World) (evs : list Event) : World :=
  {| store := store w; busy := busy w; trace := trace w ++ evs |}.

(** *** Expected traces

    The events of one [generateText] whose SDK calls all fail with a
    retriable error: [fuel] calls, with the exponential backoff of
    [withRetry] between them, starting at index [i]. *)
Fixpoint retryEvents (fuel : nat) (i baseMs : Z) : list Event :=
  match fuel with
  | O => []
  | S O => [ESdk]
  | S fuel' => ESdk :: ESleep (baseMs * 2 ^ i) :: retryEvents fuel' (i + 1) baseMs
  end.

(** The events of [fuel] failed attempts of the runner from attempt
    [a]: each is the events [block] of the attempt, followed by the
    runner's backoff 300 + a * 300. *)
Fixpoint backoffEvents (fuel : nat) (a : Z) (block : list Event) : list Event :=
  match fuel with
  | O => []
  | S fuel' => block ++ ESleep (300 + a * 300) :: backoffEvents fuel' (a + 1) block
  end.

(** *** Properties of every path of a program

    [safe P Q b p]: started with the busy flag [b], whatever the awaited
    operations answer, every operation [p] issues satisfies [P] for the
    flag it is issued under, and [p] ends with a result and a flag that
    satisfy [Q]. *)

Definition answers {R} (b : bool) (op : Op R) : R -> Prop :=
  match op in Op R return R -> Prop with
  | GetBusy => fun r => r = b
  | _ => fun _ => True
  end.

Definition next {R} (b : bool) (op : Op R) : bool :=
  match op with
  | SetBusy v => v
  | _ => b
  end.

Fixpoint safe {A} (P : bool -> forall R, Op R -> Prop) (Q : A -> bool -> Prop)
    (b : bool) (p : Prog A) : Prop :=
  match p with
  | Ret a => Q a b
  | Do op k => P b _ op /\ forall r, answers b op r -> safe P Q (next b op) (k r)
  end.

(** The operations of the provider: the SDK call, a sleep, the clock. *)
Definition quietOp {R} (op : Op R) : Prop :=
  match op with
  | GenerateContent | Sleep _ | Now => True
  | _ => False
  end.

(** A program that issues only such operations and leaves the flag. *)
Definition quiet {A} (p : Prog A) : Prop :=
  forall (P : bool -> forall R, Op R -> Prop) (Q : A -> bool -> Prop) (b : bool),
    (forall R (op : Op R), quietOp op -> P b R op) ->
    (forall a, Q a b) ->
    safe P Q b p.

(** *** Properties checked on every path of a tick *)

(** An awaited operation is issued only while the flag is set. *)
Definition awaitsUnderBusy (b : bool) (R : Type) (op : Op R) : Prop :=
  awaited op = true -> b = true.

(** Nothing is awaited. *)
Definition awaitsNothing (b : bool) (R : Type) (op : Op R) : Prop :=
  awaited op = false.

(** A program that awaits only under a set flag and leaves it set. *)
Definition steady {A} (p : Prog A) : Prop :=
  safe awaitsUnderBusy (fun _ b => b = true) true p.

(** The attempt a write of the runner may store: a success stores the
    number of the attempt that succeeded, an exhaustion stores the
    maximum, and the mark of the outer catch stores none. *)
Definition write_ok (maxA : Z) (u : Update) : Prop :=
  match u_status u, u_attempt u with
  | SUCCEEDED, Some n => n <= maxA
  | FAILED, Some n => n = maxA
  | FAILED, None => True
  | _, _ => False
  end.

Definition writesOk (maxA : Z) (b : bool) (R : Type) (op : Op R) : Prop :=
  match op with
  | UpdateOne _ u => write_ok maxA u
  | _ => True
  end.

(** Every write of the program stores a permitted attempt. *)
Definition bounded (maxA : Z) {A} (p : Prog A) : Prop :=
  forall b, safe (writesOk maxA) (fun _ _ => True) b p.

(** *** Ticks of one runner instance, interleaved at the awaits *)

(** A started tick that waits for an awaited operation to settle. *)
Inductive Task : Type :=
| Pending {R : Type} (op : Op R) (k : R -> Prog unit).

(** Synchronous execution up to the next await or to the end: the
    busy flag before and after, and the task left waiting, if any. *)
Inductive sync : Prog unit -> bool -> option Task -> bool -> Prop :=
| sync_ret b : sync (Ret tt) b None b
| sync_get k b t b' :
    sync (k b) b t b' -> sync (Do GetBusy k) b t b'
| sync_set v k b t b' :
    sync (k tt) v t b' -> sync (Do (SetBusy v) k) b t b'
| sync_now now k b t b' :
    sync (k now) b t b' -> sync (Do Now k) b t b'
| sync_await R (op : Op R) k b :
    awaited op = true -> sync (Do op k) b (Some (Pending op k)) b.

(** One instance: its busy flag and the ticks in flight. *)
Definition Instance : Type := bool * list Task.

Definition tasks_of (t : option Task) : list Task :=
  match t with Some x => [x] | None => [] end.

(** The timer starts a tick, or an awaited operation of a tick in
    flight settles with some answer. *)
Inductive step (tick : Prog unit) : Instance -> Instance -> Prop :=
| step_tick b pool t b' :
    sync tick b t b' ->
    step tick (b, pool) (b', pool ++ tasks_of t)
| step_settle R (op : Op R) k (r : R) b before after t b' :
    sync (k r) b t b' ->
    step tick (b, before ++ Pending op k :: after)
              (b', before ++ tasks_of t ++ after).

Inductive reachable (tick : Prog unit) : Instance -> Prop :=
| reach_init : reachable tick (false, [])
| reach_step i i' : reachable tick i -> step tick i i' -> reachable tick i'.

(** Stores that submissions (routes/ai.js) and ticks of runner instances
    configured with the maximum [maxA] can produce, under any environment. *)
Inductive reachable_store (tick : Config -> Prog unit) (maxA : Z) : Store -> Prop :=
| rs_empty : reachable_store tick maxA []
| rs_submit st oid now uid ty pl :
    reachable_store tick maxA st ->
    reachable_store tick maxA (insert st (create oid now uid ty pl))
| rs_tick st cfg env b tr :
    reachable_store tick maxA st ->
    JOB_MAX_ATTEMPTS cfg = maxA ->
    reachable_store tick maxA
      (store (snd (run env (tick cfg) (mkWorld st b tr)))).

Definition attempts_bounded (maxA : Z) (st : Store) : Prop :=
  List.Forall (fun j => attempt j <= maxA) st.

Definition writes_bounded (maxA : Z) (t : list Event) : Prop :=
  List.Forall (fun w => write_ok maxA (snd w)) (updates t).

(** A started tick keeps the flag set while it waits and clears it when
    it ends, whatever the awaited operations answer. *)
Definition task_ok (t : Task) : Prop :=
  match t with
  | Pending op k =>
      forall r, safe awaitsUnderBusy (fun _ b => b = false) true (k r)
  end.

(** *** The attempts of a tick

    The world after [n] attempts of the runner's loop, the first with
    index [a], that each threw an Error and were followed by the
    runner's backoff; [None] when one of them returned or threw
    undefined.  [attemptAt a] is the body of the inner [try] at index
    [a]. *)
Fixpoint afterFailures (env : Env) (attemptAt : Z -> ProgE unit) (a : Z)
    (n : nat) (w : World) : option World :=
  match n with
  | O => Some w
  | S n' =>
      match run env (attemptAt a) w with
      | (inl (ThrowError _), w') =>
          afterFailures env attemptAt (a + 1) n' (log (ESleep (300 + a * 300)) w')
      | _ => None
      end
  end.

(** The [type] of the error that a write stores. *)
Definition errorType (u : Update) : JsVal :=
  match u_error u with
  | Some e => get e "type"
  | None => JUndefined
  end.

(** The writes of the tick that claimed [job] and went on in the world
    [w0].  A write of SUCCEEDED is made by the attempt that returned,
    after [n] attempts that failed, and stores the index of that
    attempt plus one, attempt job + n + 1, which is at most the maximum.
    A write of FAILED is the exhaustion write, made when every attempt
    left has failed, which stores the maximum, or the mark of the outer
    catch, which stores no attempt. *)
Definition tickWrite (host : Host) (cfg : Config) (env : Env) (job : Job)
    (w0 : World) (u : Update) : Prop :=
  match u_status u with
  | SUCCEEDED =>
      exists n wn,
        afterFailures env (Runner.attemptOnce host cfg job) (attempt job) n w0
        = Some wn
        /\ fst (run env (Runner.attemptOnce host cfg job (attempt job + Z.of_nat n)) wn)
           = inr tt
        /\ u_attempt u = Some (attempt job + Z.of_nat n + 1)
        /\ attempt job + Z.of_nat n + 1 <= JOB_MAX_ATTEMPTS cfg
  | FAILED =>
      (u_attempt u = Some (JOB_MAX_ATTEMPTS cfg)
       /\ errorType u = JStr (lit "PROVIDER")
       /\ attempt job < JOB_MAX_ATTEMPTS cfg
       /\ exists wn,
            afterFailures env (Runner.attemptOnce host cfg job) (attempt job)
              (Z.to_nat (JOB_MAX_ATTEMPTS cfg - attempt job)) w0
            = Some wn)
      \/ (u_attempt u = None /\ errorType u = JStr (lit "WORKER_UNCAUGHT"))
  | _ => False
  end.

(** Every write in the trace is a write of the tick, to its job. *)
Definition writes_exact (host : Host) (cfg : Config) (env : Env) (job : Job)
    (w0 : World) (t : list Event) : Prop :=
  List.Forall (fun w => fst w = _id job /\ tickWrite host cfg env job w0 (snd w))
    (updates t).

End Exec.

(* ===================================================================== *)
(** ** Sample inputs *)
(* ===================================================================== *)

Module Samples.
Import Js JobModel Exn Async Text Exec.

(** A host for the examples.  Its [JSON.parse] is right on the texts
    the examples use: the empty object, and texts that are not JSON, for
    which the message (a stand-in for the engine's) quotes the text. *)
Definition host : Host :=
  {| JSON_parse := fun s =>
       if streq s (lit "{}") then inr (JObj [])
       else inl (lit "Unexpected token in JSON: " ++ s);
     toLowerCase := map fold_case;
     stackOf := fun name message => name ++ lit ": " ++ message;
     wordCount := fun content => Z.of_nat (length content);
     normalizeOther := fun _ _ data => inr data;
     normalizeImage := fun _ data _ => inr data |}.

Definition cfg : Config := default_config (lit "worker-1").

(** An HTTP 429 of the SDK. *)
Definition err429 : JsError :=
  {| e_name := lit "Error"; e_message := lit "Too Many Requests";
     e_code := JUndefined; e_status := JNum (of_Z 429);
     e_statusCode := JUndefined; e_raw := JUndefined;
     e_rawText := JUndefined; e_responseData := JUndefined;
     e_stack := JUndefined; e_parseError := JUndefined |}.

(** The SDK rejects every call with it; the store never fails. *)
Definition rateLimited : Env :=
  {| sdk := fun _ => inl (ThrowError err429);
     fault := fun _ => None;
     clock := fun n => 1000 + Z.of_nat n |}.

Definition keywordsJob : Job :=
  create 1 10 7 (lit "KEYWORDS") (JObj [(lit "seed", JStr (lit "electric bikes"))]).

(** An SEO job submitted without title and content. *)
Definition seoJob : Job :=
  create 2 20 7 (lit "SEO") (JObj [(lit "topic", JStr (lit "electric bikes"))]).

(** A job whose generation succeeded with a null result and no tokens. *)
Definition doneJob : Job :=
  {| _id := 3; userId := 7; type := lit "KEYWORDS"; status := SUCCEEDED;
     payload := JObj []; result := JNull; error := JUndefined;
     model := Some (lit "gemini-2.0-flash-exp"); tokensUsed := 0; attempt := 1;
     claimedBy := Some (lit "worker-1"); claimedAt := Some 30;
     createdAt := 25; updatedAt := 40 |}.

(** Three instances that claim at the same time. *)
Definition threeCallers : list (jsstring * Z) :=
  [(lit "worker-1", 100); (lit "worker-2", 101); (lit "worker-3", 102)].

(** The jobs as the claim of worker-1 returns them at time 1000. *)
Definition claimedKeywords : Job := set_claimed (lit "worker-1") 1000 keywordsJob.
Definition claimedSeo : Job := set_claimed (lit "worker-1") 1000 seoJob.

Definition idle (st : Store) : World := mkWorld st false [].

(** A provider text with two objects. *)
Definition twoObjects : jsstring := lit "Result: {} and {}".

(** An HTTP 400 of the SDK, which is not retriable. *)
Definition refused : JsError :=
  {| e_name := lit "Error"; e_message := lit "Bad Request";
     e_code := JUndefined; e_status := JNum (of_Z 400);
     e_statusCode := JUndefined; e_raw := JUndefined;
     e_rawText := JUndefined; e_responseData := JUndefined;
     e_stack := JUndefined; e_parseError := JUndefined |}.

(** The SDK refuses the call of the first attempt of a tick (the
    operation awaited after the claim) and answers afterwards. *)
Definition refusedOnce : Env :=
  {| sdk := fun n =>
       match n with
       | 1%nat => inl (ThrowError refused)
       | _ => inr (mkSdkResult (lit "{}") 42)
       end;
     fault := fun _ => None;
     clock := fun n => 1000 + Z.of_nat n |}.

(** Three PENDING jobs, stored in another order than they were created
    in, and a settled one. *)
Definition backlog : Store :=
  [ create 11 300 7 (lit "SEO") (JObj []);
    create 12 100 7 (lit "KEYWORDS") (JObj []);
    doneJob;
    create 13 200 8 (lit "META") (JObj []) ].

(** The times of four claims. *)
Definition fourClaims : list Z := [1000; 1001; 1002; 1003].

End Samples.

(* ===================================================================== *)
(** ** routes/ai.js: POST /ai *)
(* ===================================================================== *)

Module AiRoute.
Import Js JobModel JobsRoute Exn.

(** Built-ins and library calls of the handler that are not modelled:
    [String(v)] of a value that is not a string, [toUpperCase], and what
    [Job.create] makes of the document it is given: the cast of the user
    id to an ObjectId, and the payload as it is saved.  JobSchema sets no
    option, so mongoose saves a document minimised: an empty object is
    not stored, and neither is a payload that is left empty
    ([JUndefined]). *)
Record Builtins : Type := mkBuiltins {
  stringOfOther : JsVal -> Thrown + jsstring;
  toUpperCase : jsstring -> jsstring;
  castObjectId : JsVal -> Thrown + N;
  savedPayload : JsVal -> JsVal
}.

(** [String(v)]. *)
Definition toString (b : Builtins) (v : JsVal) : Thrown + jsstring :=
  match v with
  | JStr s => inr s
  | _ => stringOfOther b v
  end.

Definition ALLOWED_TYPES : list jsstring :=
  [lit "KEYWORDS"; lit "ARTICLE"; lit "SEO"; lit "META"; lit "IMAGE";
   lit "HASHTAGS"].

(** What the handler does with the request: it sends a response, or it
    hands an error to [next]. *)
Inductive Outcome : Type :=
| Replied (r : Response)
| Next (err : Thrown).

(** [const { type: jobType, ...payload } = req.body || {}] *)
Definition restWithoutType (body : JsVal) : JsVal :=
  JObj (List.filter (fun kv => negb (streq (fst kv) (lit "type")))
          (spread (or_ body (JObj [])))).

(** [(req.user && (req.user.id || req.user._id)) || null] *)
Definition userIdOf (user : JsVal) : JsVal :=
  or_ (and_ user (or_ (get user "id") (get user "_id"))) JNull.

Definition unsupported (type : jsstring) : Response :=
  mkResponse 400
    (JObj [ (lit "error", JStr (lit "Unsupported AI job type"));
            (lit "supported", JArr (map JStr ALLOWED_TYPES));
            (lit "received", JStr type) ]).

(** The handler: [body] is req.body and [user] is req.user; [oid] and
    [now] are the identifier and the timestamp that the store assigns to
    the new document. *)
Definition postAi (b : Builtins) (oid : N) (now : Z) (st : Store)
    (body user : JsVal) : Outcome * Store :=
  match toString b (or_ (get body "type") (JStr [])) with
  | inl err => (Next err, st)
  | inr s =>
      let type := toUpperCase b s in
      if negb (existsb (streq type) ALLOWED_TYPES)
      then (Replied (unsupported type), st)
      else
        let userId := userIdOf user in
        if negb (truthy userId)
        then (Replied (mkResponse 401 (error_body "Unauthorized")), st)
        else
          match castObjectId b userId with
          | inl err => (Next err, st)
          | inr uid =>
              (Replied (mkResponse 201
                          (JObj [(lit "id", JStr (hex_of_oid oid))])),
               insert st
                 (create oid now uid type (savedPayload b (restWithoutType body))))
          end
  end.

End AiRoute.

(* ===================================================================== *)
(** ** middleware/auth: requireAuth *)
(* ===================================================================== *)

Module Auth.
Import Js JobsRoute Exn Text.

(** [s.split(sep)] for a separator of one code unit. *)
Fixpoint split (sep : N) (s : jsstring) : list jsstring :=
  match s with
  | [] => [[]]
  | c :: rest =>
      if N.eqb c sep then [] :: split sep rest
      else
        match split sep rest with
        | p :: ps => (c :: p) :: ps
        | [] => [[c]]
        end
  end.

Definition space : N := 32%N.

Definition denied (status : Z) (error reason : string) : Response :=
  mkResponse status
    (JObj [(lit "error", JStr (lit error)); (lit "reason", JStr (lit reason))]).

(** The middleware answers, or calls [next()] with req.user set:
    [Passed user] when req.user is made of values of the token's claims,
    [PassedSub] when it is [{ id: String.prototype.sub, email: null,
    username: null }], which is so for a payload that is a string. *)
Inductive Outcome : Type :=
| Denied (r : Response)
| Passed (user : JsVal)
| PassedSub.

(** [/^Bearer$/i.test(scheme)] *)
Definition isBearer (scheme : jsstring) : bool :=
  streq (map fold_case scheme) (lit "bearer").

(** The body of the [try]: the fields of the verified payload.  Reading
    a property of null or undefined throws, which the [catch] answers
    like a failed verification.  jwt.verify returns the payload of a
    token as a string when it is not a JSON object; a string has no
    property id, email or username, and its property sub is the method
    String.prototype.sub, which is truthy. *)
Definition userOf (payload : JsVal) : Outcome :=
  match payload with
  | JUndefined | JNull => Denied (denied 401 "Unauthorized" "INVALID_TOKEN")
  | JStr _ => PassedSub
  | _ =>
      let id := or_ (get payload "id") (or_ (get payload "sub") JNull) in
      let email := or_ (get payload "email") JNull in
      let username := or_ (get payload "username") JNull in
      if negb (truthy id)
      then Denied (denied 401 "Unauthorized" "INVALID_TOKEN_PAYLOAD")
      else Passed (JObj [(lit "id", id); (lit "email", email);
                         (lit "username", username)])
  end.

(** Whether the middleware called [next()]. *)
Definition calledNext (o : Outcome) : bool :=
  match o with
  | Denied _ => false
  | Passed _ | PassedSub => true
  end.

(** requireAuth: [headers] is req.headers, [secret] is
    process.env.JWT_SECRET and [verify] is jwt.verify. *)
Definition requireAuth (verify : jsstring -> jsstring -> Thrown + JsVal)
    (secret : option jsstring) (headers : JsVal) : Outcome :=
  match or_ (get headers "authorization") (get headers "Authorization") with
  | JStr (c :: h) =>
      let header := c :: h in
      let scheme := nth 0 (split space header) [] in
      match nth_error (split space header) 1 with
      | Some (t :: oken) =>
          if isBearer scheme then
            match secret with
            | Some (s :: ecret) =>
                match verify (t :: oken) (s :: ecret) with
                | inr payload => userOf payload
                | inl _ => Denied (denied 401 "Unauthorized" "INVALID_TOKEN")
                end
            | _ => Denied (denied 500 "Server misconfigured" "MISSING_JWT_SECRET")
            end
          else Denied (denied 401 "Unauthorized" "MALFORMED_AUTH_HEADER")
      | _ => Denied (denied 401 "Unauthorized" "MALFORMED_AUTH_HEADER")
      end
  | _ => Denied (denied 401 "Unauthorized" "MISSING_AUTH_HEADER")
  end.

End Auth.

(* ===================================================================== *)
(** ** providers/ai: field normalisation of generateKeywords, and the
       text measures of generateSEOReview *)
(* ===================================================================== *)

Module Normalise.
Import Js Text.

(** The callback of [keywordsArray.map((k, index) => ...)]. *)
Definition keywordEntry (index : nat) (k : JsVal) : JsVal :=
  match k with
  | JStr _ =>
      JObj [ (lit "keyword", k); (lit "volume", JNull);
             (lit "difficulty", JNull); (lit "source", JStr (lit "generated")) ]
  | _ =>
      JObj [ (lit "keyword",
              or_ (get k "keyword")
                (or_ (get k "term") (JStr (lit "keyword-" ++ index_key (S index)))));
             (lit "volume", or_ (get k "volume") JNull);
             (lit "difficulty", or_ (get k "difficulty") JNull);
             (lit "source", or_ (get k "source") (JStr (lit "generated"))) ]
  end.

(** [Array.isArray(data?.keywords) ? data.keywords : []] *)
Definition keywordsArray (data : JsVal) : list JsVal :=
  match get data "keywords" with
  | JArr ks => ks
  | _ => []
  end.

(** The [result] of generateKeywords for the parsed [data]. *)
Definition keywordsResult (seed data : JsVal) : JsVal :=
  JObj [ (lit "topic", or_ (get data "topic") seed);
         (lit "keywords", JArr (imap keywordEntry (keywordsArray data))) ].

Definition lessThan : N := 60%N.
Definition greaterThan : N := 62%N.

(** [s.replace(/<[^>]*>/g, sub)]: a tag runs from a "<" to the first
    ">" after it; a "<" that no ">" follows is kept. *)
Fixpoint replaceTagsFrom (sub : jsstring) (inTag : bool) (s : jsstring) : jsstring :=
  match s with
  | [] => []
  | c :: rest =>
      if inTag then
        if N.eqb c greaterThan then sub ++ replaceTagsFrom sub false rest
        else replaceTagsFrom sub true rest
      else if N.eqb c lessThan && existsb (N.eqb greaterThan) rest
      then replaceTagsFrom sub true rest
      else c :: replaceTagsFrom sub false rest
  end.

Definition replaceTags (sub s : jsstring) : jsstring := replaceTagsFrom sub false s.

(** [s.replace(/\s+/g, ' ')] *)
Fixpoint collapseFrom (inSpace : bool) (s : jsstring) : jsstring :=
  match s with
  | [] => []
  | c :: rest =>
      if isWhiteSpace c then
        if inSpace then collapseFrom true rest else 32%N :: collapseFrom true rest
      else c :: collapseFrom false rest
  end.

Definition collapseWhiteSpace (s : jsstring) : jsstring := collapseFrom false s.

(** Number of matches of /\s+/ in [s]: the maximal runs of white space. *)
Fixpoint whiteSpaceRuns (inSpace : bool) (s : jsstring) : nat :=
  match s with
  | [] => O
  | c :: rest =>
      if isWhiteSpace c then
        if inSpace then whiteSpaceRuns true rest else S (whiteSpaceRuns true rest)
      else whiteSpaceRuns false rest
  end.

(** [s.split(/\s+/).length] *)
Definition splitLength (s : jsstring) : nat := S (whiteSpaceRuns false s).

(** [textContent] and [wordCount] of generateSEOReview. *)
Definition textContent (content : jsstring) : jsstring :=
  trim (collapseWhiteSpace (replaceTags (lit " ") content)).

Definition wordCount (content : jsstring) : nat := splitLength (textContent content).

(** The words of a text: its maximal runs of characters that are not
    white space. *)
Fixpoint words (inWord : bool) (s : jsstring) : nat :=
  match s with
  | [] => O
  | c :: rest =>
      if isWhiteSpace c then words false rest
      else if inWord then words true rest else S (words true rest)
  end.

(** Whether the last character of the text is white space. *)
Fixpoint endsInSpace (s : jsstring) : bool :=
  match s with
  | [] => false
  | c :: rest =>
      match rest with
      | [] => isWhiteSpace c
      | _ => endsInSpace rest
      end
  end.

(** Whether a "<" of the text is followed by a ">". *)
Fixpoint hasTag (s : jsstring) : bool :=
  match s with
  | [] => false
  | c :: rest =>
      (N.eqb c lessThan && existsb (N.eqb greaterThan) rest) || hasTag rest
  end.

End Normalise.

(* ===================================================================== *)
(** ** Measures of a run, and the part of a tick after the claim *)
(* ===================================================================== *)

Module Trace.
Import Js JobModel Exn Async Exec.

(** Total of a list of delays. *)
Definition totalMs (l : list Z) : Z := fold_right Z.add 0 l.

(** What the SDK answers to the call number [j] (from 0) of a
    generateText started in the world [w]: each call and each backoff
    leaves one event. *)
Definition answer (env : Env) (w : World) (j : nat) : Thrown + SdkResult :=
  sdk env (length (trace w) + 2 * j)%nat.

(** What [exec] returns for an answer of the SDK. *)
Definition textResult (cfg : Config) (res : SdkResult) : Provider.TextResult :=
  Provider.mkTextResult (sdk_text res) (sdk_tokens res) (GEMINI_MODEL cfg).

(** The fields of a job that are set when it is submitted. *)
Definition submitted (j : Job) : N * N * jsstring * JsVal * Z :=
  (_id j, userId j, type j, payload j, createdAt j).

(** The operation writes to the document [id] only, and claims nothing. *)
Definition writesOnly (id : N) (b : bool) (R : Type) (op : Op R) : Prop :=
  match op with
  | UpdateOne id' _ => id' = id
  | FindOneAndUpdate _ _ => False
  | _ => True
  end.

(** What processOne does once the claim has returned [job]: the retry
    loop and the final write, the outer catch, the finally. *)
Definition afterClaim (host : Host) (cfg : Config) (job : Job) : Prog unit :=
  bind (Runner.processClaimed host cfg job) (fun r =>
  bind (Runner.markUncaught cfg (Some job, r)) (fun _ => call (SetBusy false))).

End Trace.

(* ===================================================================== *)
(** ** Further sample inputs *)
(* ===================================================================== *)

Module Cases.
Import Js JobModel JobsRoute Exn Async Text Exec.

(** The error of a failed parse of the text "no json here". *)
Definition unparsed : JsError :=
  Provider.parseFailed Samples.host (lit "no json here")
    (lit "Unexpected token in JSON: no json here").

(** An HTTP 400 of the SDK. *)
Definition err400 : JsError :=
  {| e_name := lit "Error"; e_message := lit "Bad Request";
     e_code := JUndefined; e_status := JNum (of_Z 400);
     e_statusCode := JUndefined; e_raw := JUndefined;
     e_rawText := JUndefined; e_responseData := JUndefined;
     e_stack := JUndefined; e_parseError := JUndefined |}.

(** The SDK rejects every call with it. *)
Definition badRequest : Env :=
  {| sdk := fun _ => inl (ThrowError err400);
     fault := fun _ => None;
     clock := fun n => 1000 + Z.of_nat n |}.

(** The SDK answers every call with an empty object and 42 tokens. *)
Definition answering : Env :=
  {| sdk := fun _ => inr (mkSdkResult (lit "{}") 42);
     fault := fun _ => None;
     clock := fun n => 1000 + Z.of_nat n |}.

(** The SDK answers every call with a text that is not JSON. *)
Definition chatty : Env :=
  {| sdk := fun _ => inr (mkSdkResult (lit "no json here") 5);
     fault := fun _ => None;
     clock := fun n => 1000 + Z.of_nat n |}.

(** The SDK rejects the first operation awaited with HTTP 429 and
    answers afterwards. *)
Definition flaky : Env :=
  {| sdk := fun n =>
       match n with
       | O => inl (ThrowError Samples.err429)
       | _ => inr (mkSdkResult (lit "{}") 42)
       end;
     fault := fun _ => None;
     clock := fun n => 1000 + Z.of_nat n |}.

(** The host of the examples with the word count that generateSEOReview
    computes. *)
Definition host : Host :=
  {| JSON_parse := JSON_parse Samples.host;
     toLowerCase := toLowerCase Samples.host;
     stackOf := stackOf Samples.host;
     wordCount := fun content => Z.of_nat (Normalise.wordCount content);
     normalizeOther := normalizeOther Samples.host;
     normalizeImage := normalizeImage Samples.host |}.

(** An SEO job with a title and a content. *)
Definition reviewJob : Job :=
  create 4 30 7 (lit "SEO")
    (JObj [ (lit "title", JStr (lit "Electric bikes"));
            (lit "content", JStr (lit "<p>Two wheels</p>"));
            (lit "keywords", JArr [JStr (lit "bike")]) ]).

Definition claimedReview : Job := set_claimed (lit "worker-1") 1000 reviewJob.

(** What generateKeywords returns for the answer of [answering], and
    the world in which it returns it. *)
Definition keywordsAnswer : Provider.GenResult :=
  Provider.mkGenResult (JObj []) 42 (lit "gemini-2.0-flash-exp").

Definition afterAnswer : World :=
  mkWorld [Samples.claimedKeywords] true
    [EClaim (lit "worker-1") (Some 1%N); ESdk].

(** A PENDING job whose attempts are used up. *)
Definition spentJob : Job :=
  {| _id := 5; userId := 7; type := lit "KEYWORDS"; status := PENDING;
     payload := JObj [(lit "seed", JStr (lit "electric bikes"))];
     result := JUndefined; error := JUndefined; model := None;
     tokensUsed := 0; attempt := 3; claimedBy := None; claimedAt := None;
     createdAt := 40; updatedAt := 40 |}.

Definition claimedSpent : Job := set_claimed (lit "worker-1") 1000 spentJob.

(** Configurations without retry attempts and without an API key. *)
Definition noRetries : Config :=
  {| INSTANCE_ID := lit "worker-1"; JOB_MAX_ATTEMPTS := 3;
     AI_RETRY_ATTEMPTS := 0; AI_RETRY_BASE_MS := 400;
     GOOGLE_API_KEY := true; GEMINI_MODEL := lit "gemini-2.0-flash-exp";
     AI_PROVIDER := lit "gemini"; DEFAULT_LOCALE := lit "en" |}.

Definition noKey : Config :=
  {| INSTANCE_ID := lit "worker-1"; JOB_MAX_ATTEMPTS := 3;
     AI_RETRY_ATTEMPTS := 3; AI_RETRY_BASE_MS := 400;
     GOOGLE_API_KEY := false; GEMINI_MODEL := lit "gemini-2.0-flash-exp";
     AI_PROVIDER := lit "gemini"; DEFAULT_LOCALE := lit "en" |}.

(** Upper case of ASCII letters. *)
Definition upper (c : N) : N :=
  if ((97 <=? c) && (c <=? 122))%N then (c - 32)%N else c.

(** Built-ins for the examples of POST /ai: a value that is not a
    string prints as an object, a user id is cast when it is 24
    hexadecimal digits, and a payload is saved as it is given, which is
    what mongoose does with a payload that holds no empty object, as
    those of the examples. *)
Definition builtins : AiRoute.Builtins :=
  {| AiRoute.stringOfOther := fun _ => inr (lit "[object Object]");
     AiRoute.toUpperCase := map upper;
     AiRoute.castObjectId := fun v =>
       match v with
       | JStr s => if idSchema s then inr (oid_of_hex s) else inl ThrowUndefined
       | _ => inl ThrowUndefined
       end;
     AiRoute.savedPayload := fun pl => pl |}.

(** The request of user 7 for a keywords job. *)
Definition keywordsBody : JsVal :=
  JObj [ (lit "type", JStr (lit "keywords"));
         (lit "seed", JStr (lit "electric bikes")) ].

Definition user7 : JsVal :=
  JObj [ (lit "id", JStr (hex_of_oid 7)); (lit "email", JNull);
         (lit "username", JStr (lit "ana")) ].

(** A verifier that accepts one token, signed for the subject 7. *)
Definition verify (token secret : jsstring) : Thrown + JsVal :=
  if streq token (lit "good") && streq secret (lit "s3cret")
  then inr (JObj [ (lit "sub", JStr (hex_of_oid 7));
                   (lit "username", JStr (lit "ana")) ])
  else inl ThrowUndefined.

Definition bearerHeaders : JsVal :=
  JObj [(lit "authorization", JStr (lit "bearer good"))].

End Cases.

(* ===================================================================== *)
(** * Properties *)
(* ===================================================================== *)

Import Js JobModel Exn Async Text.

(** ** Strings and objects *)

Lemma streq_spec (a b : jsstring) : streq a b = true <-> a = b.
Proof.
  revert b; induction a as [|x a IH]; intros [|y b]; simpl; try (split; congruence).
  rewrite andb_true_iff, N.eqb_eq, IH. split.
  - intros [-> ->]; reflexivity.
  - intros H; injection H; auto.
Qed.

Lemma streq_refl (a : jsstring) : streq a a = true.
Proof. apply streq_spec; reflexivity. Qed.

Lemma assoc_app k l1 l2 :
  assoc k (l1 ++ l2) = match assoc k l1 with Some v => Some v | None => assoc k l2 end.
Proof.
  induction l1 as [|[k' v] l1 IH]; simpl; [reflexivity|].
  destruct (streq k k'); auto.
Qed.



(** ** GET /jobs/:id *)

Section JobsRouteFacts.
Import JobsRoute.

Lemma getJob_ok st id user body :
  getJob st id user = mkResponse 200 body ->
  exists job,
    findById st (oid_of_hex id) = Some job
    /\ user = JStr (hex_of_oid (userId job))
    /\ body = JObj (jobView job).
Proof.
  unfold getJob. intros H.
  destruct (idSchema id); cbn [negb] in H; [|discriminate H].
  destruct (truthy user); cbn [negb] in H; [|discriminate H].
  destruct (findById st (oid_of_hex id)) as [job|]; [|discriminate H].
  destruct user as [| |b|n|u|l|fs]; try discriminate H.
  destruct (streq (hex_of_oid (userId job)) u) eqn:E; [|discriminate H].
  apply streq_spec in E; subst u.
  injection H as <-. exists job; auto.
Qed.

Lemma jobView_tokensUsed job :
  field "tokensUsed" (jobView job)
  = if Z.eqb (tokensUsed job) 0 then None
    else Some (JNum (of_Z (tokensUsed job))).
Proof.
  unfold field, jobView. rewrite !assoc_app. simpl.
  destruct (result job); simpl;
    destruct (truthy (error job)); simpl;
    destruct (Z.eqb (tokensUsed job) 0); simpl; try reflexivity;
    destruct (model job) as [[|c m]|]; reflexivity.
Qed.

Lemma jobView_model job :
  field "model" (jobView job)
  = match model job with
    | Some (c :: m) => Some (JStr (c :: m))
    | _ => None
    end.
Proof.
  unfold field, jobView. rewrite !assoc_app. simpl.
  destruct (result job); simpl;
    destruct (truthy (error job)); simpl;
    destruct (Z.eqb (tokensUsed job) 0); simpl;
    destruct (model job) as [[|c m]|]; reflexivity.
Qed.

Lemma jobView_error job :
  field "error" (jobView job)
  = if truthy (error job) then Some (error job) else None.
Proof.
  unfold field, jobView. rewrite !assoc_app. simpl.
  destruct (result job); simpl;
    destruct (truthy (error job)); simpl; try reflexivity;
    destruct (Z.eqb (tokensUsed job) 0); simpl;
    destruct (model job) as [[|c m]|]; reflexivity.
Qed.

Lemma jobView_result job :
  field "result" (jobView job)
  = match result job with
    | JUndefined => None
    | r => Some r
    end.
Proof.
  unfold field, jobView. rewrite !assoc_app. simpl.
  destruct (result job); simpl; try reflexivity;
    destruct (truthy (error job)); simpl;
    destruct (Z.eqb (tokensUsed job) 0); simpl;
    destruct (model job) as [[|c m]|]; reflexivity.
Qed.

End JobsRouteFacts.
Import Js JobModel Exn Async Text.

(** ** The claim *)

Lemma oldest_In l j : oldest l = Some j -> In j l.
Proof.
  revert j; induction l as [|x l IH]; simpl; intros j H; [discriminate|].
  destruct (oldest l) as [j'|].
  - destruct (createdAt j' <? createdAt x); injection H as <-; auto.
  - injection H as <-; auto.
Qed.

Lemma oldest_least l j :
  oldest l = Some j -> Forall (fun x => createdAt j <= createdAt x) l.
Proof.
  revert j; induction l as [|x l IH]; simpl; intros j H; [constructor|].
  destruct (oldest l) as [j'|] eqn:E.
  - specialize (IH j' eq_refl).
    destruct (createdAt j' <? createdAt x) eqn:C; injection H as <-.
    + apply Z.ltb_lt in C. constructor; [lia|exact IH].
    + apply Z.ltb_ge in C. constructor; [lia|].
      eapply List.Forall_impl; [|exact IH]. simpl; intros; lia.
  - injection H as <-. destruct l; [|simpl in E; destruct (oldest l); [destruct (_ <? _)|]; discriminate].
    constructor; [lia|constructor].
Qed.

Lemma oldest_None l : oldest l = None -> l = [].
Proof.
  destruct l as [|x l]; simpl; [reflexivity|].
  destruct (oldest l); [destruct (_ <? _)|]; discriminate.
Qed.

Lemma set_claimed_not_claimable inst now inst' j :
  claimable inst' (set_claimed inst now j) = false.
Proof. reflexivity. Qed.

Lemma replace_doc_ids id f st :
  (forall x, _id (f x) = _id x) -> map _id (replace_doc id f st) = map _id st.
Proof.
  intros Hf. unfold replace_doc. rewrite map_map. apply map_ext.
  intros x. destruct (N.eqb (_id x) id); auto.
Qed.

Lemma replace_doc_In id f st x :
  In x (replace_doc id f st) ->
  (In x st /\ _id x <> id) \/ (exists x0, In x0 st /\ _id x0 = id /\ x = f x0).
Proof.
  unfold replace_doc. rewrite in_map_iff. intros [x0 [Hx Hin]].
  destruct (N.eqb (_id x0) id) eqn:E.
  - apply N.eqb_eq in E. right; exists x0; auto.
  - apply N.eqb_neq in E. subst x. left; auto.
Qed.

(** What one claim does, in terms of the store before it. *)
Lemma claim_spec inst now st :
  match findOneAndUpdate inst now st with
  | (Some j, st') =>
      exists j0, In j0 st /\ claimable inst j0 = true
                 /\ j = set_claimed inst now j0
                 /\ Forall (fun x => createdAt j0 <= createdAt x)
                      (List.filter (claimable inst) st)
                 /\ st' = replace_doc (_id j0) (set_claimed inst now) st
  | (None, st') =>
      st' = st /\ List.filter (claimable inst) st = []
  end.
Proof.
  unfold findOneAndUpdate.
  destruct (oldest (List.filter (claimable inst) st)) as [j0|] eqn:E.
  - exists j0. pose proof (oldest_In _ _ E) as Hin.
    apply filter_In in Hin as [Hin Hc].
    repeat split; auto. apply oldest_least; exact E.
  - split; [reflexivity|]. apply oldest_None; exact E.
Qed.

Lemma claim_ids inst now st :
  map _id (snd (findOneAndUpdate inst now st)) = map _id st.
Proof.
  unfold findOneAndUpdate.
  destruct (oldest _); simpl; [|reflexivity].
  apply replace_doc_ids. reflexivity.
Qed.

(** A document claimable after a claim was claimable, unchanged, before. *)
Lemma claim_still_claimable inst now st inst' x :
  In x (snd (findOneAndUpdate inst now st)) -> claimable inst' x = true ->
  In x st /\ (forall j, fst (findOneAndUpdate inst now st) = Some j -> _id x <> _id j).
Proof.
  unfold findOneAndUpdate.
  destruct (oldest _) as [j0|]; simpl; intros Hin Hc.
  - apply replace_doc_In in Hin as [[Hin Hne]|[x0 [_ [_ ->]]]].
    + split; [exact Hin|]. intros j Hj; injection Hj as <-. exact Hne.
    + rewrite set_claimed_not_claimable in Hc; discriminate.
  - split; [exact Hin|]. intros j Hj; discriminate.
Qed.

Lemma claimMany_origin inst nows st j :
  In j (claimMany inst nows st) ->
  exists j0, In j0 st /\ claimable inst j0 = true /\ createdAt j = createdAt j0.
Proof.
  revert st; induction nows as [|now nows IH]; simpl; intros st H; [contradiction|].
  pose proof (claim_spec inst now st) as Hs.
  pose proof (claim_still_claimable inst now st inst) as Hk.
  destruct (findOneAndUpdate inst now st) as [[j1|] st'].
  - destruct Hs as [j0 (Hin & Hc & -> & _ & _)].
    destruct H as [<-|H].
    + exists j0; auto.
    + apply IH in H as [x (Hx & Hcx & He)].
      exists x. destruct (Hk x Hx Hcx) as [Hx' _]. auto.
  - destruct Hs as [-> _]. apply IH in H; exact H.
Qed.

Lemma claimMany_sorted inst nows st :
  StronglySorted Z.le (map createdAt (claimMany inst nows st)).
Proof.
  revert st; induction nows as [|now nows IH]; simpl; intros st; [constructor|].
  pose proof (claim_spec inst now st) as Hs.
  pose proof (claim_still_claimable inst now st inst) as Hk.
  pose proof (claimMany_origin inst nows) as Ho.
  destruct (findOneAndUpdate inst now st) as [[j1|] st']; [|apply IH].
  destruct Hs as [j0 (Hin & Hc & -> & Hle & _)].
  simpl. constructor; [apply IH|].
  apply List.Forall_forall. intros t Ht. apply in_map_iff in Ht as [x [<- Hx]].
  apply Ho in Hx as [x0 (Hx0 & Hcx & ->)].
  destruct (Hk x0 Hx0 Hcx) as [Hx' _].
  rewrite List.Forall_forall in Hle. apply Hle. apply filter_In; auto.
Qed.

(** With unique identifiers a claim takes exactly one document out of
    those that pass the filter, so [n] claims return the [n] oldest of
    them, or all of them when there are fewer. *)
Lemma claim_takes_one inst now st j st' :
  List.NoDup (map _id st) ->
  findOneAndUpdate inst now st = (Some j, st') ->
  S (length (List.filter (claimable inst) st'))
  = length (List.filter (claimable inst) st).
Proof.
  intros Hnd Hclaim. pose proof (claim_spec inst now st) as Hs.
  rewrite Hclaim in Hs. destruct Hs as [j0 (Hin & Hc & _ & _ & ->)]. clear Hclaim.
  unfold replace_doc.
  induction st as [|x st IH]; [contradiction|].
  simpl in Hnd. apply List.NoDup_cons_iff in Hnd as [Hx Hnd].
  destruct Hin as [->|Hin].
  - simpl. rewrite N.eqb_refl, Hc. simpl. f_equal. f_equal.
    rewrite <- (map_id st) at 2. f_equal. apply map_ext_in. intros y Hy.
    destruct (N.eqb (_id y) (_id j0)) eqn:E; [|reflexivity].
    apply N.eqb_eq in E. exfalso. apply Hx. rewrite <- E. apply in_map; exact Hy.
  - simpl. destruct (N.eqb (_id x) (_id j0)) eqn:E.
    + apply N.eqb_eq in E. exfalso. apply Hx. rewrite E. apply in_map; exact Hin.
    + destruct (claimable inst x); simpl; rewrite <- (IH Hnd Hin); reflexivity.
Qed.

Lemma claimMany_count inst nows st :
  List.NoDup (map _id st) ->
  length (claimMany inst nows st)
  = Nat.min (length nows) (length (List.filter (claimable inst) st)).
Proof.
  revert st; induction nows as [|now nows IH]; intros st Hnd; [reflexivity|].
  cbn [claimMany length].
  pose proof (claim_spec inst now st) as Hs.
  pose proof (claim_ids inst now st) as Hi.
  pose proof (claim_takes_one inst now st) as Ht.
  destruct (findOneAndUpdate inst now st) as [[j|] st']; simpl in Hi.
  - specialize (Ht j st' Hnd eq_refl). cbn [length].
    rewrite IH by (rewrite Hi; exact Hnd). rewrite <- Ht. reflexivity.
  - destruct Hs as [-> He]. rewrite IH by exact Hnd. rewrite He. simpl. lia.
Qed.

Lemma replace_doc_keeps id f st x :
  In x st -> _id x <> id -> In x (replace_doc id f st).
Proof.
  intros Hin Hne. unfold replace_doc. apply in_map_iff. exists x.
  split; [|exact Hin].
  destruct (N.eqb (_id x) id) eqn:E; [|reflexivity].
  apply N.eqb_eq in E. contradiction.
Qed.

(** Every document that successive claims return is the claimed copy of
    a document that passed the filter in the store they started from. *)
Lemma claimMany_claimed inst nows st j :
  In j (claimMany inst nows st) ->
  exists j0 t, In j0 st /\ claimable inst j0 = true /\ In t nows
               /\ j = set_claimed inst t j0.
Proof.
  revert st; induction nows as [|now nows IH]; simpl; intros st H; [contradiction|].
  pose proof (claim_spec inst now st) as Hs.
  pose proof (claim_still_claimable inst now st inst) as Hk.
  destruct (findOneAndUpdate inst now st) as [[j1|] st'].
  - destruct Hs as [j0 (Hin & Hc & -> & _ & _)].
    destruct H as [<-|H].
    + exists j0, now. auto.
    + apply IH in H as [x [t (Hx & Hcx & Ht & He)]].
      exists x, t. destruct (Hk x Hx Hcx) as [Hx' _]. auto.
  - destruct Hs as [-> _]. apply IH in H as [x [t (Hx & Hcx & Ht & He)]].
    exists x, t. auto.
Qed.

(** No document is returned twice. *)
Lemma claimMany_distinct inst nows st :
  List.NoDup (map _id (claimMany inst nows st)).
Proof.
  revert st; induction nows as [|now nows IH]; simpl; intros st; [constructor|].
  pose proof (claim_still_claimable inst now st inst) as Hk.
  destruct (findOneAndUpdate inst now st) as [[j1|] st']; [|apply IH].
  simpl in *. constructor; [|apply IH].
  intros Hin. apply in_map_iff in Hin as [j [Hid Hj]].
  apply claimMany_claimed in Hj as [x [t (Hx & Hcx & _ & ->)]].
  destruct (Hk x Hx Hcx) as [_ Hne]. apply (Hne j1 eq_refl). exact Hid.
Qed.

(** The documents that pass the filter and are not returned are no older
    than any document returned. *)
Lemma claimMany_oldest inst nows st x :
  In x st -> claimable inst x = true ->
  ~ In (_id x) (map _id (claimMany inst nows st)) ->
  List.Forall (fun j => createdAt j <= createdAt x) (claimMany inst nows st).
Proof.
  revert st; induction nows as [|now nows IH]; simpl; intros st Hx Hc Hn; [constructor|].
  pose proof (claim_spec inst now st) as Hs.
  destruct (findOneAndUpdate inst now st) as [[j1|] st'].
  - destruct Hs as [j0 (Hin0 & Hc0 & -> & Hle & ->)].
    simpl in Hn. constructor.
    + simpl. rewrite List.Forall_forall in Hle. apply Hle. apply filter_In. auto.
    + apply IH; [|exact Hc|].
      * apply replace_doc_keeps; [exact Hx|]. intros E. apply Hn. left.
        symmetry. exact E.
      * intros H. apply Hn. right. exact H.
  - destruct Hs as [-> _]. apply IH; assumption.
Qed.

(** ** Claims by several instances *)

Lemma claimable_pending inst j : claimable inst j = true -> isPending j = true.
Proof.
  unfold claimable, isPending. intros H.
  apply andb_true_iff in H as [H _]. apply andb_true_iff in H as [H _]. exact H.
Qed.

Lemma findById_In st id x : findById st id = Some x -> In x st /\ _id x = id.
Proof.
  unfold findById. intros H. apply find_some in H as [Hin He].
  apply N.eqb_eq in He. auto.
Qed.

Lemma findById_unique st x :
  List.NoDup (map _id st) -> In x st -> findById st (_id x) = Some x.
Proof.
  unfold findById. induction st as [|y st IH]; simpl; intros Hnd Hin; [contradiction|].
  apply List.NoDup_cons_iff in Hnd as [Hy Hnd].
  destruct Hin as [->|Hin].
  - rewrite N.eqb_refl. reflexivity.
  - destruct (N.eqb (_id y) (_id x)) eqn:E.
    + apply N.eqb_eq in E. exfalso. apply Hy. rewrite E. apply in_map; exact Hin.
    + apply IH; assumption.
Qed.

Lemma findById_replace_other id0 f st id :
  (forall x, _id (f x) = _id x) -> id <> id0 ->
  findById (replace_doc id0 f st) id = findById st id.
Proof.
  intros Hf Hne. unfold findById, replace_doc.
  induction st as [|y st IH]; simpl; [reflexivity|].
  destruct (N.eqb (_id y) id0) eqn:E0.
  - apply N.eqb_eq in E0. rewrite Hf.
    destruct (N.eqb (_id y) id) eqn:E; [apply N.eqb_eq in E; congruence|exact IH].
  - destruct (N.eqb (_id y) id); [reflexivity|exact IH].
Qed.

Lemma findById_replace_same id0 f st x :
  (forall y, _id (f y) = _id y) ->
  findById st id0 = Some x -> findById (replace_doc id0 f st) id0 = Some (f x).
Proof.
  intros Hf. unfold findById, replace_doc.
  induction st as [|y st IH]; simpl; [discriminate|].
  destruct (N.eqb (_id y) id0) eqn:E0.
  - intros H; injection H as <-. simpl. rewrite Hf, E0. reflexivity.
  - intros H. simpl. rewrite E0. apply IH; exact H.
Qed.

(** A document that is not PENDING is left as it is by a claim. *)
Lemma claim_keeps_settled inst now st x :
  List.NoDup (map _id st) -> In x st -> isPending x = false ->
  findById (snd (findOneAndUpdate inst now st)) (_id x) = Some x.
Proof.
  intros Hnd Hin Hx. pose proof (claim_spec inst now st) as Hs.
  destruct (findOneAndUpdate inst now st) as [[j|] st']; simpl.
  - destruct Hs as [j0 (Hin0 & Hc & _ & _ & ->)].
    rewrite findById_replace_other; [apply findById_unique; assumption|reflexivity|].
    intros E. apply claimable_pending in Hc.
    assert (x = j0) as ->; [|congruence].
    pose proof (findById_unique st x Hnd Hin) as H1.
    pose proof (findById_unique st j0 Hnd Hin0) as H2.
    rewrite E in H1. congruence.
  - destruct Hs as [-> _]. apply findById_unique; assumption.
Qed.

Lemma filter_map_shrinks (P : Job -> bool) (g : Job -> Job) st :
  (forall x, P (g x) = true -> g x = x) ->
  (length (List.filter P (map g st)) <= length (List.filter P st))%nat.
Proof.
  intros Hg. induction st as [|y st IH]; simpl; [lia|].
  destruct (P (g y)) eqn:E.
  - rewrite (Hg y E) in E. rewrite E. simpl. lia.
  - destruct (P y); simpl; lia.
Qed.

Lemma filter_map_drops (P : Job -> bool) (g : Job -> Job) st x :
  (forall y, P (g y) = true -> g y = y) ->
  In x st -> P x = true -> P (g x) = false ->
  (length (List.filter P (map g st)) < length (List.filter P st))%nat.
Proof.
  intros Hg Hin Hx Hgx. induction st as [|y st IH]; simpl; [contradiction|].
  pose proof (filter_map_shrinks P g st Hg) as Hle.
  destruct Hin as [->|Hin].
  - rewrite Hgx, Hx. simpl. lia.
  - specialize (IH Hin). destruct (P (g y)) eqn:E.
    + rewrite (Hg y E) in E. rewrite E. simpl. lia.
    + destruct (P y); simpl; lia.
Qed.

(** A successful claim takes one document out of the PENDING ones. *)
Lemma claim_uses_pending inst now st :
  match fst (findOneAndUpdate inst now st) with
  | Some _ =>
      (length (List.filter isPending (snd (findOneAndUpdate inst now st)))
       < length (List.filter isPending st))%nat
  | None => snd (findOneAndUpdate inst now st) = st
  end.
Proof.
  pose proof (claim_spec inst now st) as Hs.
  destruct (findOneAndUpdate inst now st) as [[j|] st']; simpl.
  - destruct Hs as [j0 (Hin0 & Hc & _ & _ & ->)].
    unfold replace_doc. apply filter_map_drops with (x := j0); auto.
    + intros y. destruct (N.eqb (_id y) (_id j0)); [discriminate|reflexivity].
    + apply claimable_pending in Hc; exact Hc.
    + rewrite N.eqb_refl. reflexivity.
  - destruct Hs as [-> _]; reflexivity.
Qed.

Lemma claimsBy_ids callers st :
  map _id (snd (claimsBy callers st)) = map _id st.
Proof.
  revert st; induction callers as [|[inst now] callers IH]; simpl; intros st; [reflexivity|].
  pose proof (claim_ids inst now st) as Hi.
  destruct (findOneAndUpdate inst now st) as [r st']. simpl in Hi.
  specialize (IH st'). destruct (claimsBy callers st') as [rs st'']. simpl in *.
  congruence.
Qed.

Lemma claimsBy_keeps_settled callers st x :
  List.NoDup (map _id st) -> In x st -> isPending x = false ->
  findById (snd (claimsBy callers st)) (_id x) = Some x.
Proof.
  revert st; induction callers as [|[inst now] callers IH]; simpl; intros st Hnd Hin Hx.
  - apply findById_unique; assumption.
  - pose proof (claim_keeps_settled inst now st x Hnd Hin Hx) as Hk.
    pose proof (claim_ids inst now st) as Hi.
    destruct (findOneAndUpdate inst now st) as [r st']. simpl in *.
    specialize (IH st'). destruct (claimsBy callers st') as [rs st'']. simpl in *.
    apply IH; [rewrite Hi; exact Hnd| |exact Hx].
    apply findById_In in Hk as [Hk _]; exact Hk.
Qed.

Lemma claimsBy_winner_origin callers st w :
  In w (winners (fst (claimsBy callers st))) ->
  exists j0, In j0 st /\ isPending j0 = true /\ _id (snd w) = _id j0.
Proof.
  revert st; induction callers as [|[inst now] callers IH]; simpl; intros st H; [contradiction|].
  pose proof (claim_spec inst now st) as Hs.
  pose proof (claim_still_claimable inst now st) as Hk.
  destruct (findOneAndUpdate inst now st) as [r st']. simpl in Hk.
  specialize (IH st'). destruct (claimsBy callers st') as [rs st'']. simpl in *.
  unfold winners in H. simpl in H.
  assert (In w (winners rs) -> exists j0, In j0 st /\ isPending j0 = true /\ _id (snd w) = _id j0) as Hrest.
  { intros Hw. apply IH in Hw as [x (Hx & Hp & He)].
    destruct r as [j|].
    - destruct Hs as [j0 (Hin0 & Hc & _ & _ & ->)].
      apply replace_doc_In in Hx as [[Hx _]|[x0 (_ & _ & ->)]].
      + exists x; auto.
      + discriminate Hp.
    - destruct Hs as [-> _]. exists x; auto. }
  destruct r as [j|]; simpl in H.
  - destruct H as [<-|H]; [|apply Hrest; exact H].
    destruct Hs as [j0 (Hin0 & Hc & -> & _ & _)].
    exists j0. split; [exact Hin0|]. split; [eapply claimable_pending; exact Hc|reflexivity].
  - apply Hrest; exact H.
Qed.

(** ** Programs: running, and properties of every path *)

Import Exec Provider Runner.

Lemma run_bind env A B (p : Prog A) (f : A -> Prog B) w :
  run env (bind p f) w = let (a, w') := run env p w in run env (f a) w'.
Proof.
  revert w; induction p as [a|R op k IH]; simpl; intros w; [reflexivity|].
  destruct (handle env op w) as [r w']. apply IH.
Qed.

Lemma safe_bind A B P (Q : B -> bool -> Prop) b (p : Prog A) (f : A -> Prog B) :
  safe P (fun a b' => safe P Q b' (f a)) b p -> safe P Q b (bind p f).
Proof.
  revert b; induction p as [a|R op k IH]; simpl; intros b H; [exact H|].
  destruct H as [HP Hk]. split; [exact HP|]. intros r Hr. apply IH, Hk, Hr.
Qed.

Lemma safe_mono A (P P' : bool -> forall R, Op R -> Prop) (Q Q' : A -> bool -> Prop) b p :
  (forall b R (op : Op R), P b R op -> P' b R op) ->
  (forall a b, Q a b -> Q' a b) ->
  safe P Q b p -> safe P' Q' b p.
Proof.
  intros HP HQ. revert b; induction p as [a|R op k IH]; simpl; intros b H; [auto|].
  destruct H as [H1 H2]. split; [auto|]. intros r Hr. apply IH, H2, Hr.
Qed.

Lemma handle_answers env R (op : Op R) w :
  answers (busy w) op (fst (handle env op w))
  /\ busy (snd (handle env op w)) = next (busy w) op.
Proof.
  destruct op; simpl; auto.
  - destruct (fault env _); simpl; auto.
    destruct (findOneAndUpdate _ _ _); simpl; auto.
  - destruct (fault env _); simpl; auto.
Qed.

(** An invariant of the world that every permitted operation keeps holds
    after the run, together with the postcondition. *)
Lemma run_safe env (I : World -> Prop) A P (Q : A -> bool -> Prop) (p : Prog A) w :
  (forall R (op : Op R) w, I w -> P (busy w) R op -> I (snd (handle env op w))) ->
  I w -> safe P Q (busy w) p ->
  I (snd (run env p w)) /\ Q (fst (run env p w)) (busy (snd (run env p w))).
Proof.
  intros Hstep. revert w; induction p as [a|R op k IH]; simpl; intros w HI H; [auto|].
  destruct H as [HP Hk].
  pose proof (handle_answers env R op w) as [Ha Hb].
  pose proof (Hstep R op w HI HP) as HI'.
  destruct (handle env op w) as [r w']. simpl in *.
  apply IH; [exact HI'|]. rewrite Hb. apply Hk, Ha.
Qed.

Lemma quiet_ret A (a : A) : quiet (Ret a).
Proof. intros P Q b _ HQ. simpl. apply HQ. Qed.

Lemma quiet_bind A B (p : Prog A) (f : A -> Prog B) :
  quiet p -> (forall a, quiet (f a)) -> quiet (bind p f).
Proof.
  intros Hp Hf P Q b HP HQ. apply safe_bind.
  apply Hp; [exact HP|]. intros a. apply Hf; assumption.
Qed.

Lemma quiet_call R (op : Op R) : quietOp op -> quiet (call op).
Proof.
  intros Hop P Q b HP HQ. simpl. split; [apply HP, Hop|].
  intros r _. destruct op; simpl in *; try contradiction; apply HQ.
Qed.

Lemma quiet_do A R (op : Op R) (k : R -> Prog A) :
  quietOp op -> (forall r, quiet (k r)) -> quiet (Do op k).
Proof.
  intros Hop Hk P Q b HP HQ. simpl. split; [apply HP, Hop|].
  intros r _. replace (next b op) with b; [apply Hk; assumption|].
  destruct op; simpl in *; try contradiction; reflexivity.
Qed.

Lemma quiet_bindE A B (p : ProgE A) (f : A -> ProgE B) :
  quiet p -> (forall a, quiet (f a)) -> quiet (bindE p f).
Proof.
  intros Hp Hf. apply quiet_bind; [exact Hp|].
  intros [e|a]; [apply quiet_ret|apply Hf].
Qed.

Section ProviderQuiet.
Context (host : Host) (cfg : Config).

Lemma quiet_exec : quiet (exec cfg).
Proof.
  apply quiet_bind; [apply quiet_call; exact I|].
  intros [e|r]; apply quiet_ret.
Qed.

Lemma quiet_withRetry_from A fuel i n base (fn : ProgE A) last :
  quiet fn -> quiet (withRetry_from host fuel i n base fn last).
Proof.
  intros Hfn. revert i last; induction fuel as [|fuel IH]; simpl; intros i last.
  - apply quiet_ret.
  - destruct (i <? n); [|apply quiet_ret].
    apply quiet_bind; [exact Hfn|]. intros [err|a]; [|apply quiet_ret].
    destruct ((i =? n - 1) || negb (isRetriableError host err)); [apply quiet_ret|].
    apply quiet_do; [exact I|]. intros _. apply IH.
Qed.

Lemma quiet_generateText : quiet (generateText host cfg).
Proof.
  unfold generateText. destruct (GOOGLE_API_KEY cfg); [|apply quiet_ret].
  apply quiet_withRetry_from, quiet_exec.
Qed.

Lemma quiet_generateAndParse norm :
  (forall d, quiet (norm d)) -> quiet (generateAndParse host cfg norm).
Proof.
  intros Hn. unfold generateAndParse.
  apply quiet_bindE; [apply quiet_generateText|]. intros t.
  destruct (parseJSONResponse host (t_text t)); [apply quiet_ret|].
  apply quiet_bindE; [apply Hn|]. intros res. apply quiet_ret.
Qed.

Lemma quiet_lift A (r : Thrown + A) : quiet (lift r).
Proof. apply quiet_ret. Qed.

Lemma quiet_articleChecks name n title content keywords topic :
  quiet (articleChecks host name n title content keywords topic).
Proof.
  unfold articleChecks.
  destruct (negb (truthy title) || negb (truthy topic)); [apply quiet_ret|].
  apply quiet_bindE; [apply quiet_lift|]. intros kws.
  apply quiet_bindE; [apply quiet_lift|]. intros list.
  apply quiet_bindE; [destruct (truthy content); apply quiet_ret|].
  intros _. apply quiet_bindE; [apply quiet_lift|].
  intros _. apply quiet_ret.
Qed.

Lemma quiet_dispatch job : quiet (dispatch host cfg job).
Proof.
  unfold dispatch, withArticle.
  repeat match goal with
         | |- quiet (if ?c then _ else _) => destruct c
         end; try apply quiet_ret.
  - unfold generateKeywords.
    destruct (_ || _); [apply quiet_ret|].
    apply quiet_generateAndParse. intros d; apply quiet_lift.
  - unfold generateArticle.
    destruct (_ || _); [apply quiet_ret|].
    apply quiet_bindE; [apply quiet_lift|]. intros kws.
    apply quiet_bindE; [apply quiet_lift|]. intros list.
    apply quiet_bindE; [apply quiet_lift|]. intros _.
    apply quiet_generateAndParse. intros d; apply quiet_lift.
  - unfold generateSEOReview.
    destruct (_ || _); [apply quiet_ret|].
    apply quiet_bindE; [apply quiet_lift|]. intros kws.
    apply quiet_bindE; [apply quiet_lift|]. intros list.
    apply quiet_bindE; [apply quiet_lift|]. intros text.
    apply quiet_bindE; [apply quiet_lift|]. intros _.
    apply quiet_generateAndParse. intros d; apply quiet_ret.
  - unfold generateMeta.
    apply quiet_bindE; [apply quiet_articleChecks|]. intros kws.
    apply quiet_generateAndParse. intros d; apply quiet_lift.
  - unfold generateImage.
    apply quiet_bindE; [apply quiet_articleChecks|]. intros kws.
    apply quiet_generateAndParse. intros d.
    apply quiet_bind; [apply quiet_call; exact I|]. intros now. apply quiet_lift.
  - unfold generateHashtags.
    apply quiet_bindE; [apply quiet_articleChecks|]. intros kws.
    apply quiet_generateAndParse. intros d; apply quiet_lift.
Qed.

End ProviderQuiet.

(** ** The busy flag *)

Lemma sync_safe P (Q : unit -> bool -> Prop) b p t b' :
  safe P Q b p -> sync p b t b' ->
  match t with
  | None => Q tt b'
  | Some (Pending op k) =>
      awaited op = true /\ P b' _ op /\ forall r, safe P Q b' (k r)
  end.
Proof.
  intros Hs Hsync; revert Hs.
  induction Hsync as [b|k b t b' _ IH|v k b t b' _ IH|now k b t b' _ IH|R op k b Haw];
    simpl; intros Hs.
  - exact Hs.
  - apply IH. apply Hs. reflexivity.
  - apply IH. apply (proj2 Hs tt). exact I.
  - apply IH. apply (proj2 Hs now). exact I.
  - destruct Hs as [HP Hk]. split; [exact Haw|]. split; [exact HP|].
    intros r. specialize (Hk r).
    destruct op; simpl in *; try discriminate; apply Hk; exact I.
Qed.

Lemma quiet_steady A (p : Prog A) : quiet p -> steady p.
Proof. intros Hq. apply Hq; [intros; intro; reflexivity|reflexivity]. Qed.

Lemma steady_bind A B (p : Prog A) (f : A -> Prog B) (Q : B -> bool -> Prop) :
  steady p ->
  (forall a, safe awaitsUnderBusy Q true (f a)) ->
  safe awaitsUnderBusy Q true (bind p f).
Proof.
  intros Hp Hf. apply safe_bind.
  eapply safe_mono; [| |exact Hp]; [auto|].
  simpl. intros a b ->. apply Hf.
Qed.

Section BusyFlag.
Context (host : Host) (cfg : Config).

Lemma steady_update A id u (k : Thrown + unit -> Prog A) :
  (forall r, steady (k r)) -> steady (Do (UpdateOne id u) k).
Proof. intros Hk. split; [intro; reflexivity|]. intros r _. apply Hk. Qed.

Lemma steady_attemptOnce job a : steady (attemptOnce host cfg job a).
Proof.
  unfold attemptOnce, bindE. apply steady_bind; [apply quiet_steady, quiet_dispatch|].
  intros [e|r]; unfold steady; simpl; [reflexivity|].
  split; [intro; reflexivity|]. intros r0 _. reflexivity.
Qed.

Lemma steady_retryLoop fuel job a last : steady (retryLoop host cfg fuel job a last).
Proof.
  revert a last; induction fuel as [|fuel IH]; intros a last; cbn [retryLoop].
  - unfold steady; simpl. reflexivity.
  - destruct (a <? maxAttempts cfg); [|unfold steady; simpl; reflexivity].
    apply steady_bind; [apply steady_attemptOnce|].
    intros [[|e]|[]]; unfold steady; simpl; try reflexivity.
    split; [intro; reflexivity|]. intros _ _. apply IH.
Qed.

Lemma steady_processClaimed job : steady (processClaimed host cfg job).
Proof.
  unfold processClaimed, bindE. apply steady_bind; [apply steady_retryLoop|].
  intros [e|[e|]]; unfold steady; simpl; try reflexivity.
  split; [intro; reflexivity|]. intros r _. reflexivity.
Qed.

(** A tick that finds the flag clear holds it while it waits and
    clears it in the end. *)
Lemma processOne_releases :
  safe awaitsUnderBusy (fun _ b => b = false) false (processOne host cfg).
Proof.
  unfold processOne. simpl. split; [intro; discriminate|].
  intros r ->. simpl. split; [intro; discriminate|]. intros _ _.
  split; [intro; discriminate|]. intros now _.
  split; [intro; reflexivity|]. intros [err|[job|]] _.
  - simpl. split; [intro; discriminate|]. intros _ _. reflexivity.
  - cbn [bind]. apply safe_bind. apply steady_bind; [apply steady_processClaimed|].
    intros r. simpl. destruct r as [err|[]]; simpl.
    + split; [intro; reflexivity|]. intros _ _.
      split; [intro; discriminate|]. intros _ _. reflexivity.
    + split; [intro; discriminate|]. intros _ _. reflexivity.
  - simpl. split; [intro; discriminate|]. intros _ _.
    split; [intro; discriminate|]. intros _ _. reflexivity.
Qed.

(** A tick that finds the flag set ends at once. *)
Lemma processOne_skips :
  safe awaitsNothing (fun _ b => b = true) true (processOne host cfg).
Proof.
  unfold processOne. simpl. split; [reflexivity|]. intros r ->. reflexivity.
Qed.

Lemma step_invariant i i' :
  step (processOne host cfg) i i' ->
  length (snd i) = (if fst i then 1 else 0)%nat /\ List.Forall task_ok (snd i) ->
  length (snd i') = (if fst i' then 1 else 0)%nat /\ List.Forall task_ok (snd i').
Proof.
  intros Hstep [Hlen Hok].
  destruct Hstep as [b pool t b' Hsync|R op k r b before after t b' Hsync]; simpl in *.
  - destruct b.
    + pose proof (sync_safe _ _ _ _ _ _ processOne_skips Hsync) as H.
      destruct t as [[R op k]|].
      * destruct H as (Haw & Hno & _). unfold awaitsNothing in Hno. congruence.
      * subst b'. simpl. rewrite app_nil_r. auto.
    + pose proof (sync_safe _ _ _ _ _ _ processOne_releases Hsync) as H.
      destruct pool; [|discriminate Hlen].
      destruct t as [[R op k]|]; simpl.
      * destruct H as (Haw & Hb & Hk). rewrite (Hb Haw). split; [reflexivity|].
        constructor; [|constructor]. simpl. rewrite (Hb Haw) in Hk. exact Hk.
      * subst b'. auto.
  - rewrite length_app in Hlen. simpl in Hlen.
    destruct b; [|lia].
    assert (before = [] /\ after = []) as [-> ->].
    { destruct before, after; simpl in Hlen; try lia; auto. }
    simpl in *. apply List.Forall_inv in Hok. simpl in Hok.
    pose proof (sync_safe _ _ _ _ _ _ (Hok r) Hsync) as H.
    rewrite app_nil_r.
    destruct t as [[R' op' k']|]; simpl.
    + destruct H as (Haw & Hb & Hk). rewrite (Hb Haw). split; [reflexivity|].
      constructor; [|constructor]. simpl. rewrite (Hb Haw) in Hk. exact Hk.
    + subst b'. auto.
Qed.

Lemma reachable_invariant i :
  reachable (processOne host cfg) i ->
  length (snd i) = (if fst i then 1 else 0)%nat /\ List.Forall task_ok (snd i).
Proof.
  induction 1 as [|i i' _ IH Hstep]; [simpl; auto|].
  eapply step_invariant; eauto.
Qed.

Lemma run_busy_skips env st tr :
  run env (processOne host cfg) (mkWorld st true tr) = (tt, mkWorld st true tr).
Proof. reflexivity. Qed.

Lemma run_clears_busy env st tr :
  busy (snd (run env (processOne host cfg) (mkWorld st false tr))) = false.
Proof.
  pose proof (run_safe env (fun _ => True) _ _ _ (processOne host cfg)
                (mkWorld st false tr) (fun _ _ _ _ _ => I) I processOne_releases) as [_ H].
  exact H.
Qed.

End BusyFlag.

(** ** The attempt counter *)

Lemma updates_app t1 t2 : updates (t1 ++ t2) = updates t1 ++ updates t2.
Proof. unfold updates. apply omap_app. Qed.

Lemma replace_doc_Forall (P : Job -> Prop) id f st :
  (forall x, P x -> P (f x)) -> List.Forall P st -> List.Forall P (replace_doc id f st).
Proof.
  intros Hf H. unfold replace_doc. apply List.Forall_forall. intros y Hy.
  apply in_map_iff in Hy as [x [<- Hx]].
  rewrite List.Forall_forall in H. specialize (H x Hx).
  destruct (N.eqb (_id x) id); auto.
Qed.

Lemma handle_keeps_store_bound env maxA R (op : Op R) w :
  attempts_bounded maxA (store w) ->
  writesOk maxA (busy w) R op ->
  attempts_bounded maxA (store (snd (handle env op w))).
Proof.
  unfold attempts_bounded. intros Hst Hop.
  destruct op; simpl in *; auto.
  - destruct (fault env _); simpl; [exact Hst|].
    unfold findOneAndUpdate. destruct (oldest _) as [j0|]; simpl; [|exact Hst].
    apply replace_doc_Forall; auto.
  - destruct (fault env _); simpl; [exact Hst|].
    apply replace_doc_Forall; [|exact Hst]. intros x Hx. simpl.
    unfold write_ok in Hop.
    destruct (u_status u), (u_attempt u); simpl; try contradiction; lia.
Qed.

Lemma handle_keeps_trace_bound env maxA R (op : Op R) w :
  writes_bounded maxA (trace w) ->
  writesOk maxA (busy w) R op ->
  writes_bounded maxA (trace (snd (handle env op w))).
Proof.
  unfold writes_bounded. intros Htr Hop.
  destruct op; simpl in *; auto.
  - destruct (fault env _); simpl.
    + rewrite updates_app, app_nil_r. exact Htr.
    + destruct (findOneAndUpdate _ _ _); simpl.
      rewrite updates_app, app_nil_r. exact Htr.
  - destruct (fault env _); simpl; rewrite updates_app; simpl.
    + rewrite app_nil_r. exact Htr.
    + apply List.Forall_app. split; [exact Htr|]. constructor; [exact Hop|constructor].
  - rewrite updates_app, app_nil_r. exact Htr.
  - rewrite updates_app, app_nil_r. exact Htr.
Qed.

Section AttemptBound.
Context (host : Host) (cfg : Config).


Lemma quiet_bounded A (p : Prog A) : quiet p -> bounded (JOB_MAX_ATTEMPTS cfg) p.
Proof.
  intros Hq b. apply Hq; [|intros; exact I].
  intros R op Hop; destruct op; simpl in *; try contradiction; exact I.
Qed.

Lemma bounded_bind A B (p : Prog A) (f : A -> Prog B) :
  bounded (JOB_MAX_ATTEMPTS cfg) p -> (forall a, bounded (JOB_MAX_ATTEMPTS cfg) (f a)) -> bounded (JOB_MAX_ATTEMPTS cfg) (bind p f).
Proof.
  intros Hp Hf b. apply safe_bind.
  eapply safe_mono; [| |apply Hp]; [auto|]. simpl. intros a b' _. apply Hf.
Qed.

Lemma bounded_attemptOnce job a :
  a < (JOB_MAX_ATTEMPTS cfg) -> bounded (JOB_MAX_ATTEMPTS cfg) (attemptOnce host cfg job a).
Proof.
  intros Ha. unfold attemptOnce, bindE.
  apply bounded_bind; [apply quiet_bounded, quiet_dispatch|].
  intros [e|r] b; simpl; [exact I|].
  split; [unfold write_ok; simpl; lia|]. intros; exact I.
Qed.

Lemma bounded_retryLoop fuel job a last :
  bounded (JOB_MAX_ATTEMPTS cfg) (retryLoop host cfg fuel job a last).
Proof.
  revert a last; induction fuel as [|fuel IH]; intros a last; cbn [retryLoop].
  - intros b; exact I.
  - unfold maxAttempts. destruct (a <? (JOB_MAX_ATTEMPTS cfg)) eqn:E; [|intros b; exact I].
    apply Z.ltb_lt in E.
    apply bounded_bind; [apply bounded_attemptOnce; exact E|].
    intros [[|e]|[]] b; simpl; try exact I.
    split; [exact I|]. intros _ _. apply IH.
Qed.

Lemma bounded_processClaimed job : bounded (JOB_MAX_ATTEMPTS cfg) (processClaimed host cfg job).
Proof.
  unfold processClaimed, bindE. apply bounded_bind; [apply bounded_retryLoop|].
  intros [e|[e|]] b; simpl; try exact I.
  split; [unfold write_ok; simpl; reflexivity|]. intros; exact I.
Qed.

Lemma bounded_processOne : bounded (JOB_MAX_ATTEMPTS cfg) (processOne host cfg).
Proof.
  unfold processOne. intros b. simpl. split; [exact I|].
  intros r _. destruct r; simpl; [exact I|].
  split; [exact I|]. intros _ _. split; [exact I|]. intros now _.
  split; [exact I|]. intros [err|[job|]] _.
  - simpl. auto.
  - cbn [bind]. apply safe_bind. apply safe_bind.
    eapply safe_mono; [| |apply bounded_processClaimed]; [auto|].
    simpl. intros r b' _. destruct r as [err|[]]; simpl; auto.
    split; [unfold write_ok; simpl; exact I|]. intros _ _. auto.
  - simpl. auto.
Qed.

Lemma tick_keeps_store_bound env w :
  attempts_bounded (JOB_MAX_ATTEMPTS cfg) (store w) ->
  attempts_bounded (JOB_MAX_ATTEMPTS cfg) (store (snd (run env (processOne host cfg) w))).
Proof.
  intros H.
  destruct (run_safe env (fun w => attempts_bounded (JOB_MAX_ATTEMPTS cfg) (store w))
              unit (writesOk (JOB_MAX_ATTEMPTS cfg)) (fun _ _ => True)
              (processOne host cfg) w) as [Hr _].
  - intros R op w' Hw Hop. apply handle_keeps_store_bound; assumption.
  - exact H.
  - apply bounded_processOne.
  - exact Hr.
Qed.

Lemma tick_keeps_trace_bound env w :
  writes_bounded (JOB_MAX_ATTEMPTS cfg) (trace w) ->
  writes_bounded (JOB_MAX_ATTEMPTS cfg) (trace (snd (run env (processOne host cfg) w))).
Proof.
  intros H.
  destruct (run_safe env (fun w => writes_bounded (JOB_MAX_ATTEMPTS cfg) (trace w))
              unit (writesOk (JOB_MAX_ATTEMPTS cfg)) (fun _ _ => True)
              (processOne host cfg) w) as [Hr _].
  - intros R op w' Hw Hop. apply handle_keeps_trace_bound; assumption.
  - exact H.
  - apply bounded_processOne.
  - exact Hr.
Qed.

End AttemptBound.

(** ** Runs in which every attempt fails *)

Lemma appendTrace_app w x y :
  appendTrace (appendTrace w x) y = appendTrace w (x ++ y).
Proof. unfold appendTrace. simpl. rewrite <- app_assoc. reflexivity. Qed.

Lemma appendTrace_nil w : appendTrace w [] = w.
Proof. destruct w. unfold appendTrace. simpl. rewrite app_nil_r. reflexivity. Qed.

Lemma run_sleep env ms w : run env (call (Sleep ms)) w = (tt, appendTrace w [ESleep ms]).
Proof. reflexivity. Qed.

Lemma run_sleep_then env A ms (f : unit -> Prog A) w :
  run env (bind (call (Sleep ms)) f) w = run env (f tt) (appendTrace w [ESleep ms]).
Proof. reflexivity. Qed.

Lemma run_exec env cfg w :
  run env (Provider.exec cfg) w
  = (match sdk env (length (trace w)) with
     | inl e => inl e
     | inr res => inr (mkTextResult (sdk_text res) (sdk_tokens res) (GEMINI_MODEL cfg))
     end, appendTrace w [ESdk]).
Proof. unfold Provider.exec. simpl. destruct (sdk env _); reflexivity. Qed.

Lemma sdkCalls_app t1 t2 : sdkCalls (t1 ++ t2) = (sdkCalls t1 + sdkCalls t2)%nat.
Proof. unfold sdkCalls. rewrite List.filter_app, List.length_app. reflexivity. Qed.

Lemma sleeps_app t1 t2 : sleeps (t1 ++ t2) = sleeps t1 ++ sleeps t2.
Proof. unfold sleeps. apply omap_app. Qed.

Lemma sdkCalls_retryEvents fuel i base : sdkCalls (retryEvents fuel i base) = fuel.
Proof.
  revert i; induction fuel as [|[|fuel] IH]; intros i; try reflexivity.
  change (retryEvents (S (S fuel)) i base)
    with (ESdk :: ESleep (base * 2 ^ i) :: retryEvents (S fuel) (i + 1) base).
  change (sdkCalls (ESdk :: ESleep (base * 2 ^ i) :: retryEvents (S fuel) (i + 1) base))
    with (S (sdkCalls (retryEvents (S fuel) (i + 1) base))).
  rewrite IH. reflexivity.
Qed.

Lemma updates_retryEvents fuel i base : updates (retryEvents fuel i base) = [].
Proof.
  revert i; induction fuel as [|[|fuel] IH]; intros i; try reflexivity.
  change (retryEvents (S (S fuel)) i base)
    with (ESdk :: ESleep (base * 2 ^ i) :: retryEvents (S fuel) (i + 1) base).
  change (updates (ESdk :: ESleep (base * 2 ^ i) :: retryEvents (S fuel) (i + 1) base))
    with (updates (retryEvents (S fuel) (i + 1) base)).
  apply IH.
Qed.

Lemma sdkCalls_backoffEvents fuel a block :
  sdkCalls (backoffEvents fuel a block) = (fuel * sdkCalls block)%nat.
Proof.
  revert a; induction fuel as [|fuel IH]; intros a; simpl; [reflexivity|].
  rewrite sdkCalls_app. change (sdkCalls (ESleep (300 + a * 300) :: backoffEvents fuel (a + 1) block))
    with (sdkCalls (backoffEvents fuel (a + 1) block)).
  rewrite IH. lia.
Qed.

Lemma updates_backoffEvents fuel a block :
  updates block = [] -> updates (backoffEvents fuel a block) = [].
Proof.
  intros Hb. revert a; induction fuel as [|fuel IH]; intros a; simpl; [reflexivity|].
  rewrite updates_app, Hb. simpl. apply IH.
Qed.

Section AllAttemptsFail.
Context (host : Host) (cfg : Config) (env : Env).

Lemma withRetry_from_S A fuel i n base (fn : ProgE A) last :
  withRetry_from host (S fuel) i n base fn last
  = if i <? n then
      bind fn (fun r =>
        match r with
        | inr a => ok a
        | inl err =>
            if (i =? n - 1) || negb (isRetriableError host err)
            then throw err
            else bind (call (Sleep (base * 2 ^ i)))
                   (fun _ => withRetry_from host fuel (i + 1) n base fn err)
        end)
    else throw last.
Proof. reflexivity. Qed.

Lemma retryLoop_S fuel job a last :
  retryLoop host cfg (S fuel) job a last
  = if a <? maxAttempts cfg then
      bind (attemptOnce host cfg job a) (fun r =>
        match r with
        | inr _ => ok None
        | inl ThrowUndefined =>
            throw (typeError host
                     "Cannot read properties of undefined (reading 'message')")
        | inl (ThrowError e) =>
            bind (call (Sleep (300 + a * 300)))
              (fun _ => retryLoop host cfg fuel job (a + 1) (Some e))
        end)
    else ok last.
Proof. reflexivity. Qed.

(** [withRetry] when every SDK call fails with a retriable error. *)
Lemma withRetry_all_fail fuel i last w :
  (forall n, exists e, sdk env n = inl (ThrowError e)
                       /\ isRetriableError host (ThrowError e) = true) ->
  S fuel = Z.to_nat (AI_RETRY_ATTEMPTS cfg - i) ->
  exists e,
    run env (withRetry_from host (S fuel) i (AI_RETRY_ATTEMPTS cfg)
               (AI_RETRY_BASE_MS cfg) (exec cfg) last) w
    = (inl (ThrowError e),
       appendTrace w (retryEvents (S fuel) i (AI_RETRY_BASE_MS cfg))).
Proof.
  intros Hsdk. revert i last w; induction fuel as [|fuel IH]; intros i last w Hf.
  - rewrite withRetry_from_S.
    assert ((i <? AI_RETRY_ATTEMPTS cfg) = true) as -> by (apply Z.ltb_lt; lia).
    rewrite run_bind, run_exec.
    destruct (Hsdk (length (trace w))) as [e [He _]]. rewrite He.
    assert ((i =? AI_RETRY_ATTEMPTS cfg - 1) = true) as -> by (apply Z.eqb_eq; lia).
    exists e. reflexivity.
  - rewrite withRetry_from_S.
    assert ((i <? AI_RETRY_ATTEMPTS cfg) = true) as -> by (apply Z.ltb_lt; lia).
    rewrite run_bind, run_exec.
    destruct (Hsdk (length (trace w))) as [e [He Hr]]. rewrite He.
    assert ((i =? AI_RETRY_ATTEMPTS cfg - 1) = false) as -> by (apply Z.eqb_neq; lia).
    rewrite Hr. cbn [orb negb]. rewrite run_sleep_then.
    destruct (IH (i + 1) (ThrowError e)
                (appendTrace (appendTrace w [ESdk])
                   [ESleep (AI_RETRY_BASE_MS cfg * 2 ^ i)]))
      as [e' He']; [lia|].
    exists e'. rewrite He'. f_equal.
    rewrite !appendTrace_app. reflexivity.
Qed.

(** The loop of the runner when every attempt throws an Error and
    leaves the events [block]. *)
Lemma retryLoop_all_fail job block (Pe : JsError -> Prop) :
  (forall a w, exists e,
      Pe e /\ run env (attemptOnce host cfg job a) w
              = (inl (ThrowError e), appendTrace w block)) ->
  forall fuel a last w,
    fuel = Z.to_nat (maxAttempts cfg - a) ->
    match last with Some e => Pe e | None => True end ->
    exists last',
      run env (retryLoop host cfg fuel job a last) w
      = (inr last', appendTrace w (backoffEvents fuel a block))
      /\ match last' with
         | Some e => Pe e
         | None => fuel = O /\ last = None
         end.
Proof.
  intros Hfail. induction fuel as [|fuel IH]; intros a last w Hf Hl.
  - simpl. rewrite appendTrace_nil. exists last. split; [reflexivity|].
    destruct last; auto.
  - rewrite retryLoop_S.
    assert ((a <? maxAttempts cfg) = true) as -> by (apply Z.ltb_lt; lia).
    rewrite run_bind. destruct (Hfail a w) as [e [HPe He]]. rewrite He.
    rewrite run_sleep_then.
    destruct (IH (a + 1) (Some e)
                (appendTrace (appendTrace w block) [ESleep (300 + a * 300)]))
      as [last' [Hrun Hlast]]; [lia|exact HPe|].
    exists last'. rewrite Hrun. split.
    + f_equal. rewrite !appendTrace_app. reflexivity.
    + destruct last'; [exact Hlast|]. destruct Hlast as [_ Hn]; discriminate Hn.
Qed.

End AllAttemptsFail.

(** ** A tick whose every attempt fails *)

Lemma run_getBusy_then env A (f : bool -> Prog A) w :
  run env (bind (call GetBusy) f) w = run env (f (busy w)) w.
Proof. reflexivity. Qed.

Lemma run_setBusy_then env A b (f : unit -> Prog A) w :
  run env (bind (call (SetBusy b)) f) w
  = run env (f tt) (mkWorld (store w) b (trace w)).
Proof. reflexivity. Qed.

Lemma run_now_then env A (f : Z -> Prog A) w :
  run env (bind (call Now) f) w = run env (f (clock env (length (trace w)))) w.
Proof. reflexivity. Qed.

Lemma run_claim_then env A inst now (f : Thrown + option Job -> Prog A) w :
  fault env (length (trace w)) = None ->
  run env (bind (call (FindOneAndUpdate inst now)) f) w
  = run env (f (inr (fst (findOneAndUpdate inst now (store w)))))
      (mkWorld (snd (findOneAndUpdate inst now (store w))) (busy w)
         (trace w ++ [EClaim inst
                        (option_map _id (fst (findOneAndUpdate inst now (store w))))])).
Proof.
  intros Hf. simpl. rewrite Hf.
  destruct (findOneAndUpdate inst now (store w)); reflexivity.
Qed.

Lemma run_update env id u w :
  fault env (length (trace w)) = None ->
  run env (call (UpdateOne id u)) w
  = (inr tt,
     mkWorld (updateOne id u (clock env (length (trace w))) (store w)) (busy w)
       (trace w ++ [EUpdate id u])).
Proof. intros Hf. simpl. rewrite Hf. reflexivity. Qed.

Section ClaimedTick.
Context (host : Host) (cfg : Config).

(** A tick up to the claim, when the claim returns a job. *)
Lemma processOne_claimed env st tr job st1 :
  fault env (length tr) = None ->
  findOneAndUpdate (INSTANCE_ID cfg) (clock env (length tr)) st = (Some job, st1) ->
  run env (processOne host cfg) (mkWorld st false tr)
  = run env (Trace.afterClaim host cfg job)
      (mkWorld st1 true (tr ++ [EClaim (INSTANCE_ID cfg) (Some (_id job))])).
Proof.
  intros Hf Hclaim.
  unfold processOne. rewrite run_getBusy_then. cbn [busy].
  rewrite run_setBusy_then. rewrite run_bind.
  unfold claimAndProcess. rewrite run_now_then. cbn [trace store].
  rewrite run_claim_then by exact Hf. cbn [store busy trace].
  rewrite Hclaim. cbn [fst snd option_map].
  unfold Trace.afterClaim. rewrite !run_bind.
  destruct (run env (processClaimed host cfg job) _) as [r w1].
  cbn [run]. rewrite run_bind. reflexivity.
Qed.

End ClaimedTick.

(** ** The writes of a tick *)

Lemma quiet_keeps_updates env A (p : Prog A) w :
  quiet p -> updates (trace (snd (run env p w))) = updates (trace w).
Proof.
  intros Hq.
  destruct (run_safe env (fun w' => updates (trace w') = updates (trace w)) A
              (fun _ R op => quietOp op) (fun _ _ => True) p w) as [Hr _].
  - intros R op w' H Hop. destruct op; simpl in *; try contradiction;
      rewrite ?updates_app, ?app_nil_r; exact H.
  - reflexivity.
  - apply Hq; auto.
  - exact Hr.
Qed.

Lemma afterFailures_snoc env attemptAt n : forall a w0 w e w1,
  afterFailures env attemptAt a n w0 = Some w ->
  run env (attemptAt (a + Z.of_nat n)) w = (inl (ThrowError e), w1) ->
  afterFailures env attemptAt a (S n) w0
  = Some (log (ESleep (300 + (a + Z.of_nat n) * 300)) w1).
Proof.
  induction n as [|n IH]; intros a w0 w e w1 H Hrun.
  - injection H as <-. cbn [afterFailures]. rewrite Z.add_0_r in Hrun.
    rewrite Hrun, Z.add_0_r. reflexivity.
  - cbn [afterFailures] in H.
    change (afterFailures env attemptAt a (S (S n)) w0)
      with (match run env (attemptAt a) w0 with
            | (inl (ThrowError _), w') =>
                afterFailures env attemptAt (a + 1) (S n)
                  (log (ESleep (300 + a * 300)) w')
            | _ => None
            end).
    destruct (run env (attemptAt a) w0) as [[[|e0]|[]] w'] eqn:E; try discriminate H.
    replace (a + Z.of_nat (S n)) with (a + 1 + Z.of_nat n) in * by lia.
    apply (IH (a + 1) _ w e w1 H Hrun).
Qed.

Section TickWrites.
Context (host : Host) (cfg : Config) (env : Env) (job : Job) (w0 : World).

(** An attempt writes once, the success, when it returns, and nothing when
    it throws. *)
Lemma attemptOnce_updates a w :
  match run env (attemptOnce host cfg job a) w with
  | (inr _, w') =>
      exists g,
        updates (trace w') = updates (trace w) ++ [(_id job, successUpdate g a)]
  | (inl _, w') => updates (trace w') = updates (trace w)
  end.
Proof.
  unfold attemptOnce, bindE. rewrite run_bind.
  pose proof (quiet_keeps_updates env _ (dispatch host cfg job) w
                (quiet_dispatch host cfg job)) as Hq.
  destruct (run env (dispatch host cfg job) w) as [[e|g] w1]; simpl in Hq.
  - exact Hq.
  - simpl. destruct (fault env (length (trace w1))) as [e|]; simpl.
    + rewrite updates_app, app_nil_r. exact Hq.
    + exists g. rewrite updates_app, Hq. reflexivity.
Qed.

Lemma retryLoop_writes fuel : forall n w last,
  afterFailures env (attemptOnce host cfg job) (attempt job) n w0 = Some w ->
  updates (trace w) = [] ->
  fuel = Z.to_nat (maxAttempts cfg - (attempt job + Z.of_nat n)) ->
  match last with Some _ => (0 < n)%nat | None => True end ->
  writes_exact host cfg env job w0
    (trace (snd (run env (retryLoop host cfg fuel job (attempt job + Z.of_nat n) last) w)))
  /\ match fst (run env (retryLoop host cfg fuel job (attempt job + Z.of_nat n) last) w) with
     | inr (Some _) =>
         (0 < n + fuel)%nat
         /\ afterFailures env (attemptOnce host cfg job) (attempt job) (n + fuel) w0
            = Some (snd (run env (retryLoop host cfg fuel job
                                    (attempt job + Z.of_nat n) last) w))
         /\ updates (trace (snd (run env (retryLoop host cfg fuel job
                                           (attempt job + Z.of_nat n) last) w))) = []
     | inr None => True
     | inl _ =>
         updates (trace (snd (run env (retryLoop host cfg fuel job
                                         (attempt job + Z.of_nat n) last) w))) = []
     end.
Proof.
  induction fuel as [|fuel IH]; intros n w last Hn Hu Hf Hlast.
  - cbn [retryLoop ok run fst snd]. unfold writes_exact. rewrite Hu.
    split; [constructor|]. destruct last as [e|]; [|exact I].
    rewrite Nat.add_0_r. split; [exact Hlast|]. split; [exact Hn|reflexivity].
  - rewrite retryLoop_S.
    assert ((attempt job + Z.of_nat n <? maxAttempts cfg) = true) as ->
        by (apply Z.ltb_lt; lia).
    rewrite run_bind.
    pose proof (attemptOnce_updates (attempt job + Z.of_nat n) w) as Ha.
    destruct (run env (attemptOnce host cfg job (attempt job + Z.of_nat n)) w)
      as [[[|e]|[]] w1] eqn:Erun.
    + cbn [run throw fst snd]. unfold writes_exact. rewrite Ha, Hu.
      split; [constructor|reflexivity].
    + rewrite run_sleep_then.
      pose proof (afterFailures_snoc env _ n _ w0 w e w1 Hn Erun) as Hn'.
      assert (updates (trace (appendTrace w1 [ESleep (300 + (attempt job + Z.of_nat n) * 300)]))
              = []) as Hu'.
      { simpl. rewrite updates_app, Ha, Hu. reflexivity. }
      replace (attempt job + Z.of_nat n + 1) with (attempt job + Z.of_nat (S n)) by lia.
      assert (fuel = Z.to_nat (maxAttempts cfg - (attempt job + Z.of_nat (S n))))
        as Hf' by lia.
      destruct (IH (S n) _ (Some e) Hn' Hu' Hf' (Nat.lt_0_succ n)) as [H1 H2].
      split; [exact H1|].
      replace (n + S fuel)%nat with (S n + fuel)%nat by lia. exact H2.
    + cbn [run ok fst snd]. destruct Ha as [g Ha]. unfold writes_exact.
      rewrite Ha, Hu. split; [|exact I].
      constructor; [|constructor]. split; [reflexivity|].
      unfold tickWrite. cbn [snd successUpdate u_status u_attempt].
      exists n, w. split; [exact Hn|]. split; [rewrite Erun; reflexivity|].
      split; [reflexivity|]. unfold maxAttempts in *. lia.
Qed.

Lemma run_update_updates id u w :
  updates (trace (snd (run env (call (UpdateOne id u)) w)))
  = updates (trace w)
    ++ match fault env (length (trace w)) with
       | Some _ => []
       | None => [(id, u)]
       end.
Proof.
  simpl. destruct (fault env (length (trace w))); simpl; rewrite updates_app;
    reflexivity.
Qed.

Lemma markUncaught_updates r w :
  updates (trace (snd (run env (markUncaught cfg (Some job, r)) w)))
  = updates (trace w)
    ++ match r with
       | inl err =>
           match fault env (length (trace w)) with
           | Some _ => []
           | None => [(_id job, uncaughtUpdate cfg err)]
           end
       | inr _ => []
       end.
Proof.
  destruct r as [err|[]]; cbn [markUncaught].
  - rewrite run_bind.
    pose proof (run_update_updates (_id job) (uncaughtUpdate cfg err) w) as H.
    destruct (run env (call (UpdateOne (_id job) (uncaughtUpdate cfg err))) w)
      as [r w']. exact H.
  - simpl. rewrite app_nil_r. reflexivity.
Qed.

Lemma processClaimed_writes :
  updates (trace w0) = [] ->
  writes_exact host cfg env job w0
    (trace (snd (run env (processClaimed host cfg job) w0))).
Proof.
  intros Hu. unfold processClaimed, bindE. rewrite run_bind.
  destruct (retryLoop_writes (Z.to_nat (maxAttempts cfg - attempt job)) 0 w0 None
              eq_refl Hu ltac:(rewrite Z.add_0_r; reflexivity) I) as [H1 H2].
  rewrite Z.add_0_r in H1, H2.
  destruct (run env (retryLoop host cfg (Z.to_nat (maxAttempts cfg - attempt job)) job
                       (attempt job) None) w0) as [[err|[e|]] w1];
    cbn [fst snd] in H1, H2; [exact H1| |exact H1].
  destruct H2 as (Hpos & Hall & Hnone).
  unfold writes_exact. rewrite run_update_updates, Hnone.
  destruct (fault env (length (trace w1))); [constructor|].
  constructor; [|constructor]. split; [reflexivity|].
  left. cbn [snd]. split; [reflexivity|]. split; [reflexivity|].
  unfold maxAttempts in *. split; [lia|]. exists w1. exact Hall.
Qed.

(** Every write of a tick after its claim is the success write of the
    attempt that returned, the exhaustion write, or the mark of the
    outer catch. *)
Lemma afterClaim_writes :
  updates (trace w0) = [] ->
  writes_exact host cfg env job w0
    (trace (snd (run env (Trace.afterClaim host cfg job) w0))).
Proof.
  intros Hu. unfold Trace.afterClaim. rewrite run_bind.
  pose proof (processClaimed_writes Hu) as Hp.
  destruct (run env (processClaimed host cfg job) w0) as [r w2]. cbn [snd] in Hp.
  rewrite run_bind.
  pose proof (markUncaught_updates r w2) as Hm.
  destruct (run env (markUncaught cfg (Some job, r)) w2) as [[] w3]. cbn [snd] in Hm.
  cbn [run call handle snd trace].
  unfold writes_exact in *. rewrite Hm. apply List.Forall_app. split; [exact Hp|].
  destruct r as [err|[]]; [|constructor].
  destruct (fault env (length (trace w2))); [constructor|].
  constructor; [|constructor]. split; [reflexivity|].
  right. split; reflexivity.
Qed.

End TickWrites.

Section FailingTick.
Context (host : Host) (cfg : Config) (env : Env).

Lemma processOne_all_fail st tr job st1 block (Pe : JsError -> Prop) :
  (forall n, fault env n = None) ->
  findOneAndUpdate (INSTANCE_ID cfg) (clock env (length tr)) st = (Some job, st1) ->
  attempt job < maxAttempts cfg ->
  (forall a w, exists e,
      Pe e /\ run env (attemptOnce host cfg job a) w
              = (inl (ThrowError e), appendTrace w block)) ->
  exists e t,
    Pe e
    /\ run env (processOne host cfg) (mkWorld st false tr)
       = (tt,
          mkWorld (updateOne (_id job) (exhaustedUpdate cfg e) t st1) false
            (tr ++ EClaim (INSTANCE_ID cfg) (Some (_id job))
                :: backoffEvents (Z.to_nat (maxAttempts cfg - attempt job))
                     (attempt job) block
                ++ [EUpdate (_id job) (exhaustedUpdate cfg e)])).
Proof.
  intros Hfault Hclaim Hlt Hfail.
  unfold processOne. rewrite run_getBusy_then. cbn [busy].
  rewrite run_setBusy_then. rewrite run_bind.
  unfold claimAndProcess. rewrite run_now_then. cbn [trace store].
  rewrite run_claim_then by apply Hfault. cbn [store busy trace].
  rewrite Hclaim. cbn [fst snd option_map].
  rewrite run_bind. unfold processClaimed, bindE. rewrite run_bind.
  destruct (retryLoop_all_fail host cfg env job block Pe Hfail
              (Z.to_nat (maxAttempts cfg - attempt job)) (attempt job) None
              (mkWorld st1 true (tr ++ [EClaim (INSTANCE_ID cfg) (Some (_id job))]))
              eq_refl I) as [last' [Hrun Hlast]].
  rewrite Hrun. destruct last' as [e|]; [|destruct Hlast as [H0 _]; lia].
  rewrite run_update by apply Hfault.
  eexists e, _. split; [exact Hlast|].
  cbn [run markUncaught bind call handle appendTrace store busy trace].
  f_equal. f_equal. rewrite <- !app_assoc. reflexivity.
Qed.

Lemma In_updateOne_failed id e t st j :
  In j (updateOne id (exhaustedUpdate cfg e) t st) -> _id j = id ->
  status j = FAILED /\ attempt j = maxAttempts cfg.
Proof.
  unfold updateOne. intros Hin Hid.
  apply replace_doc_In in Hin as [[_ Hne]|[x0 (_ & _ & ->)]]; [contradiction|].
  split; reflexivity.
Qed.

Lemma dispatch_precondition job :
  In (type job) articleTypes ->
  truthy (get (payload job) "title") = false
  \/ truthy (get (payload job) "content") = false ->
  dispatch host cfg job = throw (ThrowError (preconditionError host (type job))).
Proof.
  intros Hty Hmiss.
  assert (negb (truthy (get (payload job) "title"))
          || negb (truthy (get (payload job) "content")) = true) as Hc.
  { destruct Hmiss as [-> | ->]; simpl; [reflexivity|apply orb_true_r]. }
  unfold dispatch, withArticle, preconditionError.
  simpl in Hty. destruct Hty as [<-|[<-|[<-|[<-|[]]]]]; rewrite Hc; reflexivity.
Qed.

End FailingTick.

Lemma seedOf_truthy pl : truthy (Runner.seedOf pl) = true.
Proof.
  unfold Runner.seedOf, or_.
  destruct (truthy (and_ pl (if truthy (get pl "seed") then get pl "seed" else get pl "topic"))) eqn:E;
    [exact E|reflexivity].
Qed.

Lemma toStrings_inr host vs :
  forallb Provider.hasString vs = true -> Provider.toStrings host vs = inr tt.
Proof. intros H. unfold Provider.toStrings. rewrite H. reflexivity. Qed.

Lemma keywordsList_inr host n kws topic :
  forallb Provider.hasString (take n kws) = true ->
  Provider.hasString topic = true ->
  exists list,
    Provider.keywordsList host n kws topic = inr list
    /\ forallb Provider.hasString list = true.
Proof.
  intros Hk Ht. unfold Provider.keywordsList. destruct kws as [|k kws].
  - exists [topic]. split; [reflexivity|]. cbn [forallb]. rewrite Ht. reflexivity.
  - rewrite (toStrings_inr host _ Hk). exists []. split; reflexivity.
Qed.

Lemma is_string_hasString v : is_string v = true -> Provider.hasString v = true.
Proof. destruct v; try discriminate; reflexivity. Qed.

Lemma articleChecks_ok host name n title content keywords topic ks c :
  truthy title = true -> truthy topic = true ->
  keywords = JArr ks ->
  forallb Provider.hasString (take n (Provider.keywordStrings ks)) = true ->
  content = JStr c ->
  Provider.hasString title = true -> Provider.hasString topic = true ->
  Provider.articleChecks host name n title content keywords topic
  = ok (Provider.keywordStrings ks).
Proof.
  intros Ht Hs -> Hk -> Htitle Htopic.
  unfold Provider.articleChecks. rewrite Ht, Hs. cbn [negb orb].
  destruct (keywordsList_inr host n (Provider.keywordStrings ks) topic Hk Htopic)
    as [list [Hlist Hl]].
  cbn [Provider.mapKeywords Provider.lift bindE bind]. rewrite Hlist.
  cbn [bindE bind].
  assert (Provider.toStrings host ([title; topic] ++ list) = inr tt) as Hp.
  { apply toStrings_inr. cbn [forallb app]. rewrite Htitle, Htopic, Hl. reflexivity. }
  destruct (truthy (JStr c)); cbn [Provider.contentText Provider.lift bindE bind ok];
    rewrite Hp; reflexivity.
Qed.

(** A job that passes the collected checks reaches [generateText]. *)
Lemma passesChecks_dispatch host cfg job :
  Runner.passesChecks job = true ->
  exists normalise,
    Runner.dispatch host cfg job = Provider.generateAndParse host cfg normalise.
Proof.
  unfold Runner.passesChecks, Runner.dispatch, Runner.withArticle.
  pose proof (seedOf_truthy (payload job)) as Hseed.
  destruct (streq (type job) (lit "KEYWORDS")).
  { intros Hs. unfold Provider.generateKeywords. rewrite Hseed, Hs. simpl.
    eexists; reflexivity. }
  destruct (streq (type job) (lit "ARTICLE")).
  { intros H. apply andb_true_iff in H as [H Htone].
    apply andb_true_iff in H as [Hs Hk].
    unfold Provider.generateArticle. rewrite Hseed, Hs. cbn [negb orb].
    destruct (Runner.keywordsOf (payload job)) as [| | | | |ks|]; try discriminate Hk.
    cbn [Runner.joinsKeywords] in Hk.
    destruct (keywordsList_inr host 10 (Provider.keywordStrings ks)
                (Runner.seedOf (payload job)) Hk (is_string_hasString _ Hs))
      as [list [Hlist Hl]].
    cbn [Provider.mapKeywords Provider.lift bindE bind]. rewrite Hlist.
    cbn [bindE bind]. rewrite toStrings_inr.
    - cbn [bindE bind]. eexists; reflexivity.
    - rewrite !forallb_app. cbn [forallb].
      rewrite (is_string_hasString _ Hs), Hl, Htone. reflexivity. }
  assert (truthy (get (payload job) "title") && truthy (get (payload job) "content") = true ->
          negb (truthy (get (payload job) "title"))
          || negb (truthy (get (payload job) "content")) = false) as Hpre.
  { intros H. apply andb_true_iff in H as [-> ->]. reflexivity. }
  destruct (streq (type job) (lit "SEO")).
  { intros H.
    apply andb_true_iff in H as [H Htopic]. apply andb_true_iff in H as [H Htitle].
    apply andb_true_iff in H as [H Hc]. apply andb_true_iff in H as [H Hk].
    rewrite (Hpre H). apply andb_true_iff in H as [Ht Hn].
    unfold Provider.generateSEOReview. rewrite Hn, Hseed. cbn [negb orb].
    destruct (Runner.keywordsOf (payload job)) as [| | | | |ks|]; try discriminate Hk.
    cbn [Runner.joinsKeywords] in Hk.
    destruct (keywordsList_inr host 10 (Provider.keywordStrings ks)
                (Runner.seedOf (payload job)) Hk Htopic) as [list [Hlist Hl]].
    cbn [Provider.mapKeywords Provider.lift bindE bind]. rewrite Hlist.
    cbn [bindE bind].
    destruct (get (payload job) "content") as [| | | |c| |]; try discriminate Hc.
    cbn [Provider.contentText Provider.lift bindE bind].
    rewrite toStrings_inr.
    - cbn [bindE bind]. eexists; reflexivity.
    - cbn [forallb app]. rewrite Htitle, Htopic, Hl. reflexivity. }
  assert (forall n,
             truthy (get (payload job) "title") && truthy (get (payload job) "content")
             && Runner.joinsKeywords n (Runner.keywordsOf (payload job))
             && is_string (get (payload job) "content")
             && Provider.hasString (get (payload job) "title")
             && Provider.hasString (Runner.seedOf (payload job)) = true ->
             negb (truthy (get (payload job) "title"))
             || negb (truthy (get (payload job) "content")) = false
             /\ forall name, exists ks,
                  Provider.articleChecks host name n (get (payload job) "title")
                    (get (payload job) "content") (Runner.keywordsOf (payload job))
                    (Runner.seedOf (payload job))
                  = ok (Provider.keywordStrings ks)) as Harticle.
  { intros n H.
    apply andb_true_iff in H as [H Htopic]. apply andb_true_iff in H as [H Htitle].
    apply andb_true_iff in H as [H Hc]. apply andb_true_iff in H as [H Hk].
    split; [exact (Hpre H)|]. apply andb_true_iff in H as [Ht Hn]. intros name.
    destruct (Runner.keywordsOf (payload job)) as [| | | | |ks|] eqn:Ek;
      try discriminate Hk.
    destruct (get (payload job) "content") as [| | | |c| |] eqn:Ec; try discriminate Hc.
    exists ks. apply (articleChecks_ok host name n _ _ _ _ ks c); auto. }
  destruct (streq (type job) (lit "META")).
  { intros H. destruct (Harticle _ H) as [-> Hchk].
    destruct (Hchk "generateMeta"%string) as [ks Hks].
    unfold Provider.generateMeta. rewrite Hks. cbn [bindE bind ok].
    eexists; reflexivity. }
  destruct (streq (type job) (lit "IMAGE")).
  { intros H. destruct (Harticle _ H) as [-> Hchk].
    destruct (Hchk "generateImage"%string) as [ks Hks].
    unfold Provider.generateImage. rewrite Hks. cbn [bindE bind ok].
    eexists; reflexivity. }
  destruct (streq (type job) (lit "HASHTAGS")).
  { intros H. destruct (Harticle _ H) as [-> Hchk].
    destruct (Hchk "generateHashtags"%string) as [ks Hks].
    unfold Provider.generateHashtags. rewrite Hks. cbn [bindE bind ok].
    eexists; reflexivity. }
  discriminate.
Qed.

(** A claimed job that does not pass them fails before [generateText]:
    the typed operation throws an Error without awaiting anything. *)
Lemma failsChecks_dispatch host cfg job :
  existsb (streq (type job)) allowedTypes = true ->
  Runner.passesChecks job = false ->
  exists e, Runner.dispatch host cfg job = throw (ThrowError e).
Proof.
  unfold Runner.passesChecks, Runner.dispatch, Runner.withArticle.
  pose proof (seedOf_truthy (payload job)) as Hseed.
  intros Hty.
  destruct (streq (type job) (lit "KEYWORDS")) eqn:E1.
  { intros Hs. unfold Provider.generateKeywords. rewrite Hseed, Hs.
    eexists; reflexivity. }
  destruct (streq (type job) (lit "ARTICLE")) eqn:E2.
  { intros H. unfold Provider.generateArticle. rewrite Hseed. cbn [negb orb].
    destruct (is_string (Runner.seedOf (payload job))) eqn:Hs; cbn [negb];
      [|eexists; reflexivity].
    cbn [andb] in H.
    destruct (Runner.keywordsOf (payload job)) as [| | | | |ks|];
      try (eexists; reflexivity).
    cbn [Runner.joinsKeywords Provider.mapKeywords Provider.lift bindE bind] in *.
    unfold Provider.keywordsList.
    destruct (Provider.keywordStrings ks) as [|k kws] eqn:Ek.
    - cbn [bindE bind Provider.lift app take forallb andb] in *.
      unfold Provider.toStrings. cbn [forallb].
      rewrite (is_string_hasString _ Hs), H. eexists; reflexivity.
    - unfold Provider.toStrings at 1.
      destruct (forallb Provider.hasString (take 10 (k :: kws))) eqn:Ej;
        [|eexists; reflexivity].
      cbn [bindE bind Provider.lift app andb] in *.
      unfold Provider.toStrings. cbn [forallb].
      rewrite (is_string_hasString _ Hs), H. eexists; reflexivity. }
  assert (forall n title content keywords topic
                 (k : list JsVal -> ProgE Provider.GenResult) name,
             truthy title = true -> truthy content = true -> truthy topic = true ->
             Runner.joinsKeywords n keywords && is_string content
             && Provider.hasString title && Provider.hasString topic = false ->
             exists e,
               bindE (Provider.articleChecks host name n title content keywords topic) k
               = throw (ThrowError e)) as Hchecks.
  { intros n title content keywords topic k name Ht Hc Hs H.
    unfold Provider.articleChecks. rewrite Ht, Hs, Hc. cbn [negb orb].
    destruct keywords as [| | | | |ks|]; try (eexists; reflexivity).
    cbn [Runner.joinsKeywords Provider.mapKeywords Provider.lift bindE bind] in *.
    unfold Provider.keywordsList.
    destruct (Provider.keywordStrings ks) as [|k0 kws] eqn:Ek.
    - rewrite take_nil in H.
      cbn [bindE bind Provider.lift app forallb andb] in *.
      destruct content as [| | | |c| |]; try (eexists; reflexivity).
      cbn [Provider.contentText bindE bind Provider.lift is_string] in *.
      unfold Provider.toStrings. cbn [forallb].
      destruct (Provider.hasString title), (Provider.hasString topic);
        cbn [andb] in *; try discriminate H; eexists; reflexivity.
    - unfold Provider.toStrings at 1.
      destruct (forallb Provider.hasString (take n (k0 :: kws))) eqn:Ej;
        [|eexists; reflexivity].
      cbn [bindE bind Provider.lift app andb] in *.
      destruct content as [| | | |c| |]; try (eexists; reflexivity).
      cbn [Provider.contentText bindE bind Provider.lift is_string] in *.
      unfold Provider.toStrings. cbn [forallb].
      destruct (Provider.hasString title), (Provider.hasString topic);
        cbn [andb] in *; try discriminate H; eexists; reflexivity. }
  assert (forall n,
             truthy (get (payload job) "title") && truthy (get (payload job) "content")
             && Runner.joinsKeywords n (Runner.keywordsOf (payload job))
             && is_string (get (payload job) "content")
             && Provider.hasString (get (payload job) "title")
             && Provider.hasString (Runner.seedOf (payload job)) = false ->
             negb (truthy (get (payload job) "title"))
             || negb (truthy (get (payload job) "content")) = true
             \/ (truthy (get (payload job) "title") = true
                 /\ truthy (get (payload job) "content") = true
                 /\ Runner.joinsKeywords n (Runner.keywordsOf (payload job))
                    && is_string (get (payload job) "content")
                    && Provider.hasString (get (payload job) "title")
                    && Provider.hasString (Runner.seedOf (payload job)) = false))
    as Hsplit.
  { intros n H.
    destruct (truthy (get (payload job) "title")); [|left; reflexivity].
    destruct (truthy (get (payload job) "content")); [|left; reflexivity].
    right. auto. }
  destruct (streq (type job) (lit "SEO")) eqn:E3.
  { intros H. destruct (Hsplit _ H) as [-> | (Ht & Hc & H')]; [eexists; reflexivity|].
    rewrite Ht, Hc. cbn [negb orb].
    unfold Provider.generateSEOReview. rewrite Hc, Hseed. cbn [negb orb].
    destruct (Runner.keywordsOf (payload job)) as [| | | | |ks|];
      try (eexists; reflexivity).
    cbn [Runner.joinsKeywords Provider.mapKeywords Provider.lift bindE bind] in *.
    unfold Provider.keywordsList.
    destruct (Provider.keywordStrings ks) as [|k0 kws] eqn:Ek.
    - cbn [bindE bind Provider.lift app take forallb andb] in *.
      destruct (get (payload job) "content") as [| | | |c| |];
        try (eexists; reflexivity).
      cbn [Provider.contentText bindE bind Provider.lift is_string] in *.
      unfold Provider.toStrings. cbn [forallb].
      destruct (Provider.hasString (get (payload job) "title")),
               (Provider.hasString (Runner.seedOf (payload job)));
        cbn [andb] in *; try discriminate H'; eexists; reflexivity.
    - unfold Provider.toStrings at 1.
      destruct (forallb Provider.hasString (take 10 (k0 :: kws))) eqn:Ej;
        [|eexists; reflexivity].
      cbn [bindE bind Provider.lift app andb] in *.
      destruct (get (payload job) "content") as [| | | |c| |];
        try (eexists; reflexivity).
      cbn [Provider.contentText bindE bind Provider.lift is_string] in *.
      unfold Provider.toStrings. cbn [forallb].
      destruct (Provider.hasString (get (payload job) "title")),
               (Provider.hasString (Runner.seedOf (payload job)));
        cbn [andb] in *; try discriminate H'; eexists; reflexivity. }
  destruct (streq (type job) (lit "META")) eqn:E4.
  { intros H. destruct (Hsplit _ H) as [-> | (Ht & Hc & H')]; [eexists; reflexivity|].
    rewrite Ht, Hc. cbn [negb orb]. unfold Provider.generateMeta.
    apply Hchecks; assumption. }
  destruct (streq (type job) (lit "IMAGE")) eqn:E5.
  { intros H. destruct (Hsplit _ H) as [-> | (Ht & Hc & H')]; [eexists; reflexivity|].
    rewrite Ht, Hc. cbn [negb orb]. unfold Provider.generateImage.
    apply Hchecks; assumption. }
  destruct (streq (type job) (lit "HASHTAGS")) eqn:E6.
  { intros H. destruct (Hsplit _ H) as [-> | (Ht & Hc & H')]; [eexists; reflexivity|].
    rewrite Ht, Hc. cbn [negb orb]. unfold Provider.generateHashtags.
    apply Hchecks; assumption. }
  simpl in Hty. rewrite E1, E2, E3, E4, E5, E6 in Hty. discriminate Hty.
Qed.

(** ** Text helpers of the parser *)

Lemma dropWhile_split f s :
  exists pre,
    s = pre ++ dropWhile f s
    /\ List.Forall (fun c => f c = true) pre
    /\ match dropWhile f s with
       | [] => True
       | c :: _ => f c = false
       end.
Proof.
  induction s as [|c s IH]; simpl.
  - exists []. repeat split; constructor.
  - destruct (f c) eqn:E.
    + destruct IH as [pre (H1 & H2 & H3)]. exists (c :: pre).
      repeat split; [simpl; congruence|constructor; assumption|exact H3].
    + exists []. repeat split; [constructor|exact E].
Qed.

Lemma isPrefix_app p s : isPrefix p s = true -> exists rest, s = p ++ rest.
Proof.
  revert s; induction p as [|a p IH]; intros s H; simpl in *.
  - exists s; reflexivity.
  - destruct s as [|b s]; [discriminate|].
    apply andb_true_iff in H as [Hab Hp]. apply N.eqb_eq in Hab; subst b.
    destruct (IH s Hp) as [rest ->]. exists rest; reflexivity.
Qed.

Lemma Forall_rev_ws s : allWhiteSpace s -> allWhiteSpace (rev s).
Proof.
  unfold allWhiteSpace. rewrite !List.Forall_forall.
  intros H c Hc. apply H. apply in_rev. exact Hc.
Qed.

Lemma trim_spec text :
  exists l r, text = l ++ trim text ++ r /\ allWhiteSpace l /\ allWhiteSpace r.
Proof.
  unfold trim.
  destruct (dropWhile_split isWhiteSpace text) as [l (H1 & H2 & _)].
  destruct (dropWhile_split isWhiteSpace (rev (dropWhile isWhiteSpace text)))
    as [r (H3 & H4 & _)].
  exists l, (rev r). split; [|split; [exact H2|apply Forall_rev_ws; exact H4]].
  rewrite <- rev_app_distr, <- H3, rev_involutive. exact H1.
Qed.

Lemma stripOpeningFence_spec s :
  exists pre, s = pre ++ stripOpeningFence s /\ openingFence pre.
Proof.
  unfold stripOpeningFence.
  destruct (isPrefix (lit "```json") (map fold_case (take 7 s))) eqn:E.
  - destruct (dropWhile_split isWhiteSpace (drop 7 s)) as [ws (H1 & H2 & _)].
    exists (take 7 s ++ ws). split.
    + rewrite <- app_assoc, <- H1. symmetry. apply take_drop.
    + right. exists (take 7 s), ws. repeat split; [|exact H2].
      apply isPrefix_app in E as [rest E].
      assert (length rest = 0%nat) as Hl.
      { assert (length (map fold_case (take 7 s)) <= 7)%nat as Hle
          by (rewrite length_map, length_take; lia).
        rewrite E, length_app in Hle. simpl in Hle. lia. }
      destruct rest; [|discriminate Hl]. rewrite app_nil_r in E. exact E.
  - exists []. split; [reflexivity|left; reflexivity].
Qed.

Lemma stripClosingFence_spec s :
  exists post, s = stripClosingFence s ++ post /\ closingFence post.
Proof.
  unfold stripClosingFence.
  destruct (isPrefix (lit "```") (rev s)) eqn:E.
  - apply isPrefix_app in E as [rest E].
    destruct (dropWhile_split isWhiteSpace rest) as [ws (H1 & H2 & _)].
    exists (rev ws ++ lit "```"). split.
    + rewrite E. change (drop 3 (lit "```" ++ rest)) with rest.
      rewrite <- (rev_involutive s), E, rev_app_distr.
      rewrite H1 at 1. rewrite rev_app_distr, <- app_assoc. reflexivity.
    + right. exists (rev ws). split; [reflexivity|apply Forall_rev_ws; exact H2].
  - exists []. split; [rewrite app_nil_r; reflexivity|left; reflexivity].
Qed.

(** The cleaned text is the text without the white space around it and
    without a leading and a trailing fence. *)
Lemma cleanText_spec text :
  exists l pre post r,
    text = l ++ pre ++ Provider.cleanText text ++ post ++ r
    /\ allWhiteSpace l /\ allWhiteSpace r
    /\ openingFence pre /\ closingFence post.
Proof.
  unfold Provider.cleanText.
  destruct (trim_spec text) as [l [r (Ht & Hl & Hr)]].
  destruct (stripOpeningFence_spec (trim text)) as [pre (Hp & Hpre)].
  destruct (stripClosingFence_spec (stripOpeningFence (trim text))) as [post (Hq & Hpost)].
  exists l, pre, post, r. repeat split; try assumption.
  rewrite Ht at 1. rewrite Hp at 1. rewrite Hq at 1.
  rewrite <- !app_assoc. reflexivity.
Qed.

Lemma dropWhile_start f s :
  match dropWhile f s with
  | [] => True
  | c :: _ => f c = false
  end.
Proof.
  induction s as [|c s IH]; simpl; [exact I|].
  destruct (f c) eqn:E; [exact IH|exact E].
Qed.

Lemma trim_noSpaceAtEnd text : noSpaceAtEnd (trim text).
Proof.
  unfold noSpaceAtEnd, trim. rewrite rev_involutive.
  apply (dropWhile_start isWhiteSpace).
Qed.

Lemma dropWhile_last f s c :
  f c = false -> dropWhile f (s ++ [c]) = dropWhile f s ++ [c].
Proof.
  intros Hc. induction s as [|x s IH]; simpl; [rewrite Hc; reflexivity|].
  destruct (f x); [exact IH|reflexivity].
Qed.

Lemma trim_noSpaceAtStart text : noSpaceAtStart (trim text).
Proof.
  unfold trim.
  pose proof (dropWhile_start isWhiteSpace text) as Hs.
  set (t := dropWhile isWhiteSpace text) in *.
  destruct t as [|c t]; [exact I|].
  (* the first character survives the removal at the end *)
  assert (forall u, exists v, dropWhile isWhiteSpace (u ++ [c]) = v ++ [c]) as H.
  { intros u. rewrite (dropWhile_last _ _ _ Hs). eexists; reflexivity. }
  simpl rev. destruct (H (rev t)) as [v Hv]. rewrite Hv, rev_unit. exact Hs.
Qed.

Lemma isPrefix_refl p : isPrefix p p = true.
Proof. induction p as [|a p IH]; simpl; [reflexivity|]. rewrite N.eqb_refl. exact IH. Qed.

Lemma isPrefix_prefix p rest : isPrefix p (p ++ rest) = true.
Proof. induction p as [|a p IH]; simpl; [reflexivity|]. rewrite N.eqb_refl. exact IH. Qed.

Lemma marker_length f : map fold_case f = lit "```json" -> length f = 7%nat.
Proof. intros H. apply (f_equal (@length _)) in H. rewrite length_map in H. exact H. Qed.

Lemma stripOpeningFence_exact s :
  exists pre,
    s = pre ++ stripOpeningFence s
    /\ ((pre = [] /\ ~ beginsWithMarker (stripOpeningFence s))
        \/ (exists f ws,
               pre = f ++ ws /\ map fold_case f = lit "```json"
               /\ allWhiteSpace ws /\ noSpaceAtStart (stripOpeningFence s))).
Proof.
  unfold stripOpeningFence.
  destruct (isPrefix (lit "```json") (map fold_case (take 7 s))) eqn:E.
  - destruct (dropWhile_split isWhiteSpace (drop 7 s)) as [ws (H1 & H2 & _)].
    exists (take 7 s ++ ws). split.
    + rewrite <- app_assoc, <- H1. symmetry. apply take_drop.
    + right. exists (take 7 s), ws. split; [reflexivity|]. split; [|split].
      * apply isPrefix_app in E as [rest E].
        assert (length rest = 0%nat) as Hl.
        { assert (length (map fold_case (take 7 s)) <= 7)%nat as Hle
            by (rewrite length_map, length_take; lia).
          rewrite E, length_app in Hle. simpl in Hle. lia. }
        destruct rest; [|discriminate Hl]. rewrite app_nil_r in E. exact E.
      * exact H2.
      * apply (dropWhile_start isWhiteSpace).
  - exists []. split; [reflexivity|]. left. split; [reflexivity|].
    intros [f [rest [Hs Hf]]].
    assert (take 7 s = f) as Ht.
    { rewrite Hs. apply take_app_length'. symmetry. apply marker_length. exact Hf. }
    rewrite Ht, Hf, isPrefix_refl in E. discriminate E.
Qed.

Lemma stripClosingFence_exact s :
  exists post,
    s = stripClosingFence s ++ post
    /\ ((post = [] /\ ~ endsWithMarker (stripClosingFence s))
        \/ (exists ws,
               post = ws ++ lit "```" /\ allWhiteSpace ws
               /\ noSpaceAtEnd (stripClosingFence s))).
Proof.
  unfold stripClosingFence.
  destruct (isPrefix (lit "```") (rev s)) eqn:E.
  - pose proof E as E'. apply isPrefix_app in E' as [rest E'].
    destruct (dropWhile_split isWhiteSpace rest) as [ws (H1 & H2 & _)].
    exists (rev ws ++ lit "```"). split.
    + rewrite E'. change (drop 3 (lit "```" ++ rest)) with rest.
      rewrite <- (rev_involutive s), E', rev_app_distr.
      rewrite H1 at 1. rewrite rev_app_distr, <- app_assoc. reflexivity.
    + right. exists (rev ws). split; [reflexivity|].
      split; [apply Forall_rev_ws; exact H2|].
      unfold noSpaceAtEnd. rewrite rev_involutive.
      apply (dropWhile_start isWhiteSpace).
  - exists []. split; [rewrite app_nil_r; reflexivity|]. left. split; [reflexivity|].
    intros [v Hv]. rewrite Hv, rev_app_distr in E.
    change (rev (lit "```")) with (lit "```") in E.
    rewrite isPrefix_prefix in E. discriminate E.
Qed.

Lemma cleanText_cleaned text :
  exists l pre post r, cleaned text l pre (Provider.cleanText text) post r.
Proof.
  unfold Provider.cleanText.
  destruct (trim_spec text) as [l [r (Ht & Hl & Hr)]].
  destruct (stripOpeningFence_exact (trim text)) as [pre (Hp & Hpre)].
  destruct (stripClosingFence_exact (stripOpeningFence (trim text)))
    as [post (Hq & Hpost)].
  exists l, pre, post, r. unfold cleaned.
  assert (pre ++ stripClosingFence (stripOpeningFence (trim text)) ++ post = trim text)
    as Hmid by (rewrite <- Hq; symmetry; exact Hp).
  split; [|split; [exact Hl|split; [exact Hr|]]].
  - transitivity
      (l ++ (pre ++ stripClosingFence (stripOpeningFence (trim text)) ++ post) ++ r).
    + rewrite Hmid. exact Ht.
    + rewrite <- !app_assoc. reflexivity.
  - rewrite Hmid, <- Hq.
    split; [apply trim_noSpaceAtStart|]. split; [apply trim_noSpaceAtEnd|].
    split; assumption.
Qed.

Lemma allWhiteSpace_cons c s : allWhiteSpace (c :: s) -> isWhiteSpace c = true /\ allWhiteSpace s.
Proof. intros H. split; [exact (List.Forall_inv H)|exact (List.Forall_inv_tail H)]. Qed.

(** White space before a text that does not begin with white space is
    determined by the whole. *)
Lemma whiteSpace_prefix_unique a : forall b x y,
  allWhiteSpace a -> allWhiteSpace b ->
  noSpaceAtStart x -> noSpaceAtStart y ->
  a ++ x = b ++ y -> x = y.
Proof.
  induction a as [|c a IH]; intros b x y Ha Hb Hx Hy H.
  - destruct b as [|d b]; [exact H|].
    apply allWhiteSpace_cons in Hb as [Hd _].
    simpl in H. subst x. simpl in Hx. congruence.
  - apply allWhiteSpace_cons in Ha as [Hc Ha].
    destruct b as [|d b].
    + simpl in H. subst y. simpl in Hy. congruence.
    + apply allWhiteSpace_cons in Hb as [_ Hb].
      simpl in H. injection H as _ H. exact (IH b x y Ha Hb Hx Hy H).
Qed.

Lemma whiteSpace_suffix_unique a b x y :
  allWhiteSpace a -> allWhiteSpace b ->
  noSpaceAtEnd x -> noSpaceAtEnd y ->
  x ++ a = y ++ b -> x = y.
Proof.
  intros Ha Hb Hx Hy H.
  apply (f_equal (@rev _)) in H. rewrite !rev_app_distr in H.
  apply whiteSpace_prefix_unique in H;
    [|apply Forall_rev_ws; assumption|apply Forall_rev_ws; assumption|assumption..].
  apply (f_equal (@rev _)) in H. rewrite !rev_involutive in H. exact H.
Qed.

Lemma noSpaceAtStart_app x y : x <> [] -> noSpaceAtStart x -> noSpaceAtStart (x ++ y).
Proof. destruct x; [congruence|]. intros _ H. exact H. Qed.

Lemma allWhiteSpace_app a b : allWhiteSpace a -> allWhiteSpace b -> allWhiteSpace (a ++ b).
Proof. intros Ha Hb. apply List.Forall_app. split; assumption. Qed.

(** The text between the white space at the two ends. *)
Lemma trimmed_unique l t r l' t' r' :
  allWhiteSpace l -> allWhiteSpace r -> allWhiteSpace l' -> allWhiteSpace r' ->
  noSpaceAtStart t -> noSpaceAtEnd t -> noSpaceAtStart t' -> noSpaceAtEnd t' ->
  l ++ t ++ r = l' ++ t' ++ r' -> t = t'.
Proof.
  intros Hl Hr Hl' Hr' Hs He Hs' He' H.
  assert (forall a b u v : jsstring, forall c s,
             allWhiteSpace a -> allWhiteSpace b -> allWhiteSpace u ->
             noSpaceAtStart (c :: s) -> a ++ b = u ++ (c :: s) ++ v -> False) as Hempty.
  { intros a b u v c s Ha Hb Hu Hc Heq.
    assert (a ++ b ++ [] = u ++ (c :: s) ++ v) as Heq' by (rewrite app_nil_r; exact Heq).
    rewrite app_assoc in Heq'.
    apply (whiteSpace_prefix_unique (a ++ b) u [] ((c :: s) ++ v)) in Heq';
      [discriminate Heq'|apply allWhiteSpace_app; assumption|assumption|exact I|exact Hc]. }
  destruct t as [|c t]; destruct t' as [|c' t']; [reflexivity| | |].
  - exfalso. simpl in H. exact (Hempty l r l' r' c' t' Hl Hr Hl' Hs' H).
  - exfalso. simpl in H. symmetry in H. exact (Hempty l' r' l r c t Hl' Hr' Hl Hs H).
  - apply (whiteSpace_prefix_unique l l' ((c :: t) ++ r) ((c' :: t') ++ r')) in H;
      [|assumption|assumption|exact Hs|exact Hs'].
    exact (whiteSpace_suffix_unique r r' _ _ Hr Hr' He He' H).
Qed.

Lemma opening_unique pre u pre' u' :
  (pre = [] /\ ~ beginsWithMarker u)
  \/ (exists f ws, pre = f ++ ws /\ map fold_case f = lit "```json"
                   /\ allWhiteSpace ws /\ noSpaceAtStart u) ->
  (pre' = [] /\ ~ beginsWithMarker u')
  \/ (exists f ws, pre' = f ++ ws /\ map fold_case f = lit "```json"
                   /\ allWhiteSpace ws /\ noSpaceAtStart u') ->
  pre ++ u = pre' ++ u' -> u = u'.
Proof.
  intros [[-> Hn]|[f [ws (-> & Hf & Hws & Hu)]]]
         [[-> Hn']|[f' [ws' (-> & Hf' & Hws' & Hu')]]] H.
  - exact H.
  - exfalso. apply Hn. exists f', (ws' ++ u'). split; [|exact Hf'].
    simpl in H. rewrite H, <- app_assoc. reflexivity.
  - exfalso. apply Hn'. exists f, (ws ++ u). split; [|exact Hf].
    simpl in H. rewrite <- H, <- app_assoc. reflexivity.
  - rewrite <- !app_assoc in H.
    apply app_inj_1 in H as [_ H];
      [|rewrite (marker_length f Hf), (marker_length f' Hf'); reflexivity].
    exact (whiteSpace_prefix_unique ws ws' u u' Hws Hws' Hu Hu' H).
Qed.

Lemma closing_unique c post c' post' :
  (post = [] /\ ~ endsWithMarker c)
  \/ (exists ws, post = ws ++ lit "```" /\ allWhiteSpace ws /\ noSpaceAtEnd c) ->
  (post' = [] /\ ~ endsWithMarker c')
  \/ (exists ws, post' = ws ++ lit "```" /\ allWhiteSpace ws /\ noSpaceAtEnd c') ->
  c ++ post = c' ++ post' -> c = c'.
Proof.
  intros [[-> Hn]|[ws (-> & Hws & Hc)]] [[-> Hn']|[ws' (-> & Hws' & Hc')]] H.
  - rewrite !app_nil_r in H. exact H.
  - exfalso. apply Hn. exists (c' ++ ws'). rewrite app_nil_r in H.
    rewrite H, <- app_assoc. reflexivity.
  - exfalso. apply Hn'. exists (c ++ ws). rewrite app_nil_r in H.
    rewrite <- H, <- app_assoc. reflexivity.
  - rewrite !app_assoc in H. apply app_inv_tail in H.
    exact (whiteSpace_suffix_unique ws ws' c c' Hws Hws' Hc Hc' H).
Qed.

(** The cleaned text is determined by the text. *)
Lemma cleaned_unique text l pre c post r l' pre' c' post' r' :
  cleaned text l pre c post r -> cleaned text l' pre' c' post' r' -> c = c'.
Proof.
  intros (Ht & Hl & Hr & Hs & He & Ho & Hc) (Ht' & Hl' & Hr' & Hs' & He' & Ho' & Hc').
  assert (pre ++ c ++ post = pre' ++ c' ++ post') as Hmid.
  { apply (trimmed_unique l _ r l' _ r'); try assumption.
    rewrite <- !app_assoc. rewrite <- Ht. exact Ht'. }
  apply (opening_unique pre (c ++ post) pre' (c' ++ post') Ho Ho') in Hmid.
  exact (closing_unique c post c' post' Hc Hc' Hmid).
Qed.

(** The match of /\{[\s\S]*\}/ runs from the first opening brace to the
    last closing brace; there is none when no closing brace follows the
    first opening brace. *)
Lemma jsonMatch_spec text :
  match jsonMatch text with
  | Some m =>
      exists pre body post,
        text = pre ++ m ++ post
        /\ m = openBrace :: body ++ [closeBrace]
        /\ ~ In openBrace pre /\ ~ In closeBrace post
  | None =>
      ~ In openBrace text
      \/ exists pre rest,
           text = pre ++ openBrace :: rest
           /\ ~ In openBrace pre /\ ~ In closeBrace rest
  end.
Proof.
  assert (Hnot : forall (x : N) l,
             List.Forall (fun c => negb (N.eqb c x) = true) l -> ~ In x l).
  { intros x l H Hin. rewrite List.Forall_forall in H. specialize (H x Hin).
    rewrite N.eqb_refl in H. discriminate. }
  unfold jsonMatch.
  destruct (dropWhile_split (fun c => negb (N.eqb c openBrace)) text)
    as [pre (H1 & H2 & H3)].
  destruct (dropWhile (fun c => negb (N.eqb c openBrace)) text) as [|c from] eqn:E.
  - left. rewrite app_nil_r in H1. subst pre. apply Hnot; exact H2.
  - apply negb_false_iff, N.eqb_eq in H3. subst c.
    destruct (dropWhile_split (fun c => negb (N.eqb c closeBrace)) (rev (openBrace :: from)))
      as [postr (H4 & H5 & H6)].
    destruct (dropWhile (fun c => negb (N.eqb c closeBrace)) (rev (openBrace :: from)))
      as [|d r] eqn:E2.
    + right. exists pre, from. split; [exact H1|]. split; [apply Hnot; exact H2|].
      rewrite app_nil_r in H4. intros Hin. apply (Hnot closeBrace postr H5).
      rewrite <- H4. apply in_rev. rewrite rev_involutive. right; exact Hin.
    + apply negb_false_iff, N.eqb_eq in H6. subst d.
      assert (openBrace :: from = rev r ++ [closeBrace] ++ rev postr) as Hfrom.
      { rewrite <- (rev_involutive (openBrace :: from)), H4, rev_app_distr.
        simpl. rewrite <- app_assoc. reflexivity. }
      destruct (rev r) as [|x body] eqn:Er.
      * simpl in Hfrom. injection Hfrom as Hx _. discriminate Hx.
      * simpl in Hfrom. injection Hfrom as Hx Hrest. subst x.
        exists pre, body, (rev postr). simpl. rewrite Er.
        split; [|split; [reflexivity|split]].
        -- rewrite H1. simpl. rewrite Hrest, <- app_assoc. reflexivity.
        -- apply Hnot; exact H2.
        -- intros Hin. apply in_rev in Hin. exact (Hnot closeBrace postr H5 Hin).
Qed.

(** ** Field normalisation of the SEO review *)

Lemma clamp_range n :
  let s := num_max (of_Z 0) (num_min (of_Z 100) n) in
  num_le (of_Z 0) s /\ num_le s (of_Z 100) /\ num_eq s (clamp n).
Proof.
  unfold clamp, num_eq, of_Z.
  destruct n as [q| |]; simpl.
  - destruct (Q.max_spec (inject_Z 0) (Qmin (inject_Z 100) q)) as [[H1 H2]|[H1 H2]];
      destruct (Q.min_spec (inject_Z 100) q) as [[H3 H4]|[H3 H4]];
      destruct (Qle_bool q (inject_Z 0)) eqn:E0;
      destruct (Qle_bool (inject_Z 100) q) eqn:E1;
      try (apply Qle_bool_iff in E0); try (apply Qle_bool_iff in E1);
      try (apply not_true_iff_false in E0; rewrite Qle_bool_iff in E0);
      try (apply not_true_iff_false in E1; rewrite Qle_bool_iff in E1);
      simpl; unfold inject_Z in *; repeat split; lra.
  - repeat split; vm_compute; discriminate.
  - repeat split; vm_compute; discriminate.
Qed.

Section SeoFacts.
Context (host : Host).
Import Provider.





Lemma arrayOrEmpty_array v : isArray (arrayOrEmpty v) = true.
Proof. unfold arrayOrEmpty. destruct (isArray v) eqn:E; [exact E|reflexivity]. Qed.

End SeoFacts.

(** ** Enough fuel *)

Section Fuel.
Context (host : Host) (cfg : Config) (env : Env).

(** The loops are given as much fuel as they have iterations left; more
    fuel changes no run. *)
Lemma withRetry_from_fuel A (fn : ProgE A) n base fuel i last w :
  (Z.to_nat (n - i) <= fuel)%nat ->
  run env (Provider.withRetry_from host fuel i n base fn last) w
  = run env (Provider.withRetry_from host (Z.to_nat (n - i)) i n base fn last) w.
Proof.
  revert i last w; induction fuel as [|fuel IH]; intros i last w Hf.
  - replace (Z.to_nat (n - i)) with 0%nat by lia. reflexivity.
  - destruct (Z.to_nat (n - i)) as [|m] eqn:Em.
    + rewrite withRetry_from_S.
      assert ((i <? n) = false) as -> by (apply Z.ltb_ge; lia). reflexivity.
    + rewrite !withRetry_from_S.
      assert ((i <? n) = true) as -> by (apply Z.ltb_lt; lia).
      rewrite !run_bind. destruct (run env fn w) as [[err|a] w']; [|reflexivity].
      destruct ((i =? n - 1) || negb (Provider.isRetriableError host err)); [reflexivity|].
      rewrite !run_sleep_then.
      assert (m = Z.to_nat (n - (i + 1))) as -> by lia.
      apply IH. lia.
Qed.

Lemma retryLoop_fuel job fuel a last w :
  (Z.to_nat (Runner.maxAttempts cfg - a) <= fuel)%nat ->
  run env (Runner.retryLoop host cfg fuel job a last) w
  = run env (Runner.retryLoop host cfg (Z.to_nat (Runner.maxAttempts cfg - a)) job a last) w.
Proof.
  revert a last w; induction fuel as [|fuel IH]; intros a last w Hf.
  - replace (Z.to_nat (Runner.maxAttempts cfg - a)) with 0%nat by lia. reflexivity.
  - destruct (Z.to_nat (Runner.maxAttempts cfg - a)) as [|m] eqn:Em.
    + rewrite retryLoop_S.
      assert ((a <? Runner.maxAttempts cfg) = false) as -> by (apply Z.ltb_ge; lia).
      reflexivity.
    + rewrite !retryLoop_S.
      assert ((a <? Runner.maxAttempts cfg) = true) as -> by (apply Z.ltb_lt; lia).
      rewrite !run_bind.
      destruct (run env (Runner.attemptOnce host cfg job a) w) as [[[|e]|[]] w'];
        try reflexivity.
      rewrite !run_sleep_then.
      assert (m = Z.to_nat (Runner.maxAttempts cfg - (a + 1))) as -> by lia.
      apply IH. lia.
Qed.

End Fuel.

(** ** Examples *)

Example cleanText_fenced :
  Provider.cleanText (lit "  ```JSON {} ```  ") = lit "{}".
Proof. reflexivity. Qed.

Example parse_fenced :
  Provider.parseJSONResponse Samples.host (lit "```json {} ```") = inr (JObj []).
Proof. reflexivity. Qed.

Example parse_after_prose :
  Provider.parseJSONResponse Samples.host (lit "Here is the result: {}")
  = inr (JObj []).
Proof. reflexivity. Qed.

Example parse_garbage :
  exists e,
    Provider.parseJSONResponse Samples.host (lit "no json here") = inl e
    /\ e_rawText e = JStr (lit "no json here").
Proof. eexists. split; reflexivity. Qed.

Example seoScore_above :
  Provider.seoScore (JObj [(lit "score", JNum (of_Z 150))])
  = num_max (of_Z 0) (num_min (of_Z 100) (of_Z 150)).
Proof. reflexivity. Qed.

Example seoScore_missing : Provider.seoScore (JObj []) = of_Z 75.
Proof. reflexivity. Qed.

(** Three instances claim one PENDING job: the first obtains it, the
    others observe no match. *)
Example three_claims_one_job :
  fst (claimsBy Samples.threeCallers [Samples.keywordsJob])
  = [ (lit "worker-1", Some (set_claimed (lit "worker-1") 100 Samples.keywordsJob));
      (lit "worker-2", None);
      (lit "worker-3", None) ].
Proof. reflexivity. Qed.

(** Claims by one instance return jobs in creation order, whatever their
    order in the store. *)
Example claims_in_creation_order :
  map _id (claimMany (lit "worker-1") [100; 101; 102]
             [Samples.seoJob; Samples.keywordsJob])
  = [1%N; 2%N].
Proof. reflexivity. Qed.

(** A tick whose SDK call succeeds at once: the job is SUCCEEDED with
    attempt 1 and its tokens are added. *)
Example tick_succeeds :
  map (fun j => (status j, attempt j, tokensUsed j, result j))
    (store (snd (run {| sdk := fun _ => inr (mkSdkResult (lit "{}") 42);
                        fault := fun _ => None;
                        clock := fun n => Z.of_nat n |}
                   (Runner.processOne Samples.host Samples.cfg)
                   (Samples.idle [Samples.keywordsJob]))))
  = [(SUCCEEDED, 1, 42, JObj [])].
Proof. vm_compute. reflexivity. Qed.

(** The store rejects the claim: nothing is claimed and the flag is
    clear again. *)
Example tick_store_unavailable :
  run {| sdk := fun _ => inl ThrowUndefined;
         fault := fun _ => Some (ThrowError Samples.err429);
         clock := fun n => Z.of_nat n |}
    (Runner.processOne Samples.host Samples.cfg)
    (Samples.idle [Samples.keywordsJob])
  = (tt, mkWorld [Samples.keywordsJob] false [EClaimRejected (lit "worker-1")]).
Proof. vm_compute. reflexivity. Qed.

(* ===================================================================== *)
(** * The properties of the specification, C1 to C10 *)
(* ===================================================================== *)

(** C1 (at-most-one claimant).  Claims by any number of callers, in the
    order in which the store serialises them, on a store whose
    identifiers are unique: no job is returned to two callers; every
    caller that obtained a job holds it afterwards (the stored document
    is RUNNING and claimedBy that caller); and no more callers succeed
    than there were PENDING jobs, so of N claims aimed at one PENDING
    job at most one succeeds and the others observe no match. *)
Theorem at_most_one_claimant (callers : list (jsstring * Z)) (st : Store) :
  List.NoDup (map _id st) ->
  List.NoDup (map (fun w => _id (snd w)) (winners (fst (claimsBy callers st))))
  /\ List.Forall (holds_job (snd (claimsBy callers st)))
       (winners (fst (claimsBy callers st)))
  /\ (length (winners (fst (claimsBy callers st)))
      <= length (List.filter isPending st))%nat.
Proof.
  revert st; induction callers as [|[inst now] callers IH]; intros st Hnd.
  - simpl. repeat split; [constructor|constructor|lia].
  - cbn [claimsBy].
    pose proof (claim_spec inst now st) as Hs.
    pose proof (claim_ids inst now st) as Hi.
    pose proof (claim_uses_pending inst now st) as Hp.
    pose proof (claimsBy_winner_origin callers) as Ho.
    pose proof (claimsBy_keeps_settled callers) as Hk.
    destruct (findOneAndUpdate inst now st) as [r st']. simpl in Hi, Hp.
    assert (List.NoDup (map _id st')) as Hnd' by (rewrite Hi; exact Hnd).
    specialize (IH st' Hnd'). specialize (Ho st'). specialize (Hk st').
    destruct (claimsBy callers st') as [rs st'']. simpl in *.
    destruct IH as (IH1 & IH2 & IH3).
    destruct r as [j|]; unfold winners; simpl; fold (winners rs).
    + destruct Hs as [j0 (Hin0 & Hc & -> & _ & ->)].
      split; [|split].
      * constructor; [|exact IH1].
        intros Hin. apply in_map_iff in Hin as [w [Hw Hin]].
        apply Ho in Hin as [x (Hx & Hpx & Hid)].
        apply replace_doc_In in Hx as [[_ Hne]|[x0 (_ & _ & ->)]].
        -- apply Hne. rewrite <- Hid, Hw. reflexivity.
        -- discriminate Hpx.
      * constructor; [|exact IH2].
        unfold holds_job. simpl. repeat split.
        apply (Hk (set_claimed inst now j0)); [exact Hnd'| |reflexivity].
        unfold replace_doc. apply in_map_iff. exists j0.
        rewrite N.eqb_refl. auto.
      * lia.
    + destruct Hs as [-> _]. repeat split; auto.
Qed.

(** Three instances claim the one PENDING job of a store. *)
Lemma at_most_one_claimant_witness :
  List.NoDup
    (map (fun w => _id (snd w))
       (winners (fst (claimsBy Samples.threeCallers [Samples.keywordsJob]))))
  /\ List.Forall
       (holds_job (snd (claimsBy Samples.threeCallers [Samples.keywordsJob])))
       (winners (fst (claimsBy Samples.threeCallers [Samples.keywordsJob])))
  /\ (length (winners (fst (claimsBy Samples.threeCallers [Samples.keywordsJob])))
      <= length (List.filter isPending [Samples.keywordsJob]))%nat.
Proof.
  apply (at_most_one_claimant Samples.threeCallers [Samples.keywordsJob]).
  simpl. constructor; [intros []|constructor].
Defined.

(** C5 (claim ordering).  A claim returns the claimed copy of a document
    that passes the filter (PENDING, an allowed type, claimedBy absent or
    the caller) and is no younger than any document that passes it, and
    observes no match only when no document passes.  Successive claims of
    an instance on a store with unique identifiers return documents in
    creation order: each is the claimed copy of a document that passed
    the filter at the start, none is returned twice, as many are
    returned as there are claims, or documents that pass when there are
    fewer of those, and every document that passes and is not returned is
    no older than any that is. *)
Theorem claim_order (inst : jsstring) (now : Z) (nows : list Z) (st : Store) :
  List.NoDup (map _id st) ->
  match findOneAndUpdate inst now st with
  | (Some j, st') =>
      exists j0,
        In j0 st /\ claimable inst j0 = true
        /\ j = set_claimed inst now j0
        /\ List.Forall (fun x => createdAt j0 <= createdAt x)
             (List.filter (claimable inst) st)
        /\ st' = replace_doc (_id j0) (set_claimed inst now) st
  | (None, st') => st' = st /\ List.filter (claimable inst) st = []
  end
  /\ StronglySorted Z.le (map createdAt (claimMany inst nows st))
  /\ List.NoDup (map _id (claimMany inst nows st))
  /\ length (claimMany inst nows st)
     = Nat.min (length nows) (length (List.filter (claimable inst) st))
  /\ List.Forall
       (fun j => exists j0 t,
            In j0 st /\ claimable inst j0 = true /\ In t nows
            /\ j = set_claimed inst t j0)
       (claimMany inst nows st)
  /\ (forall x,
        In x st -> claimable inst x = true ->
        ~ In (_id x) (map _id (claimMany inst nows st)) ->
        List.Forall (fun j => createdAt j <= createdAt x) (claimMany inst nows st)).
Proof.
  intros Hnd.
  split; [apply claim_spec|].
  split; [apply claimMany_sorted|].
  split; [apply claimMany_distinct|].
  split; [apply claimMany_count; exact Hnd|].
  split.
  - apply List.Forall_forall. intros j Hj. exact (claimMany_claimed inst nows st j Hj).
  - intros x Hx Hc Hn. exact (claimMany_oldest inst nows st x Hx Hc Hn).
Qed.

(** Four claims on a store with three PENDING jobs created at 300, 100
    and 200: the jobs are returned in the order 100, 200, 300. *)
Lemma claim_order_witness :
  map (fun j => (_id j, createdAt j))
    (claimMany (lit "worker-1") Samples.fourClaims Samples.backlog)
  = [(12%N, 100); (13%N, 200); (11%N, 300)]
  /\ (match findOneAndUpdate (lit "worker-1") 1000 Samples.backlog with
      | (Some j, st') =>
          exists j0,
            In j0 Samples.backlog /\ claimable (lit "worker-1") j0 = true
            /\ j = set_claimed (lit "worker-1") 1000 j0
            /\ List.Forall (fun x => createdAt j0 <= createdAt x)
                 (List.filter (claimable (lit "worker-1")) Samples.backlog)
            /\ st' = replace_doc (_id j0) (set_claimed (lit "worker-1") 1000)
                       Samples.backlog
      | (None, st') =>
          st' = Samples.backlog
          /\ List.filter (claimable (lit "worker-1")) Samples.backlog = []
      end
      /\ StronglySorted Z.le
           (map createdAt (claimMany (lit "worker-1") Samples.fourClaims Samples.backlog))
      /\ List.NoDup
           (map _id (claimMany (lit "worker-1") Samples.fourClaims Samples.backlog))
      /\ length (claimMany (lit "worker-1") Samples.fourClaims Samples.backlog)
         = Nat.min (length Samples.fourClaims)
             (length (List.filter (claimable (lit "worker-1")) Samples.backlog))
      /\ List.Forall
           (fun j => exists j0 t,
                In j0 Samples.backlog /\ claimable (lit "worker-1") j0 = true
                /\ In t Samples.fourClaims
                /\ j = set_claimed (lit "worker-1") t j0)
           (claimMany (lit "worker-1") Samples.fourClaims Samples.backlog)
      /\ (forall x,
            In x Samples.backlog -> claimable (lit "worker-1") x = true ->
            ~ In (_id x)
                (map _id (claimMany (lit "worker-1") Samples.fourClaims Samples.backlog)) ->
            List.Forall (fun j => createdAt j <= createdAt x)
              (claimMany (lit "worker-1") Samples.fourClaims Samples.backlog))).
Proof.
  split; [reflexivity|].
  apply (claim_order (lit "worker-1") 1000 Samples.fourClaims Samples.backlog).
  repeat constructor; simpl; intuition discriminate.
Defined.

(** C2 (retry bound), counterexample.  With the default configuration
    (JOB_MAX_ATTEMPTS = 3, AI_RETRY_ATTEMPTS = 3) and an SDK that rejects
    every call with a retriable error, the tick that claims a KEYWORDS
    job calls the SDK nine times, not three, before it marks the job
    FAILED with attempt = 3. *)
Lemma retry_bound_counterexample :
  JOB_MAX_ATTEMPTS Samples.cfg = 3
  /\ Provider.isRetriableError Samples.host (ThrowError Samples.err429) = true
  /\ sdkCalls
       (trace (snd (run Samples.rateLimited
                      (Runner.processOne Samples.host Samples.cfg)
                      (Samples.idle [Samples.keywordsJob])))) = 9%nat
  /\ map (fun j => (status j, attempt j))
       (store (snd (run Samples.rateLimited
                      (Runner.processOne Samples.host Samples.cfg)
                      (Samples.idle [Samples.keywordsJob]))))
     = [(FAILED, 3)]
  /\ sdkCalls
       (trace (snd (run Samples.rateLimited
                      (Runner.processOne Samples.host Samples.cfg)
                      (Samples.idle [Samples.keywordsJob]))))
     <> Z.to_nat (JOB_MAX_ATTEMPTS Samples.cfg).
Proof. vm_compute. repeat split; try reflexivity. discriminate. Qed.

(** C2 (retry bound), amended.  For a claimed job with attempt = 0 that
    passes the checks made before the provider is called, with the API
    key set, at least one retry attempt and at least one job attempt
    configured, a store that does not fail, and an SDK that rejects every
    call with a retriable error: the tick makes JOB_MAX_ATTEMPTS attempts,
    each of AI_RETRY_ATTEMPTS SDK calls separated by the exponential
    backoff and followed by the runner's backoff, so
    JOB_MAX_ATTEMPTS * AI_RETRY_ATTEMPTS SDK calls in total; nothing is
    written before the last of them, and then the job is marked FAILED
    with attempt = JOB_MAX_ATTEMPTS. *)
Theorem retry_bound_amended (host : Host) (cfg : Config) (env : Env)
    (st st1 : Store) (tr : list Event) (job : Job) :
  (forall n, exists e, sdk env n = inl (ThrowError e)
                       /\ Provider.isRetriableError host (ThrowError e) = true) ->
  (forall n, fault env n = None) ->
  GOOGLE_API_KEY cfg = true ->
  1 <= AI_RETRY_ATTEMPTS cfg ->
  1 <= JOB_MAX_ATTEMPTS cfg ->
  findOneAndUpdate (INSTANCE_ID cfg) (clock env (length tr)) st = (Some job, st1) ->
  attempt job = 0 ->
  Runner.passesChecks job = true ->
  exists e t,
    run env (Runner.processOne host cfg) (mkWorld st false tr)
    = (tt,
       mkWorld (updateOne (_id job) (Runner.exhaustedUpdate cfg e) t st1) false
         (tr ++ EClaim (INSTANCE_ID cfg) (Some (_id job))
             :: backoffEvents (Z.to_nat (JOB_MAX_ATTEMPTS cfg)) 0
                  (retryEvents (Z.to_nat (AI_RETRY_ATTEMPTS cfg)) 0
                     (AI_RETRY_BASE_MS cfg))
             ++ [EUpdate (_id job) (Runner.exhaustedUpdate cfg e)]))
    /\ sdkCalls
         (backoffEvents (Z.to_nat (JOB_MAX_ATTEMPTS cfg)) 0
            (retryEvents (Z.to_nat (AI_RETRY_ATTEMPTS cfg)) 0 (AI_RETRY_BASE_MS cfg)))
       = Z.to_nat (JOB_MAX_ATTEMPTS cfg * AI_RETRY_ATTEMPTS cfg)
    /\ updates
         (backoffEvents (Z.to_nat (JOB_MAX_ATTEMPTS cfg)) 0
            (retryEvents (Z.to_nat (AI_RETRY_ATTEMPTS cfg)) 0 (AI_RETRY_BASE_MS cfg)))
       = []
    /\ List.Exists (fun j => _id j = _id job)
         (updateOne (_id job) (Runner.exhaustedUpdate cfg e) t st1)
    /\ List.Forall
         (fun j => _id j = _id job ->
                   status j = FAILED /\ attempt j = JOB_MAX_ATTEMPTS cfg)
         (updateOne (_id job) (Runner.exhaustedUpdate cfg e) t st1).
Proof.
  intros Hsdk Hfault Hkey Hretry Hmax Hclaim Hatt Hpass.
  destruct (passesChecks_dispatch host cfg job Hpass) as [normalise Hdisp].
  destruct (Z.to_nat (AI_RETRY_ATTEMPTS cfg)) as [|fuel] eqn:Ef; [lia|].
  destruct (processOne_all_fail host cfg env st tr job st1
              (retryEvents (S fuel) 0 (AI_RETRY_BASE_MS cfg)) (fun _ => True)
              Hfault Hclaim) as [e [t [_ Hrun]]].
  { unfold Runner.maxAttempts. lia. }
  { intros a w. unfold Runner.attemptOnce, bindE. rewrite run_bind, Hdisp.
    unfold Provider.generateAndParse, bindE. rewrite run_bind.
    unfold Provider.generateText. rewrite Hkey. unfold Provider.withRetry. rewrite Ef.
    destruct (withRetry_all_fail host cfg env fuel 0 ThrowUndefined w Hsdk)
      as [e He]; [rewrite Z.sub_0_r; symmetry; exact Ef|].
    rewrite He. exists e. split; [exact I|reflexivity]. }
  unfold Runner.maxAttempts in Hrun. rewrite Hatt, Z.sub_0_r in Hrun.
  exists e, t. split; [exact Hrun|]. split; [|split; [|split]].
  - rewrite sdkCalls_backoffEvents, sdkCalls_retryEvents, <- Ef. 
    rewrite Z2Nat.inj_mul by lia. reflexivity.
  - apply updates_backoffEvents, updates_retryEvents.
  - pose proof (claim_spec (INSTANCE_ID cfg) (clock env (length tr)) st) as Hs.
    rewrite Hclaim in Hs. destruct Hs as [j0 (Hin0 & _ & -> & _ & ->)].
    apply List.Exists_exists.
    exists (apply_update (Runner.exhaustedUpdate cfg e) t
              (set_claimed (INSTANCE_ID cfg) (clock env (length tr)) j0)).
    split; [|reflexivity].
    unfold updateOne, replace_doc. apply in_map_iff.
    exists (set_claimed (INSTANCE_ID cfg) (clock env (length tr)) j0).
    simpl. rewrite N.eqb_refl. split; [reflexivity|].
    apply in_map_iff. exists j0. rewrite N.eqb_refl. auto.
  - apply List.Forall_forall. intros j Hin Hid.
    exact (In_updateOne_failed cfg _ e t st1 j Hin Hid).
Qed.

(** The default configuration, a KEYWORDS job with a seed, and an SDK
    that answers every call with HTTP 429. *)
Lemma retry_bound_amended_witness :
  exists e t,
    run Samples.rateLimited (Runner.processOne Samples.host Samples.cfg)
      (mkWorld [Samples.keywordsJob] false [])
    = (tt,
       mkWorld (updateOne (_id Samples.claimedKeywords)
                  (Runner.exhaustedUpdate Samples.cfg e) t [Samples.claimedKeywords])
         false
         ([] ++ EClaim (INSTANCE_ID Samples.cfg) (Some (_id Samples.claimedKeywords))
             :: backoffEvents (Z.to_nat (JOB_MAX_ATTEMPTS Samples.cfg)) 0
                  (retryEvents (Z.to_nat (AI_RETRY_ATTEMPTS Samples.cfg)) 0
                     (AI_RETRY_BASE_MS Samples.cfg))
             ++ [EUpdate (_id Samples.claimedKeywords)
                   (Runner.exhaustedUpdate Samples.cfg e)]))
    /\ sdkCalls
         (backoffEvents (Z.to_nat (JOB_MAX_ATTEMPTS Samples.cfg)) 0
            (retryEvents (Z.to_nat (AI_RETRY_ATTEMPTS Samples.cfg)) 0
               (AI_RETRY_BASE_MS Samples.cfg)))
       = Z.to_nat (JOB_MAX_ATTEMPTS Samples.cfg * AI_RETRY_ATTEMPTS Samples.cfg)
    /\ updates
         (backoffEvents (Z.to_nat (JOB_MAX_ATTEMPTS Samples.cfg)) 0
            (retryEvents (Z.to_nat (AI_RETRY_ATTEMPTS Samples.cfg)) 0
               (AI_RETRY_BASE_MS Samples.cfg)))
       = []
    /\ List.Exists (fun j => _id j = _id Samples.claimedKeywords)
         (updateOne (_id Samples.claimedKeywords)
            (Runner.exhaustedUpdate Samples.cfg e) t [Samples.claimedKeywords])
    /\ List.Forall
         (fun j => _id j = _id Samples.claimedKeywords ->
                   status j = FAILED /\ attempt j = JOB_MAX_ATTEMPTS Samples.cfg)
         (updateOne (_id Samples.claimedKeywords)
            (Runner.exhaustedUpdate Samples.cfg e) t [Samples.claimedKeywords]).
Proof.
  apply (retry_bound_amended Samples.host Samples.cfg Samples.rateLimited
           [Samples.keywordsJob] [Samples.claimedKeywords] []
           Samples.claimedKeywords).
  - intros n. exists Samples.err429. split; reflexivity.
  - intros n. reflexivity.
  - reflexivity.
  - simpl. lia.
  - simpl. lia.
  - reflexivity.
  - reflexivity.
  - reflexivity.
Defined.

(** C3 (immediate precondition failure), counterexample.  With the
    default configuration, the tick that claims an SEO job submitted
    without title and content calls no provider, but it waits the
    backoffs 300, 600 and 900 ms of three attempts, and only then marks
    the job FAILED, with attempt = 3. *)
Lemma precondition_failure_counterexample :
  sdkCalls
    (trace (snd (run Samples.rateLimited
                   (Runner.processOne Samples.host Samples.cfg)
                   (Samples.idle [Samples.seoJob])))) = 0%nat
  /\ sleeps
       (trace (snd (run Samples.rateLimited
                      (Runner.processOne Samples.host Samples.cfg)
                      (Samples.idle [Samples.seoJob])))) = [300; 600; 900]
  /\ map (fun j => (status j, attempt j))
       (store (snd (run Samples.rateLimited
                      (Runner.processOne Samples.host Samples.cfg)
                      (Samples.idle [Samples.seoJob]))))
     = [(FAILED, 3)]
  /\ sleeps
       (trace (snd (run Samples.rateLimited
                      (Runner.processOne Samples.host Samples.cfg)
                      (Samples.idle [Samples.seoJob])))) <> [].
Proof. vm_compute. repeat split; try reflexivity. discriminate. Qed.

(** C3 (immediate precondition failure), amended.  For a claimed SEO,
    META, IMAGE or HASHTAGS job whose payload lacks title or content,
    with attempts left and a store that does not fail: no attempt calls
    the provider; every attempt left, from the job's attempt counter up
    to JOB_MAX_ATTEMPTS, fails on the check and is followed by the
    runner's backoff 300 + a * 300; nothing is written meanwhile; then
    the job is marked FAILED with attempt = JOB_MAX_ATTEMPTS and the
    error of the check. *)
Theorem precondition_failure_amended (host : Host) (cfg : Config) (env : Env)
    (st st1 : Store) (tr : list Event) (job : Job) :
  (forall n, fault env n = None) ->
  findOneAndUpdate (INSTANCE_ID cfg) (clock env (length tr)) st = (Some job, st1) ->
  In (type job) Runner.articleTypes ->
  truthy (get (payload job) "title") = false
  \/ truthy (get (payload job) "content") = false ->
  attempt job < JOB_MAX_ATTEMPTS cfg ->
  exists t,
    run env (Runner.processOne host cfg) (mkWorld st false tr)
    = (tt,
       mkWorld (updateOne (_id job)
                  (Runner.exhaustedUpdate cfg (Runner.preconditionError host (type job)))
                  t st1)
         false
         (tr ++ EClaim (INSTANCE_ID cfg) (Some (_id job))
             :: backoffEvents (Z.to_nat (JOB_MAX_ATTEMPTS cfg - attempt job))
                  (attempt job) []
             ++ [EUpdate (_id job)
                   (Runner.exhaustedUpdate cfg
                      (Runner.preconditionError host (type job)))]))
    /\ sdkCalls
         (backoffEvents (Z.to_nat (JOB_MAX_ATTEMPTS cfg - attempt job))
            (attempt job) []) = 0%nat
    /\ sleeps
         (backoffEvents (Z.to_nat (JOB_MAX_ATTEMPTS cfg - attempt job))
            (attempt job) [])
       = map (fun k => 300 + (attempt job + Z.of_nat k) * 300)
           (seq 0 (Z.to_nat (JOB_MAX_ATTEMPTS cfg - attempt job)))
    /\ updates
         (backoffEvents (Z.to_nat (JOB_MAX_ATTEMPTS cfg - attempt job))
            (attempt job) []) = []
    /\ List.Forall
         (fun j => _id j = _id job ->
                   status j = FAILED /\ attempt j = JOB_MAX_ATTEMPTS cfg)
         (updateOne (_id job)
            (Runner.exhaustedUpdate cfg (Runner.preconditionError host (type job)))
            t st1).
Proof.
  intros Hfault Hclaim Hty Hmiss Hlt.
  destruct (processOne_all_fail host cfg env st tr job st1 []
              (fun e => e = Runner.preconditionError host (type job))
              Hfault Hclaim Hlt) as [e [t [-> Hrun]]].
  { intros a w. exists (Runner.preconditionError host (type job)).
    split; [reflexivity|].
    unfold Runner.attemptOnce, bindE. rewrite run_bind.
    rewrite (dispatch_precondition host cfg job Hty Hmiss).
    rewrite appendTrace_nil. reflexivity. }
  exists t. split; [exact Hrun|]. split; [|split; [|split]].
  - rewrite sdkCalls_backoffEvents. apply Nat.mul_0_r.
  - generalize (Z.to_nat (JOB_MAX_ATTEMPTS cfg - attempt job)) as n.
    generalize (attempt job) as a.
    intros a n; revert a; induction n as [|n IH]; intros a; [reflexivity|].
    cbn [backoffEvents app]. change (sleeps (ESleep (300 + a * 300) :: backoffEvents n (a + 1) []))
      with ((300 + a * 300) :: sleeps (backoffEvents n (a + 1) [])).
    rewrite IH. cbn [seq map]. f_equal; [f_equal; lia|].
    rewrite <- seq_shift, map_map. apply map_ext. intros k. lia.
  - apply updates_backoffEvents. reflexivity.
  - apply List.Forall_forall. intros j Hin Hid.
    exact (In_updateOne_failed cfg _ _ t st1 j Hin Hid).
Qed.

(** The default configuration and an SEO job without title and content. *)
Lemma precondition_failure_amended_witness :
  exists t,
    run Samples.rateLimited (Runner.processOne Samples.host Samples.cfg)
      (mkWorld [Samples.seoJob] false [])
    = (tt,
       mkWorld (updateOne (_id Samples.claimedSeo)
                  (Runner.exhaustedUpdate Samples.cfg
                     (Runner.preconditionError Samples.host (type Samples.claimedSeo)))
                  t [Samples.claimedSeo])
         false
         ([] ++ EClaim (INSTANCE_ID Samples.cfg) (Some (_id Samples.claimedSeo))
             :: backoffEvents
                  (Z.to_nat (JOB_MAX_ATTEMPTS Samples.cfg - attempt Samples.claimedSeo))
                  (attempt Samples.claimedSeo) []
             ++ [EUpdate (_id Samples.claimedSeo)
                   (Runner.exhaustedUpdate Samples.cfg
                      (Runner.preconditionError Samples.host
                         (type Samples.claimedSeo)))]))
    /\ sdkCalls
         (backoffEvents
            (Z.to_nat (JOB_MAX_ATTEMPTS Samples.cfg - attempt Samples.claimedSeo))
            (attempt Samples.claimedSeo) []) = 0%nat
    /\ sleeps
         (backoffEvents
            (Z.to_nat (JOB_MAX_ATTEMPTS Samples.cfg - attempt Samples.claimedSeo))
            (attempt Samples.claimedSeo) [])
       = map (fun k => 300 + (attempt Samples.claimedSeo + Z.of_nat k) * 300)
           (seq 0 (Z.to_nat (JOB_MAX_ATTEMPTS Samples.cfg
                             - attempt Samples.claimedSeo)))
    /\ updates
         (backoffEvents
            (Z.to_nat (JOB_MAX_ATTEMPTS Samples.cfg - attempt Samples.claimedSeo))
            (attempt Samples.claimedSeo) []) = []
    /\ List.Forall
         (fun j => _id j = _id Samples.claimedSeo ->
                   status j = FAILED /\ attempt j = JOB_MAX_ATTEMPTS Samples.cfg)
         (updateOne (_id Samples.claimedSeo)
            (Runner.exhaustedUpdate Samples.cfg
               (Runner.preconditionError Samples.host (type Samples.claimedSeo)))
            t [Samples.claimedSeo]).
Proof.
  apply (precondition_failure_amended Samples.host Samples.cfg Samples.rateLimited
           [Samples.seoJob] [Samples.claimedSeo] [] Samples.claimedSeo).
  - intros n. reflexivity.
  - reflexivity.
  - simpl. auto.
  - left. reflexivity.
  - simpl. lia.
Defined.

(** C4 (parse strategy), counterexample.  For a text with two objects
    the fallback does not extract the first balanced object: the pattern
    matches from the first opening brace to the last closing brace, that
    text is not JSON, and parsing fails although the first balanced
    object parses; the error carries the text and the message of the
    first failure only. *)
Lemma parse_strategy_counterexample :
  firstBalancedObject Samples.twoObjects = Some (lit "{}")
  /\ JSON_parse Samples.host (lit "{}") = inr (JObj [])
  /\ jsonMatch Samples.twoObjects = Some (lit "{} and {}")
  /\ JSON_parse Samples.host (lit "{} and {}")
     = inl (lit "Unexpected token in JSON: {} and {}")
  /\ Provider.parseJSONResponse Samples.host Samples.twoObjects
     = inl {| e_name := lit "Error";
              e_message := lit "JSON_PARSE_FAILED";
              e_code := JUndefined; e_status := JUndefined;
              e_statusCode := JUndefined; e_raw := JUndefined;
              e_rawText := JStr Samples.twoObjects;
              e_responseData := JUndefined;
              e_stack := JStr (lit "Error: JSON_PARSE_FAILED");
              e_parseError :=
                JStr (lit "Unexpected token in JSON: Result: {} and {}") |}
  /\ jsonMatch Samples.twoObjects <> firstBalancedObject Samples.twoObjects.
Proof. vm_compute. repeat split; try reflexivity. discriminate. Qed.

(** C4 (parse strategy), amended.  The text is first trimmed and freed
    of a leading and a trailing code fence: the cleaned text is the one
    text that is left when the white space at both ends, then an opening
    marker with the white space after it, then a closing marker with
    the white space before it, are taken away.  If the cleaned text is
    JSON, parsing returns its value.  Otherwise, if an opening brace is
    followed by a closing brace, the part of the text from the first
    opening brace to the last closing brace is parsed and, if it is JSON,
    its value is returned.  Otherwise parsing fails with the error
    JSON_PARSE_FAILED, which carries the original text and the message of
    the first parse failure. *)
Theorem parse_strategy_amended (host : Host) (text : jsstring) :
  (exists l pre post r, cleaned text l pre (Provider.cleanText text) post r)
  /\ (forall l pre clean post r,
        cleaned text l pre clean post r -> clean = Provider.cleanText text)
  /\ match JSON_parse host (Provider.cleanText text) with
     | inr v => Provider.parseJSONResponse host text = inr v
     | inl firstMessage =>
         match jsonMatch text with
         | Some m =>
             (exists pre body post,
                 text = pre ++ m ++ post
                 /\ m = openBrace :: body ++ [closeBrace]
                 /\ ~ In openBrace pre /\ ~ In closeBrace post)
             /\ match JSON_parse host m with
                | inr v => Provider.parseJSONResponse host text = inr v
                | inl _ =>
                    exists e,
                      Provider.parseJSONResponse host text = inl e
                      /\ e_message e = lit "JSON_PARSE_FAILED"
                      /\ e_rawText e = JStr text
                      /\ e_parseError e = JStr firstMessage
                end
         | None =>
             (~ In openBrace text
              \/ exists pre rest,
                   text = pre ++ openBrace :: rest
                   /\ ~ In openBrace pre /\ ~ In closeBrace rest)
             /\ exists e,
                  Provider.parseJSONResponse host text = inl e
                  /\ e_message e = lit "JSON_PARSE_FAILED"
                  /\ e_rawText e = JStr text
                  /\ e_parseError e = JStr firstMessage
         end
     end.
Proof.
  split; [apply cleanText_cleaned|]. split.
  { intros l pre clean post r H.
    destruct (cleanText_cleaned text) as [l' [pre' [post' [r' H']]]].
    exact (cleaned_unique text l pre clean post r l' pre' _ post' r' H H'). }
  pose proof (jsonMatch_spec text) as Hm.
  unfold Provider.parseJSONResponse.
  destruct (JSON_parse host (Provider.cleanText text)) as [m1|v]; [|reflexivity].
  destruct (jsonMatch text) as [m|].
  - split; [exact Hm|].
    destruct (JSON_parse host m) as [m2|v]; [|reflexivity].
    eexists. repeat split.
  - split; [exact Hm|]. eexists. repeat split.
Qed.

(** C6 (attempt bound).  With a maximum that is not negative, in every
    store that submissions and ticks of runner instances produce, under
    any environment, no job has an attempt counter above the maximum;
    every write of a tick stores a permitted attempt; and the writes of
    the tick that claims a job are exactly these, all to that job: the
    success write, made by the attempt that returned after n attempts
    that failed, stores the index of that attempt plus one, attempt + n
    + 1, which is at most the maximum; the exhaustion write, made when
    every attempt left has failed, stores the maximum itself; the mark
    of the outer catch stores no attempt. *)
Theorem attempt_never_exceeds_max (host : Host) (maxA : Z) (st : Store) :
  0 <= maxA ->
  reachable_store (Runner.processOne host) maxA st ->
  attempts_bounded maxA st
  /\ (forall cfg env b,
        JOB_MAX_ATTEMPTS cfg = maxA ->
        writes_bounded maxA
          (trace (snd (run env (Runner.processOne host cfg) (mkWorld st b [])))))
  /\ (forall cfg env job st1,
        JOB_MAX_ATTEMPTS cfg = maxA ->
        fault env 0 = None ->
        findOneAndUpdate (INSTANCE_ID cfg) (clock env 0) st = (Some job, st1) ->
        writes_exact host cfg env job
          (mkWorld st1 true [EClaim (INSTANCE_ID cfg) (Some (_id job))])
          (trace (snd (run env (Runner.processOne host cfg) (mkWorld st false []))))).
Proof.
  intros Hmax Hreach. split; [|split].
  - induction Hreach as [|st oid now uid ty pl _ IH|st cfg env b tr _ IH Hcfg].
    + constructor.
    + unfold attempts_bounded, insert. apply List.Forall_app. split; [exact IH|].
      constructor; [simpl; exact Hmax|constructor].
    + subst maxA.
      apply (tick_keeps_store_bound host cfg env (mkWorld st b tr)). exact IH.
  - intros cfg env b <-.
    apply (tick_keeps_trace_bound host cfg env (mkWorld st b [])). constructor.
  - intros cfg env job st1 _ Hf Hclaim.
    rewrite (processOne_claimed host cfg env st [] job st1 Hf Hclaim).
    apply afterClaim_writes. reflexivity.
Qed.

(** The store after one submission.  In the tick shown the first attempt
    is refused and the second returns: the success write stores 2. *)
Lemma attempt_never_exceeds_max_witness :
  (sleeps (trace (snd (run Samples.refusedOnce
                         (Runner.processOne Samples.host Samples.cfg)
                         (mkWorld (insert [] Samples.keywordsJob) false []))))
   = [300]
   /\ map (fun w => (fst w, u_status (snd w), u_attempt (snd w)))
        (updates (trace (snd (run Samples.refusedOnce
                                (Runner.processOne Samples.host Samples.cfg)
                                (mkWorld (insert [] Samples.keywordsJob) false [])))))
      = [(1%N, SUCCEEDED, Some 2)])
  /\ attempts_bounded 3 (insert [] Samples.keywordsJob)
  /\ (forall cfg env b,
        JOB_MAX_ATTEMPTS cfg = 3 ->
        writes_bounded 3
          (trace (snd (run env (Runner.processOne Samples.host cfg)
                         (mkWorld (insert [] Samples.keywordsJob) b [])))))
  /\ (forall cfg env job st1,
        JOB_MAX_ATTEMPTS cfg = 3 ->
        fault env 0 = None ->
        findOneAndUpdate (INSTANCE_ID cfg) (clock env 0) (insert [] Samples.keywordsJob)
        = (Some job, st1) ->
        writes_exact Samples.host cfg env job
          (mkWorld st1 true [EClaim (INSTANCE_ID cfg) (Some (_id job))])
          (trace (snd (run env (Runner.processOne Samples.host cfg)
                         (mkWorld (insert [] Samples.keywordsJob) false []))))).
Proof.
  split; [split; reflexivity|].
  apply (attempt_never_exceeds_max Samples.host 3).
  - lia.
  - apply rs_submit. apply rs_empty.
Defined.

(** C7 (single-flight runner).  In every state that ticks started by the
    timer and awaited operations settling in any order can reach, at
    most one tick is in flight, and one is in flight exactly when the
    busy flag is set.  A tick that begins with the flag set ends at once:
    it awaits nothing, leaves the flag set, and leaves the store and the
    trace as they are.  A tick that begins with the flag clear ends with
    the flag clear under every environment, whatever the outcome. *)
Theorem single_flight (host : Host) (cfg : Config) (i : Instance) :
  reachable (Runner.processOne host cfg) i ->
  length (snd i) = (if fst i then 1 else 0)%nat
  /\ (forall t b', sync (Runner.processOne host cfg) true t b' ->
                   t = None /\ b' = true)
  /\ (forall env st tr,
         run env (Runner.processOne host cfg) (mkWorld st true tr)
         = (tt, mkWorld st true tr))
  /\ (forall env st tr,
         busy (snd (run env (Runner.processOne host cfg) (mkWorld st false tr)))
         = false).
Proof.
  intros Hreach. split; [|split; [|split]].
  - apply (reachable_invariant host cfg i Hreach).
  - intros t b' Hsync.
    pose proof (sync_safe _ _ _ _ _ _ (processOne_skips host cfg) Hsync) as H.
    destruct t as [[R op k]|]; [|auto].
    destruct H as (Haw & Hno & _). unfold awaitsNothing in Hno. congruence.
  - apply run_busy_skips.
  - apply run_clears_busy.
Qed.

(** The state after the first tick: the flag is set and the tick waits
    for its claim. *)
Lemma single_flight_witness :
  exists i : Instance,
    fst i = true
    /\ (length (snd i) = (if fst i then 1 else 0)%nat
        /\ (forall t b', sync (Runner.processOne Samples.host Samples.cfg) true t b' ->
                         t = None /\ b' = true)
        /\ (forall env st tr,
               run env (Runner.processOne Samples.host Samples.cfg)
                 (mkWorld st true tr)
               = (tt, mkWorld st true tr))
        /\ (forall env st tr,
               busy (snd (run env (Runner.processOne Samples.host Samples.cfg)
                            (mkWorld st false tr)))
               = false)).
Proof.
  eexists (true, [] ++ tasks_of (Some (Pending (FindOneAndUpdate (lit "worker-1") 1000) _))).
  split; [reflexivity|].
  apply (single_flight Samples.host Samples.cfg).
  eapply reach_step; [apply reach_init|].
  apply step_tick.
  unfold Runner.processOne. simpl.
  apply sync_get. apply sync_set. apply (sync_now 1000).
  apply sync_await. reflexivity.
Defined.

(** C8 (ownership noninterference).  When the job with the requested
    identifier belongs to another user, the response is the response for
    an identifier that no job has: the error of a malformed identifier or
    of a missing principal when the request has one, and otherwise 404
    with the body of a job that is not found.  The job's data is sent
    with 200 only to the user that owns the job. *)
Theorem ownership_noninterference (st st' : Store) (id : jsstring)
    (user : JsVal) (job : Job) :
  findById st (JobsRoute.oid_of_hex id) = Some job ->
  user <> JStr (JobsRoute.hex_of_oid (userId job)) ->
  findById st' (JobsRoute.oid_of_hex id) = None ->
  JobsRoute.getJob st id user = JobsRoute.getJob st' id user
  /\ JobsRoute.getJob st id user
     = (if negb (JobsRoute.idSchema id)
        then JobsRoute.mkResponse 400 (JobsRoute.error_body "Invalid job id format")
        else if negb (truthy user)
        then JobsRoute.mkResponse 401 (JobsRoute.error_body "Unauthorized")
        else JobsRoute.mkResponse 404 (JobsRoute.error_body "Job not found"))
  /\ forall owner body,
       JobsRoute.getJob st id owner = JobsRoute.mkResponse 200 body ->
       owner = JStr (JobsRoute.hex_of_oid (userId job))
       /\ body = JObj (JobsRoute.jobView job).
Proof.
  intros Hfound Hother Habsent.
  assert (JobsRoute.getJob st id user
          = (if negb (JobsRoute.idSchema id)
             then JobsRoute.mkResponse 400 (JobsRoute.error_body "Invalid job id format")
             else if negb (truthy user)
             then JobsRoute.mkResponse 401 (JobsRoute.error_body "Unauthorized")
             else JobsRoute.mkResponse 404 (JobsRoute.error_body "Job not found")))
    as Hst.
  { unfold JobsRoute.getJob. rewrite Hfound.
    destruct (negb (JobsRoute.idSchema id)); [reflexivity|].
    destruct (negb (truthy user)); [reflexivity|].
    destruct user as [| |b|n|u|l|fs]; try reflexivity.
    destruct (streq (JobsRoute.hex_of_oid (userId job)) u) eqn:E; [|reflexivity].
    apply streq_spec in E. subst u. contradiction Hother. reflexivity. }
  split; [|split; [exact Hst|]].
  - rewrite Hst. unfold JobsRoute.getJob. rewrite Habsent. reflexivity.
  - intros owner body Hok.
    apply getJob_ok in Hok as [job' (Hj & Ho & Hb)].
    rewrite Hfound in Hj. injection Hj as <-. auto.
Qed.

(** User 8 asks for the job of user 7. *)
Lemma ownership_noninterference_witness :
  JobsRoute.getJob [Samples.doneJob] (JobsRoute.hex_of_oid 3)
    (JStr (JobsRoute.hex_of_oid 8))
  = JobsRoute.getJob [] (JobsRoute.hex_of_oid 3) (JStr (JobsRoute.hex_of_oid 8))
  /\ JobsRoute.getJob [Samples.doneJob] (JobsRoute.hex_of_oid 3)
       (JStr (JobsRoute.hex_of_oid 8))
     = (if negb (JobsRoute.idSchema (JobsRoute.hex_of_oid 3))
        then JobsRoute.mkResponse 400 (JobsRoute.error_body "Invalid job id format")
        else if negb (truthy (JStr (JobsRoute.hex_of_oid 8)))
        then JobsRoute.mkResponse 401 (JobsRoute.error_body "Unauthorized")
        else JobsRoute.mkResponse 404 (JobsRoute.error_body "Job not found"))
  /\ forall owner body,
       JobsRoute.getJob [Samples.doneJob] (JobsRoute.hex_of_oid 3) owner
       = JobsRoute.mkResponse 200 body ->
       owner = JStr (JobsRoute.hex_of_oid (userId Samples.doneJob))
       /\ body = JObj (JobsRoute.jobView Samples.doneJob).
Proof.
  apply (ownership_noninterference [Samples.doneJob] [] (JobsRoute.hex_of_oid 3)
           (JStr (JobsRoute.hex_of_oid 8)) Samples.doneJob).
  - reflexivity.
  - intros H. vm_compute in H. discriminate H.
  - reflexivity.
Defined.


(** C10 (view projection).  The body sent with 200 is the view of the
    stored job: it has tokensUsed only when the stored value is not 0,
    model only when a non-empty model is stored, error only when the
    stored error is truthy, and result whenever one is stored, null
    included.  A job whose generation used 0 tokens is rendered without
    tokensUsed. *)
Theorem view_projection (st : Store) (id : jsstring) (user body : JsVal) :
  JobsRoute.getJob st id user = JobsRoute.mkResponse 200 body ->
  exists job view,
    findById st (JobsRoute.oid_of_hex id) = Some job
    /\ body = JObj view
    /\ JobsRoute.field "tokensUsed" view
       = (if Z.eqb (tokensUsed job) 0 then None
          else Some (JNum (of_Z (tokensUsed job))))
    /\ JobsRoute.field "model" view
       = match model job with
         | Some (c :: m) => Some (JStr (c :: m))
         | _ => None
         end
    /\ JobsRoute.field "error" view
       = (if truthy (error job) then Some (error job) else None)
    /\ JobsRoute.field "result" view
       = match result job with
         | JUndefined => None
         | r => Some r
         end.
Proof.
  intros Hok. apply getJob_ok in Hok as [job (Hj & _ & ->)].
  exists job, (JobsRoute.jobView job).
  split; [exact Hj|]. split; [reflexivity|].
  split; [apply jobView_tokensUsed|].
  split; [apply jobView_model|].
  split; [apply jobView_error|apply jobView_result].
Qed.

(** The owner asks for a job that succeeded with a null result and no
    tokens. *)
Lemma view_projection_witness :
  exists job view,
    findById [Samples.doneJob] (JobsRoute.oid_of_hex (JobsRoute.hex_of_oid 3))
    = Some job
    /\ JObj (JobsRoute.jobView Samples.doneJob) = JObj view
    /\ JobsRoute.field "tokensUsed" view
       = (if Z.eqb (tokensUsed job) 0 then None
          else Some (JNum (of_Z (tokensUsed job))))
    /\ JobsRoute.field "model" view
       = match model job with
         | Some (c :: m) => Some (JStr (c :: m))
         | _ => None
         end
    /\ JobsRoute.field "error" view
       = (if truthy (error job) then Some (error job) else None)
    /\ JobsRoute.field "result" view
       = match result job with
         | JUndefined => None
         | r => Some r
         end.
Proof.
  apply (view_projection [Samples.doneJob] (JobsRoute.hex_of_oid 3)
           (JStr (JobsRoute.hex_of_oid 7))).
  reflexivity.
Defined.

(* ===================================================================== *)
(** * Further properties of the code *)
(* ===================================================================== *)

Import JobsRoute Trace Normalise.

(** ** workers/jobs-runner.js: toJobError *)

Lemma rawSnippet_field a b c d snippet pe :
  assoc (lit "rawSnippet")
    ([ (lit "type", a); (lit "code", b); (lit "provider", c); (lit "message", d) ]
     ++ (if truthy snippet then [(lit "rawSnippet", snippet)] else [])
     ++ (if truthy pe then [(lit "parseError", pe)] else []))
  = if truthy snippet then Some snippet else None.
Proof. destruct (truthy snippet), (truthy pe); reflexivity. Qed.

Lemma parseError_field a b c d snippet pe :
  assoc (lit "parseError")
    ([ (lit "type", a); (lit "code", b); (lit "provider", c); (lit "message", d) ]
     ++ (if truthy snippet then [(lit "rawSnippet", snippet)] else [])
     ++ (if truthy pe then [(lit "parseError", pe)] else []))
  = if truthy pe then Some pe else None.
Proof. destruct (truthy snippet), (truthy pe); reflexivity. Qed.

(** X1 (toJobError).  The error stored with a failed job always carries
    the label given as type, the provider of the configuration, the
    message of the error and a truthy code.  It carries rawSnippet
    exactly when the first truthy of err.raw, err.rawText,
    err.response.data and err.stack is a non-empty string, and rawSnippet
    is then the first MAX_RAW_SNIPPET (500) code units of that string at
    most, never the whole of a longer text. *)
Theorem toJobError_snippet (cfg : Config) (err : Thrown) (ty : string) :
  let raw :=
    or_ (errorProp e_raw err)
      (or_ (errorProp e_rawText err)
         (or_ (errorProp e_responseData err) (errorProp e_stack err))) in
  get (toJobError cfg err ty) "type" = JStr (lit ty)
  /\ get (toJobError cfg err ty) "provider" = JStr (AI_PROVIDER cfg)
  /\ get (toJobError cfg err ty) "message" = JStr (errorMessage err)
  /\ truthy (get (toJobError cfg err ty) "code") = true
  /\ match get (toJobError cfg err ty) "rawSnippet" with
     | JUndefined =>
         match raw with JStr (_ :: _) => False | _ => True end
     | JStr s =>
         (1 <= length s <= MAX_RAW_SNIPPET)%nat
         /\ exists rest, raw = JStr (s ++ rest)
     | _ => False
     end.
Proof.
  intros raw. split; [reflexivity|]. split; [reflexivity|]. split; [reflexivity|].
  split.
  { unfold toJobError, get. cbn [assoc lit]. 
    change (streq (lit "code") (lit "type")) with false.
    change (streq (lit "code") (lit "code")) with true. cbv iota.
    unfold or_. destruct (truthy (errorProp e_code err)) eqn:E; [exact E|reflexivity]. }
  unfold toJobError, get. rewrite rawSnippet_field.
  assert (or_ (errorProp e_raw err)
            (or_ (errorProp e_rawText err)
               (or_ (errorProp e_responseData err)
                  (or_ (errorProp e_stack err) (JStr []))))
          = if truthy raw then raw else JStr []) as ->.
  { unfold raw, or_.
    destruct (truthy (errorProp e_raw err)) eqn:E1; [rewrite E1; reflexivity|].
    destruct (truthy (errorProp e_rawText err)) eqn:E2; [rewrite E2; reflexivity|].
    destruct (truthy (errorProp e_responseData err)) eqn:E3; [rewrite E3; reflexivity|].
    reflexivity. }
  clearbody raw. destruct raw as [| |b|n|[|c0 r]|items|fields]; cbn [truthy]; try exact I.
  - destruct b; exact I.
  - destruct (num_truthy n); exact I.
  - assert (take MAX_RAW_SNIPPET (c0 :: r) = c0 :: take 499 r) as Ht by reflexivity.
    rewrite Ht. cbn [truthy]. rewrite <- Ht. split.
    + rewrite length_take. unfold MAX_RAW_SNIPPET. cbn [length]. lia.
    + exists (drop MAX_RAW_SNIPPET (c0 :: r)). rewrite take_drop. reflexivity.
Qed.

Lemma parseJSONResponse_failure host text e :
  parseJSONResponse host text = inl e ->
  exists msg,
    JSON_parse host (cleanText text) = inl msg /\ e = parseFailed host text msg.
Proof.
  unfold parseJSONResponse.
  destruct (JSON_parse host (cleanText text)) as [msg|d]; [|discriminate].
  intros H. exists msg. split; [reflexivity|].
  destruct (jsonMatch text) as [m|]; [destruct (JSON_parse host m)|]; congruence.
Qed.

(** X2 (parseJSONResponse, then toJobError).  When the parsing of a
    provider text fails, the job error built from the thrown error has
    the message JSON_PARSE_FAILED and the default code AI_CALL_FAILED; its
    rawSnippet is the first 500 code units of the provider text (of the
    stack when the text is empty), and its parseError is the message of
    the first, direct parse, left out when that message is empty. *)
Theorem parse_failure_job_error (host : Host) (cfg : Config) (text : jsstring)
    (e : JsError) :
  parseJSONResponse host text = inl e ->
  exists msg,
    JSON_parse host (cleanText text) = inl msg
    /\ get (toJobError cfg (ThrowError e) "PROVIDER") "message"
       = JStr (lit "JSON_PARSE_FAILED")
    /\ get (toJobError cfg (ThrowError e) "PROVIDER") "code"
       = JStr (lit "AI_CALL_FAILED")
    /\ get (toJobError cfg (ThrowError e) "PROVIDER") "rawSnippet"
       = match text with
         | _ :: _ => JStr (take MAX_RAW_SNIPPET text)
         | [] =>
             match stackOf host (lit "Error") (lit "JSON_PARSE_FAILED") with
             | [] => JUndefined
             | s => JStr (take MAX_RAW_SNIPPET s)
             end
         end
    /\ get (toJobError cfg (ThrowError e) "PROVIDER") "parseError"
       = match msg with
         | [] => JUndefined
         | _ => JStr msg
         end.
Proof.
  intros H. apply parseJSONResponse_failure in H as [msg [Hmsg ->]].
  exists msg. split; [exact Hmsg|]. split; [reflexivity|]. split; [reflexivity|].
  split.
  - unfold toJobError, get. rewrite rawSnippet_field.
    cbn [errorProp parseFailed e_raw e_rawText e_responseData e_stack or_ truthy].
    destruct text as [|c t].
    + cbn [truthy or_].
      destruct (stackOf host (lit "Error") (lit "JSON_PARSE_FAILED")) as [|c s];
        reflexivity.
    + reflexivity.
  - unfold toJobError, get. rewrite parseError_field.
    cbn [errorProp parseFailed e_parseError truthy].
    destruct msg; reflexivity.
Qed.

(** The text "no json here". *)
Lemma parse_failure_job_error_witness :
  exists msg,
    JSON_parse Samples.host (cleanText (lit "no json here")) = inl msg
    /\ get (toJobError Samples.cfg (ThrowError Cases.unparsed) "PROVIDER") "message"
       = JStr (lit "JSON_PARSE_FAILED")
    /\ get (toJobError Samples.cfg (ThrowError Cases.unparsed) "PROVIDER") "code"
       = JStr (lit "AI_CALL_FAILED")
    /\ get (toJobError Samples.cfg (ThrowError Cases.unparsed) "PROVIDER") "rawSnippet"
       = JStr (lit "no json here")
    /\ get (toJobError Samples.cfg (ThrowError Cases.unparsed) "PROVIDER") "parseError"
       = match msg with
         | [] => JUndefined
         | _ => JStr msg
         end.
Proof.
  exact (parse_failure_job_error Samples.host Samples.cfg (lit "no json here")
           Cases.unparsed eq_refl).
Defined.

(** ** providers/ai: withRetry and generateText under any environment *)

Section Retry.
Context (host : Host) (cfg : Config) (env : Env).

Lemma retryEvents_SS k i base :
  retryEvents (S (S k)) i base = ESdk :: ESleep (base * 2 ^ i) :: retryEvents (S k) (i + 1) base.
Proof. reflexivity. Qed.

Lemma answer_shift w evs j :
  length evs = 2%nat -> answer env (appendTrace w evs) j = answer env w (S j).
Proof.
  intros H. unfold answer, appendTrace. simpl trace. rewrite length_app, H.
  f_equal. lia.
Qed.

(** Every run of the loop of [withRetry] around [exec]: with no
    iteration left it throws [lastErr]; otherwise it makes [k] calls,
    of which all but the last failed with a retriable error, and it ends
    with the answer of the last: a result, or an error that is thrown
    because it is not retriable or because no attempt is left. *)
Lemma withRetry_from_run fuel i last w :
  fuel = Z.to_nat (AI_RETRY_ATTEMPTS cfg - i) ->
  match fuel with
  | O => run env (withRetry_from host fuel i (AI_RETRY_ATTEMPTS cfg)
                    (AI_RETRY_BASE_MS cfg) (exec cfg) last) w = (inl last, w)
  | S _ =>
      exists k,
        (1 <= k <= fuel)%nat
        /\ snd (run env (withRetry_from host fuel i (AI_RETRY_ATTEMPTS cfg)
                          (AI_RETRY_BASE_MS cfg) (exec cfg) last) w)
           = appendTrace w (retryEvents k i (AI_RETRY_BASE_MS cfg))
        /\ (forall j, (S j < k)%nat ->
              exists e, answer env w j = inl e /\ isRetriableError host e = true)
        /\ match answer env w (k - 1) with
           | inr res =>
               fst (run env (withRetry_from host fuel i (AI_RETRY_ATTEMPTS cfg)
                               (AI_RETRY_BASE_MS cfg) (exec cfg) last) w)
               = inr (textResult cfg res)
           | inl e =>
               fst (run env (withRetry_from host fuel i (AI_RETRY_ATTEMPTS cfg)
                               (AI_RETRY_BASE_MS cfg) (exec cfg) last) w)
               = inl e
               /\ (k = fuel \/ isRetriableError host e = false)
           end
  end.
Proof.
  revert i last w; induction fuel as [|fuel IH]; intros i last w Hf; [reflexivity|].
  rewrite withRetry_from_S.
  assert ((i <? AI_RETRY_ATTEMPTS cfg) = true) as -> by (apply Z.ltb_lt; lia).
  rewrite run_bind, run_exec.
  assert (answer env w 0 = sdk env (length (trace w))) as H0.
  { unfold answer. f_equal. lia. }
  destruct (sdk env (length (trace w))) as [e|res] eqn:Es.
  2:{ exists 1%nat. simpl. rewrite H0. repeat split; lia. }
  destruct (i =? AI_RETRY_ATTEMPTS cfg - 1) eqn:Ei.
  { apply Z.eqb_eq in Ei. exists 1%nat. simpl. rewrite H0.
    repeat split; lia. }
  apply Z.eqb_neq in Ei.
  destruct (isRetriableError host e) eqn:Er; cbn [orb negb].
  2:{ exists 1%nat. simpl. rewrite H0.
      repeat split; try lia. right; exact Er. }
  rewrite run_sleep_then.
  specialize (IH (i + 1) e
                (appendTrace (appendTrace w [ESdk])
                   [ESleep (AI_RETRY_BASE_MS cfg * 2 ^ i)])).
  destruct fuel as [|fuel]; [lia|].
  destruct IH as [k (Hk & Htr & Hpre & Hlast)]; [lia|].
  rewrite appendTrace_app in *.
  exists (S k). split; [lia|]. split; [|split].
  - rewrite Htr. destruct k as [|k]; [lia|].
    rewrite retryEvents_SS, appendTrace_app. reflexivity.
  - intros [|j] Hj.
    + exists e. rewrite H0. auto.
    + destruct (Hpre j) as [e' He']; [lia|]. exists e'.
      rewrite answer_shift in He' by reflexivity. exact He'.
  - replace (S k - 1)%nat with (S (k - 1)) by lia.
    rewrite answer_shift in Hlast by reflexivity.
    destruct (answer env w (S (k - 1))); [|exact Hlast].
    destruct Hlast as [H1 H2]. split; [exact H1|]. destruct H2; [left; lia|right; assumption].
Qed.

End Retry.

Section RetryFacts.
Context (host : Host) (cfg : Config) (env : Env).

Lemma sleeps_retryEvents_total k i base :
  0 <= i ->
  totalMs (sleeps (retryEvents (S k) i base)) = base * 2 ^ i * (2 ^ Z.of_nat k - 1).
Proof.
  revert i; induction k as [|k IH]; intros i Hi.
  - change (totalMs (sleeps (retryEvents 1 i base))) with 0.
    change (Z.of_nat 0) with 0. rewrite Z.pow_0_r. ring.
  - rewrite retryEvents_SS.
    change (sleeps (ESdk :: ESleep (base * 2 ^ i) :: retryEvents (S k) (i + 1) base))
      with (base * 2 ^ i :: sleeps (retryEvents (S k) (i + 1) base)).
    cbn [totalMs fold_right]. fold (totalMs (sleeps (retryEvents (S k) (i + 1) base))).
    rewrite IH by lia. rewrite Nat2Z.inj_succ, Z.pow_succ_r by lia.
    replace (i + 1) with (Z.succ i) by lia. rewrite Z.pow_succ_r by lia. ring.
Qed.

Lemma length_sleeps_retryEvents k i base :
  length (sleeps (retryEvents (S k) i base)) = k.
Proof.
  revert i; induction k as [|k IH]; intros i; [reflexivity|].
  rewrite retryEvents_SS.
  change (sleeps (ESdk :: ESleep (base * 2 ^ i) :: retryEvents (S k) (i + 1) base))
    with (base * 2 ^ i :: sleeps (retryEvents (S k) (i + 1) base)).
  cbn [length]. rewrite IH. reflexivity.
Qed.

(** What one [generateText] leaves in the trace, under any
    environment. *)
Lemma generateText_events w :
  exists k,
    (k <= Z.to_nat (AI_RETRY_ATTEMPTS cfg))%nat
    /\ snd (run env (generateText host cfg) w)
       = appendTrace w (retryEvents k 0 (AI_RETRY_BASE_MS cfg)).
Proof.
  unfold generateText. destruct (GOOGLE_API_KEY cfg).
  - unfold withRetry.
    pose proof (withRetry_from_run host cfg env (Z.to_nat (AI_RETRY_ATTEMPTS cfg)) 0
                  ThrowUndefined w) as H.
    rewrite Z.sub_0_r in H. specialize (H eq_refl).
    destruct (Z.to_nat (AI_RETRY_ATTEMPTS cfg)) as [|fuel].
    + exists 0%nat. split; [lia|]. rewrite H. simpl. rewrite appendTrace_nil. reflexivity.
    + destruct H as [k (Hk & Htr & _)]. exists k. split; [lia|exact Htr].
  - exists 0%nat. split; [lia|]. simpl. rewrite appendTrace_nil. reflexivity.
Qed.

End RetryFacts.

(** X3 (withRetry in generateText).  Whatever the SDK answers, one
    generateText calls it at most AI_RETRY_ATTEMPTS times, sleeps exactly
    once between two consecutive calls and never after the last, and
    writes nothing to the store. *)
Theorem generateText_call_bound (host : Host) (cfg : Config) (env : Env) (w : World) :
  exists evs,
    snd (run env (generateText host cfg) w) = appendTrace w evs
    /\ (sdkCalls evs <= Z.to_nat (AI_RETRY_ATTEMPTS cfg))%nat
    /\ length (sleeps evs) = (sdkCalls evs - 1)%nat
    /\ updates evs = [].
Proof.
  destruct (generateText_events host cfg env w) as [k [Hk Htr]].
  exists (retryEvents k 0 (AI_RETRY_BASE_MS cfg)).
  split; [exact Htr|]. rewrite sdkCalls_retryEvents, updates_retryEvents.
  split; [exact Hk|]. split; [|reflexivity].
  destruct k as [|k]; [reflexivity|]. rewrite length_sleeps_retryEvents. lia.
Qed.

(** X4 (withRetry, total backoff).  With a base delay that is not
    negative and at least one attempt configured, the delays one
    generateText sleeps add up to at most
    AI_RETRY_BASE_MS * (2 ^ (AI_RETRY_ATTEMPTS - 1) - 1), whatever the SDK
    answers: 1200 ms with the defaults. *)
Theorem generateText_backoff_bound (host : Host) (cfg : Config) (env : Env) (w : World) :
  0 <= AI_RETRY_BASE_MS cfg ->
  1 <= AI_RETRY_ATTEMPTS cfg ->
  exists evs,
    snd (run env (generateText host cfg) w) = appendTrace w evs
    /\ 0 <= totalMs (sleeps evs)
       <= AI_RETRY_BASE_MS cfg * (2 ^ (AI_RETRY_ATTEMPTS cfg - 1) - 1).
Proof.
  intros Hb Hn.
  destruct (generateText_events host cfg env w) as [k [Hk Htr]].
  exists (retryEvents k 0 (AI_RETRY_BASE_MS cfg)). split; [exact Htr|].
  assert (1 <= 2 ^ (AI_RETRY_ATTEMPTS cfg - 1)) as Hp.
  { change 1 with (2 ^ 0). apply Z.pow_le_mono_r; lia. }
  destruct k as [|k]; [simpl; nia|].
  rewrite sleeps_retryEvents_total by lia. rewrite Z.pow_0_r, Z.mul_1_r.
  assert (1 <= 2 ^ Z.of_nat k) as Hk1.
  { change 1 with (2 ^ 0). apply Z.pow_le_mono_r; lia. }
  assert (2 ^ Z.of_nat k <= 2 ^ (AI_RETRY_ATTEMPTS cfg - 1)) as Hk2.
  { apply Z.pow_le_mono_r; lia. }
  nia.
Qed.

(** The defaults, with an SDK that answers 429 to every call. *)
Lemma generateText_backoff_bound_witness :
  exists evs,
    snd (run Samples.rateLimited (generateText Samples.host Samples.cfg) (Samples.idle []))
    = appendTrace (Samples.idle []) evs
    /\ 0 <= totalMs (sleeps evs) <= 400 * (2 ^ (3 - 1) - 1).
Proof.
  apply (generateText_backoff_bound Samples.host Samples.cfg Samples.rateLimited
           (Samples.idle [])); simpl; lia.
Defined.

(** X5 (withRetry, isRetriableError).  An error of the SDK that is not
    retriable ends generateText at once: the SDK is called once, nothing
    is slept, and that error is thrown. *)
Theorem withRetry_fails_fast (host : Host) (cfg : Config) (env : Env) (w : World)
    (e : Thrown) :
  GOOGLE_API_KEY cfg = true ->
  1 <= AI_RETRY_ATTEMPTS cfg ->
  sdk env (length (trace w)) = inl e ->
  isRetriableError host e = false ->
  run env (generateText host cfg) w = (inl e, appendTrace w [ESdk]).
Proof.
  intros Hkey Hn Hs Hr. unfold generateText, withRetry. rewrite Hkey.
  destruct (Z.to_nat (AI_RETRY_ATTEMPTS cfg)) as [|fuel] eqn:Ef; [lia|].
  rewrite withRetry_from_S.
  assert ((0 <? AI_RETRY_ATTEMPTS cfg) = true) as -> by (apply Z.ltb_lt; lia).
  rewrite run_bind, run_exec, Hs, Hr. cbn [negb]. rewrite orb_true_r. reflexivity.
Qed.

(** An SDK that answers HTTP 400. *)
Lemma withRetry_fails_fast_witness :
  run Cases.badRequest (generateText Samples.host Samples.cfg) (Samples.idle [])
  = (inl (ThrowError Cases.err400), appendTrace (Samples.idle []) [ESdk]).
Proof.
  apply (withRetry_fails_fast Samples.host Samples.cfg Cases.badRequest
           (Samples.idle []) (ThrowError Cases.err400)).
  - reflexivity.
  - simpl. lia.
  - reflexivity.
  - reflexivity.
Defined.

(** The loop when [m] retriable failures are followed by an answer. *)
Lemma withRetry_from_recovers host cfg env m :
  forall i last w res,
    (m < Z.to_nat (AI_RETRY_ATTEMPTS cfg - i))%nat ->
    (forall j, (j < m)%nat ->
       exists e, answer env w j = inl e /\ isRetriableError host e = true) ->
    answer env w m = inr res ->
    run env (withRetry_from host (Z.to_nat (AI_RETRY_ATTEMPTS cfg - i)) i
               (AI_RETRY_ATTEMPTS cfg) (AI_RETRY_BASE_MS cfg) (exec cfg) last) w
    = (inr (textResult cfg res),
       appendTrace w (retryEvents (S m) i (AI_RETRY_BASE_MS cfg))).
Proof.
  induction m as [|m IH]; intros i last w res Hm Hpre Hres.
  - destruct (Z.to_nat (AI_RETRY_ATTEMPTS cfg - i)) as [|fuel] eqn:Ef; [lia|].
    rewrite withRetry_from_S.
    assert ((i <? AI_RETRY_ATTEMPTS cfg) = true) as -> by (apply Z.ltb_lt; lia).
    rewrite run_bind, run_exec. unfold answer in Hres.
    replace (length (trace w) + 2 * 0)%nat with (length (trace w)) in Hres by lia.
    rewrite Hres. reflexivity.
  - destruct (Z.to_nat (AI_RETRY_ATTEMPTS cfg - i)) as [|fuel] eqn:Ef; [lia|].
    rewrite withRetry_from_S.
    assert ((i <? AI_RETRY_ATTEMPTS cfg) = true) as -> by (apply Z.ltb_lt; lia).
    rewrite run_bind, run_exec.
    destruct (Hpre 0%nat) as [e [He Hr]]; [lia|]. unfold answer in He.
    replace (length (trace w) + 2 * 0)%nat with (length (trace w)) in He by lia.
    rewrite He.
    assert ((i =? AI_RETRY_ATTEMPTS cfg - 1) = false) as -> by (apply Z.eqb_neq; lia).
    rewrite Hr. cbn [orb negb]. rewrite run_sleep_then.
    assert (fuel = Z.to_nat (AI_RETRY_ATTEMPTS cfg - (i + 1))) as -> by lia.
    rewrite appendTrace_app.
    rewrite (IH (i + 1) e _ res).
    + rewrite appendTrace_app. reflexivity.
    + lia.
    + intros j Hj. destruct (Hpre (S j)) as [e' He']; [lia|]. exists e'.
      rewrite answer_shift by reflexivity. exact He'.
    + rewrite answer_shift by reflexivity. exact Hres.
Qed.

(** X6 (withRetry, recovery).  When the first [m] calls of the SDK fail
    with retriable errors and the next one succeeds, with [m] below
    AI_RETRY_ATTEMPTS, generateText returns the text and the token count
    of that answer, with the configured model; it has called the SDK
    m + 1 times and slept AI_RETRY_BASE_MS * (2 ^ m - 1) in total. *)
Theorem generateText_recovers (host : Host) (cfg : Config) (env : Env) (w : World)
    (m : nat) (res : SdkResult) :
  GOOGLE_API_KEY cfg = true ->
  (m < Z.to_nat (AI_RETRY_ATTEMPTS cfg))%nat ->
  (forall j, (j < m)%nat ->
     exists e, answer env w j = inl e /\ isRetriableError host e = true) ->
  answer env w m = inr res ->
  run env (generateText host cfg) w
  = (inr (mkTextResult (sdk_text res) (sdk_tokens res) (GEMINI_MODEL cfg)),
     appendTrace w (retryEvents (S m) 0 (AI_RETRY_BASE_MS cfg)))
  /\ sdkCalls (retryEvents (S m) 0 (AI_RETRY_BASE_MS cfg)) = S m
  /\ totalMs (sleeps (retryEvents (S m) 0 (AI_RETRY_BASE_MS cfg)))
     = AI_RETRY_BASE_MS cfg * (2 ^ Z.of_nat m - 1).
Proof.
  intros Hkey Hm Hpre Hres. split; [|split].
  - unfold generateText, withRetry. rewrite Hkey.
    pose proof (withRetry_from_recovers host cfg env m 0 ThrowUndefined w res) as H.
    rewrite Z.sub_0_r in H. apply H; assumption.
  - apply sdkCalls_retryEvents.
  - rewrite sleeps_retryEvents_total by lia. rewrite Z.pow_0_r. ring.
Qed.

(** One 429, then an answer. *)
Lemma generateText_recovers_witness :
  run Cases.flaky (generateText Samples.host Samples.cfg) (Samples.idle [])
  = (inr (mkTextResult (lit "{}") 42 (GEMINI_MODEL Samples.cfg)),
     appendTrace (Samples.idle []) (retryEvents 2 0 (AI_RETRY_BASE_MS Samples.cfg)))
  /\ sdkCalls (retryEvents 2 0 (AI_RETRY_BASE_MS Samples.cfg)) = 2%nat
  /\ totalMs (sleeps (retryEvents 2 0 (AI_RETRY_BASE_MS Samples.cfg)))
     = AI_RETRY_BASE_MS Samples.cfg * (2 ^ Z.of_nat 1 - 1).
Proof.
  apply (generateText_recovers Samples.host Samples.cfg Cases.flaky (Samples.idle [])
           1 (mkSdkResult (lit "{}") 42)).
  - reflexivity.
  - simpl. lia.
  - intros j Hj. assert (j = 0%nat) as -> by lia.
    exists (ThrowError Samples.err429). split; reflexivity.
  - reflexivity.
Defined.

Lemma num_is_of_Z s z : num_is (of_Z s) z = true <-> s = z.
Proof.
  unfold num_is, of_Z. rewrite Qeq_bool_iff. split.
  - intros H. apply inject_Z_injective. exact H.
  - intros ->. reflexivity.
Qed.

Lemma num_geb_of_Z s z : num_geb (of_Z s) z = true <-> z <= s.
Proof.
  unfold num_geb, of_Z. rewrite Qle_bool_iff, <- Zle_Qle. reflexivity.
Qed.

Lemma truthy_of_Z s : s <> 0 -> truthy (JNum (of_Z s)) = true.
Proof.
  intros Hs. unfold truthy, num_truthy, of_Z. apply negb_true_iff.
  apply not_true_iff_false. rewrite Qeq_bool_iff. intros H.
  apply Hs. apply inject_Z_injective. exact H.
Qed.

(** X7 (isRetriableError).  For an error whose status is a number other
    than 0, code and statusCode are not looked at: the error is retriable
    exactly when its lower-cased message names a network failure
    (etimedout, econnreset, abort), or the status is 429, or it is 500 or
    more.  So a 4xx status other than 429 is retried only for its
    message. *)
Theorem retriable_by_status (host : Host) (e : JsError) (s : Z) :
  e_status e = JNum (of_Z s) -> s <> 0 ->
  let msg :=
    toLowerCase host
      match e_message e with
      | [] => error_toString e
      | m => m
      end in
  isRetriableError host (ThrowError e) = true
  <-> (includes msg (lit "etimedout") = true
       \/ includes msg (lit "econnreset") = true
       \/ includes msg (lit "abort") = true
       \/ s = 429 \/ 500 <= s).
Proof.
  intros Hst Hs msg. unfold isRetriableError. fold msg.
  rewrite Hst. unfold or_ at 1. rewrite (truthy_of_Z s Hs).
  destruct (includes msg (lit "etimedout")); [cbn [orb]; tauto|].
  destruct (includes msg (lit "econnreset")); [cbn [orb]; tauto|].
  destruct (includes msg (lit "abort")); [cbn [orb]; tauto|].
  cbn [orb]. rewrite orb_true_iff, num_is_of_Z, num_geb_of_Z.
  split; [tauto|]. intros [H|[H|[H|H]]]; try discriminate; tauto.
Qed.

(** HTTP 429. *)
Lemma retriable_by_status_witness :
  isRetriableError Samples.host (ThrowError Samples.err429) = true
  <-> (includes (toLowerCase Samples.host (lit "Too Many Requests")) (lit "etimedout") = true
       \/ includes (toLowerCase Samples.host (lit "Too Many Requests")) (lit "econnreset") = true
       \/ includes (toLowerCase Samples.host (lit "Too Many Requests")) (lit "abort") = true
       \/ 429 = 429 \/ 500 <= 429).
Proof.
  apply (retriable_by_status Samples.host Samples.err429 429).
  - reflexivity.
  - discriminate.
Defined.

(** ** providers/ai: parseJSONResponse *)

Lemma dropWhile_ws_app l s :
  allWhiteSpace l -> dropWhile isWhiteSpace (l ++ s) = dropWhile isWhiteSpace s.
Proof.
  unfold allWhiteSpace. induction 1 as [|c l Hc _ IH]; simpl; [reflexivity|].
  rewrite Hc. exact IH.
Qed.

Lemma length_dropWhile f s : (length (dropWhile f s) <= length s)%nat.
Proof.
  induction s as [|c s IH]; simpl; [lia|]. destruct (f c); simpl; lia.
Qed.

Lemma dropWhile_fixed f s : length (dropWhile f s) = length s -> dropWhile f s = s.
Proof.
  destruct s as [|c s]; simpl; [reflexivity|].
  destruct (f c); [|reflexivity].
  pose proof (length_dropWhile f s). lia.
Qed.

(** A text that [trim] leaves as it is neither starts nor ends with
    white space. *)
Lemma trim_fixed s :
  trim s = s ->
  dropWhile isWhiteSpace s = s /\ dropWhile isWhiteSpace (rev s) = rev s.
Proof.
  unfold trim. intros H.
  pose proof (length_dropWhile isWhiteSpace s) as H1.
  pose proof (length_dropWhile isWhiteSpace (rev (dropWhile isWhiteSpace s))) as H2.
  apply (f_equal (@length _)) in H as Hl. rewrite length_rev in Hl.
  rewrite length_rev in H2.
  assert (dropWhile isWhiteSpace s = s) as E by (apply dropWhile_fixed; lia).
  split; [exact E|]. rewrite E in H.
  rewrite <- H at 2. rewrite rev_involutive. reflexivity.
Qed.

Lemma fence_length f : map fold_case f = lit "```json" -> length f = 7%nat.
Proof. intros H. apply (f_equal (@length _)) in H. rewrite length_map in H. exact H. Qed.

Lemma fence_head f :
  map fold_case f = lit "```json" -> exists f', f = 96%N :: f'.
Proof.
  destruct f as [|c f']; [discriminate|]. simpl. intros H. injection H as Hc _.
  exists f'. f_equal. unfold fold_case in Hc.
  destruct ((65 <=? c) && (c <=? 90))%N eqn:E; [|exact Hc].
  apply andb_true_iff in E as [E1 E2]. apply N.leb_le in E1, E2. lia.
Qed.

(** The three steps of the cleaning on a fenced text. *)
Lemma cleanText_fence l f ws1 body ws2 r :
  allWhiteSpace l -> allWhiteSpace r -> allWhiteSpace ws1 -> allWhiteSpace ws2 ->
  map fold_case f = lit "```json" ->
  trim body = body ->
  cleanText (l ++ f ++ ws1 ++ body ++ ws2 ++ lit "```" ++ r) = body.
Proof.
  intros Hl Hr H1 H2 Hf Hb. apply trim_fixed in Hb as [Hb1 Hb2].
  destruct (fence_head f Hf) as [f' ->].
  pose proof (fence_length _ Hf) as Hlen.
  unfold cleanText.
  assert (trim (l ++ (96%N :: f') ++ ws1 ++ body ++ ws2 ++ lit "```" ++ r)
          = (96%N :: f') ++ ws1 ++ body ++ ws2 ++ lit "```") as ->.
  { unfold trim. rewrite dropWhile_ws_app by exact Hl.
    cbn [app dropWhile]. change (isWhiteSpace 96) with false. cbv iota.
    replace (96%N :: f' ++ ws1 ++ body ++ ws2 ++ lit "```" ++ r)
      with ((96%N :: f' ++ ws1 ++ body ++ ws2 ++ lit "```") ++ r)
      by (simpl; rewrite <- !app_assoc; reflexivity).
    rewrite rev_app_distr, dropWhile_ws_app by (apply Forall_rev_ws; exact Hr).
    replace (96%N :: f' ++ ws1 ++ body ++ ws2 ++ lit "```")
      with ((96%N :: f' ++ ws1 ++ body ++ ws2 ++ lit "``") ++ [96%N])
      by (simpl; rewrite <- !app_assoc; reflexivity).
    rewrite rev_unit. cbn [dropWhile].
    change (isWhiteSpace 96) with false. cbv iota.
    rewrite <- rev_unit. apply rev_involutive. }
  assert (stripOpeningFence ((96%N :: f') ++ ws1 ++ body ++ ws2 ++ lit "```")
          = dropWhile isWhiteSpace (body ++ ws2 ++ lit "```")) as ->.
  { unfold stripOpeningFence.
    rewrite take_app_length' by (symmetry; exact Hlen). rewrite Hf.
    change (isPrefix (lit "```json") (lit "```json")) with true. cbv iota.
    rewrite drop_app_length' by (symmetry; exact Hlen).
    apply dropWhile_ws_app; exact H1. }
  assert (exists ws, allWhiteSpace ws
                     /\ dropWhile isWhiteSpace (body ++ ws2 ++ lit "```")
                        = body ++ ws ++ lit "```") as [ws [Hws ->]].
  { destruct body as [|c body].
    - exists []. split; [constructor|]. simpl.
      rewrite dropWhile_ws_app by exact H2. reflexivity.
    - exists ws2. split; [exact H2|]. simpl in Hb1 |- *.
      destruct (isWhiteSpace c); [|reflexivity].
      pose proof (length_dropWhile isWhiteSpace body) as Hle.
      apply (f_equal (@length _)) in Hb1. simpl in Hb1. lia. }
  unfold stripClosingFence.
  assert (rev (body ++ ws ++ lit "```") = lit "```" ++ rev ws ++ rev body) as ->.
  { rewrite !rev_app_distr, <- app_assoc. reflexivity. }
  change (isPrefix (lit "```") (lit "```" ++ rev ws ++ rev body)) with true. cbv iota.
  change (drop 3 (lit "```" ++ rev ws ++ rev body)) with (rev ws ++ rev body).
  rewrite dropWhile_ws_app by (apply Forall_rev_ws; exact Hws).
  rewrite Hb2. apply rev_involutive.
Qed.

(** X8 (parseJSONResponse, code fences).  A response that wraps its JSON
    in a json code fence, the marker in any case, with white space around
    the fence and between the fence and the body, is cleaned to exactly
    the body, and parses to what JSON.parse gives for the body. *)
Theorem fenced_json_unwrapped (host : Host) (l f ws1 body ws2 r : jsstring)
    (d : JsVal) :
  allWhiteSpace l -> allWhiteSpace r -> allWhiteSpace ws1 -> allWhiteSpace ws2 ->
  map fold_case f = lit "```json" ->
  trim body = body ->
  JSON_parse host body = inr d ->
  cleanText (l ++ f ++ ws1 ++ body ++ ws2 ++ lit "```" ++ r) = body
  /\ parseJSONResponse host (l ++ f ++ ws1 ++ body ++ ws2 ++ lit "```" ++ r) = inr d.
Proof.
  intros Hl Hr H1 H2 Hf Hb Hd.
  pose proof (cleanText_fence l f ws1 body ws2 r Hl Hr H1 H2 Hf Hb) as Hc.
  split; [exact Hc|]. unfold parseJSONResponse. rewrite Hc, Hd. reflexivity.
Qed.

(** An empty object between an upper-case marker and a closing fence,
    on lines of their own. *)
Lemma fenced_json_unwrapped_witness :
  cleanText (lit " " ++ lit "```JSON" ++ [10%N] ++ lit "{}" ++ [10%N] ++ lit "```" ++ [10%N])
  = lit "{}"
  /\ parseJSONResponse Samples.host
       (lit " " ++ lit "```JSON" ++ [10%N] ++ lit "{}" ++ [10%N] ++ lit "```" ++ [10%N])
     = inr (JObj []).
Proof.
  apply (fenced_json_unwrapped Samples.host (lit " ") (lit "```JSON") [10%N] (lit "{}")
           [10%N] [10%N] (JObj [])); try reflexivity;
    repeat constructor.
Defined.

(** X9 (parseJSONResponse).  What parseJSONResponse returns is always
    what JSON.parse gives for a contiguous part of the provider text: the
    parser never returns data that the text does not contain. *)
Theorem parsed_data_is_in_text (host : Host) (text : jsstring) (d : JsVal) :
  parseJSONResponse host text = inr d ->
  exists pre m post, text = pre ++ m ++ post /\ JSON_parse host m = inr d.
Proof.
  unfold parseJSONResponse.
  destruct (JSON_parse host (cleanText text)) as [msg|d'] eqn:E1.
  - pose proof (jsonMatch_spec text) as Hm.
    destruct (jsonMatch text) as [m|]; [|discriminate].
    destruct (JSON_parse host m) as [msg2|d2] eqn:E2; [discriminate|].
    intros H; injection H as <-.
    destruct Hm as [pre [body [post (Ht & _)]]].
    exists pre, m, post. split; assumption.
  - intros H; injection H as <-.
    destruct (cleanText_spec text) as [l [pre [post [r (Ht & _)]]]].
    exists (l ++ pre), (cleanText text), (post ++ r).
    split; [|exact E1]. rewrite <- !app_assoc. exact Ht.
Qed.

(** An object after some prose. *)
Lemma parsed_data_is_in_text_witness :
  exists pre m post,
    lit "Here is the result: {}" = pre ++ m ++ post
    /\ JSON_parse Samples.host m = inr (JObj []).
Proof.
  apply (parsed_data_is_in_text Samples.host (lit "Here is the result: {}") (JObj [])).
  reflexivity.
Defined.

(** ** providers/ai: field normalisation and text measures *)

(** X10 (generateKeywords, normalisation).  The result has one entry for
    each item of the response's keywords array (none when the response
    has no such array), and each entry has exactly the fields keyword,
    volume, difficulty and source, in this order: source is truthy,
    volume and difficulty are truthy or null (a 0 or a missing value
    becomes null), and keyword is truthy unless the item is the empty
    string.  The topic is the response's when that is truthy, and the
    seed otherwise. *)
Theorem keywordsResult_entries (seed data : JsVal) :
  exists entries,
    get (keywordsResult seed data) "keywords" = JArr entries
    /\ length entries = length (keywordsArray data)
    /\ List.Forall
         (fun e =>
            exists kw vol dif src,
              e = JObj [ (lit "keyword", kw); (lit "volume", vol);
                         (lit "difficulty", dif); (lit "source", src) ]
              /\ (truthy kw = true \/ kw = JStr [])
              /\ (truthy vol = true \/ vol = JNull)
              /\ (truthy dif = true \/ dif = JNull)
              /\ truthy src = true)
         entries
    /\ get (keywordsResult seed data) "topic"
       = (if truthy (get data "topic") then get data "topic" else seed).
Proof.
  exists (imap keywordEntry (keywordsArray data)).
  split; [reflexivity|]. split; [apply length_imap|]. split.
  - generalize (keywordsArray data). intros ks.
    assert (forall (f : nat -> nat) l,
              List.Forall
                (fun e =>
                   exists kw vol dif src,
                     e = JObj [ (lit "keyword", kw); (lit "volume", vol);
                                (lit "difficulty", dif); (lit "source", src) ]
                     /\ (truthy kw = true \/ kw = JStr [])
                     /\ (truthy vol = true \/ vol = JNull)
                     /\ (truthy dif = true \/ dif = JNull)
                     /\ truthy src = true)
                (imap (fun i => keywordEntry (f i)) l)) as H.
    { intros f l; revert f; induction l as [|k l IH]; intros f; [constructor|].
      cbn [imap]. constructor; [|apply (IH (fun i => f (S i)))].
      assert (forall v d, truthy d = true -> truthy (or_ v d) = true) as Hor.
      { intros v d Hd. unfold or_. destruct (truthy v) eqn:E; [exact E|exact Hd]. }
      assert (forall v, truthy (or_ v JNull) = true \/ or_ v JNull = JNull) as Hnull.
      { intros v. unfold or_. destruct (truthy v) eqn:E; [left; exact E|right; reflexivity]. }
      assert (forall s, truthy (JStr s) = true \/ JStr s = JStr []) as Hstr.
      { intros s. destruct s; [right; reflexivity|left; reflexivity]. }
      destruct k as [| |b|n|s|items|fields]; unfold keywordEntry;
        do 4 eexists; (split; [reflexivity|]);
        (split; [first [apply Hstr | left; do 2 apply Hor; reflexivity]|]);
        (split; [first [apply Hnull | right; reflexivity]|]);
        (split; [first [apply Hnull | right; reflexivity]|]);
        first [apply Hor; reflexivity | reflexivity]. }
    apply (H (fun i => i) ks).
  - reflexivity.
Qed.

(** Collapsing and trimming change no word. *)
Lemma words_collapse t :
  words false (collapseFrom true t) = words false t
  /\ forall b, words b (collapseFrom false t) = words b t.
Proof.
  induction t as [|c t [IH1 IH2]]; [split; reflexivity|].
  split.
  - cbn [collapseFrom words]. destruct (isWhiteSpace c) eqn:E.
    + exact IH1.
    + cbn [words]. rewrite E. rewrite IH2. reflexivity.
  - intros b. cbn [collapseFrom words]. destruct (isWhiteSpace c) eqn:E.
    + cbn [words]. change (isWhiteSpace 32) with true. cbv iota. exact IH1.
    + cbn [words]. rewrite E. rewrite !IH2. reflexivity.
Qed.

Lemma words_all_ws b w : allWhiteSpace w -> words b w = 0%nat.
Proof.
  unfold allWhiteSpace. intros H; revert b.
  induction H as [|c w Hc _ IH]; intros b; simpl; [reflexivity|].
  rewrite Hc. apply IH.
Qed.

Lemma words_app_ws b x w : allWhiteSpace w -> words b (x ++ w) = words b x.
Proof.
  intros Hw. revert b; induction x as [|c x IH]; intros b; simpl.
  - apply words_all_ws; exact Hw.
  - destruct (isWhiteSpace c); [apply IH|]. destruct b; rewrite IH; reflexivity.
Qed.

Lemma words_ws_app w x : allWhiteSpace w -> words false (w ++ x) = words false x.
Proof.
  unfold allWhiteSpace. induction 1 as [|c w Hc _ IH]; simpl; [reflexivity|].
  rewrite Hc. exact IH.
Qed.

Lemma words_trim s : words false (trim s) = words false s.
Proof.
  destruct (trim_spec s) as [l [r (Hs & Hl & Hr)]].
  rewrite Hs at 2. rewrite words_ws_app by exact Hl.
  rewrite words_app_ws by exact Hr. reflexivity.
Qed.

Lemma endsInSpace_snoc x c : endsInSpace (x ++ [c]) = isWhiteSpace c.
Proof.
  induction x as [|d x IH]; [reflexivity|].
  cbn [app endsInSpace]. destruct (x ++ [c]) eqn:E; [destruct x; discriminate|].
  exact IH.
Qed.

Lemma trim_ends s :
  endsInSpace (trim s) = false
  /\ match trim s with [] => True | c :: _ => isWhiteSpace c = false end.
Proof.
  unfold trim.
  destruct (dropWhile_split isWhiteSpace s) as [l (H1 & H2 & H3)].
  set (y := dropWhile isWhiteSpace s) in *.
  destruct (dropWhile_split isWhiteSpace (rev y)) as [r (H4 & H5 & H6)].
  set (z := dropWhile isWhiteSpace (rev y)) in *.
  split.
  - destruct z as [|c z']; [reflexivity|].
    cbn [rev]. rewrite endsInSpace_snoc. exact H6.
  - assert (y = rev z ++ rev r) as Hy.
    { rewrite <- rev_app_distr, <- H4, rev_involutive. reflexivity. }
    destruct (rev z) as [|c z'] eqn:Ez; [exact I|].
    rewrite Hy in H3. exact H3.
Qed.

(** In a text that does not end in white space every run of white
    space is followed by a word. *)
Lemma runs_words s :
  endsInSpace s = false ->
  whiteSpaceRuns false s = words true s
  /\ (s <> [] -> words false s = S (whiteSpaceRuns true s)).
Proof.
  induction s as [|c s IH]; intros He; [split; [reflexivity|congruence]|].
  assert (s <> [] -> endsInSpace s = false) as Hs.
  { intros Hne. destruct s; [congruence|exact He]. }
  cbn [whiteSpaceRuns words]. destruct (isWhiteSpace c) eqn:E.
  - assert (s <> []) as Hne by (intros ->; simpl in He; congruence).
    destruct (IH (Hs Hne)) as [_ IHb]. specialize (IHb Hne).
    split; [congruence|intros _; exact IHb].
  - destruct s as [|d s'].
    + split; [reflexivity|intros _; reflexivity].
    + destruct (IH (Hs ltac:(discriminate))) as [IHa _].
      split; [exact IHa|intros _; rewrite IHa; reflexivity].
Qed.

Lemma splitLength_trimmed s :
  endsInSpace s = false ->
  match s with [] => True | c :: _ => isWhiteSpace c = false end ->
  splitLength s = Nat.max 1 (words false s).
Proof.
  intros He Hh. unfold splitLength. destruct s as [|c s]; [reflexivity|].
  destruct (runs_words (c :: s) He) as [Ha _].
  cbn [whiteSpaceRuns words] in *. rewrite Hh in *. rewrite Ha. lia.
Qed.

(** X11 (generateSEOReview, wordCount).  The word count computed from
    the content (tags replaced by spaces, white space collapsed, trimmed,
    split at white space) is the number of words of the content without
    its tags, except that a content without any word counts 1, not 0.
    The text it is computed from neither starts nor ends with white
    space. *)
Theorem wordCount_counts_words (content : jsstring) :
  wordCount content = Nat.max 1 (words false (replaceTags (lit " ") content))
  /\ endsInSpace (textContent content) = false
  /\ match textContent content with
     | [] => wordCount content = 1%nat
     | c :: _ => isWhiteSpace c = false
     end.
Proof.
  destruct (trim_ends (collapseWhiteSpace (replaceTags (lit " ") content)))
    as [He Hh].
  fold (textContent content) in He, Hh.
  split; [|split; [exact He|]].
  - unfold wordCount. rewrite (splitLength_trimmed _ He Hh).
    unfold textContent. rewrite words_trim.
    unfold collapseWhiteSpace.
    destruct (words_collapse (replaceTags (lit " ") content)) as [_ H].
    rewrite H. reflexivity.
  - unfold wordCount. destruct (textContent content); [reflexivity|exact Hh].
Qed.

Lemma hasTag_app_plain sub x :
  existsb (N.eqb lessThan) sub = false -> hasTag x = false -> hasTag (sub ++ x) = false.
Proof.
  intros Hs Hx. induction sub as [|c sub IH]; [exact Hx|].
  cbn [existsb] in Hs. apply orb_false_iff in Hs as [Hc Hs].
  cbn [app hasTag]. rewrite N.eqb_sym, Hc, (IH Hs). reflexivity.
Qed.

(** The output of the replacement has a ">" only where the input has
    one, and no "<" of it is followed by a ">". *)
Lemma replaceTagsFrom_spec sub s :
  existsb (N.eqb lessThan) sub = false ->
  existsb (N.eqb greaterThan) sub = false ->
  (forall b, existsb (N.eqb greaterThan) (replaceTagsFrom sub b s) = true ->
             existsb (N.eqb greaterThan) s = true)
  /\ hasTag (replaceTagsFrom sub false s) = false
  /\ (existsb (N.eqb greaterThan) s = true ->
      hasTag (replaceTagsFrom sub true s) = false).
Proof.
  intros Hl Hg. induction s as [|c s (IH1 & IH2 & IH3)].
  - repeat split; try reflexivity; intros; try discriminate.
  - split; [|split].
    + intros b. cbn [replaceTagsFrom existsb]. destruct b.
      * destruct (N.eqb c greaterThan) eqn:E.
        -- intros _. rewrite N.eqb_sym, E. reflexivity.
        -- intros H. rewrite (IH1 true H). apply orb_true_r.
      * destruct (N.eqb c lessThan && existsb (N.eqb greaterThan) s) eqn:E.
        -- intros H. rewrite (IH1 true H). apply orb_true_r.
        -- cbn [existsb]. intros H. apply orb_true_iff in H as [H|H].
           ++ rewrite H. reflexivity.
           ++ rewrite (IH1 false H). apply orb_true_r.
    + cbn [replaceTagsFrom].
      destruct (N.eqb c lessThan && existsb (N.eqb greaterThan) s) eqn:E.
      * apply andb_true_iff in E as [_ E]. apply IH3; exact E.
      * cbn [hasTag]. rewrite IH2, orb_false_r.
        destruct (N.eqb c lessThan); [|reflexivity]. cbn [andb] in *.
        destruct (existsb (N.eqb greaterThan) (replaceTagsFrom sub false s)) eqn:G;
          [|reflexivity].
        rewrite (IH1 false G) in E. discriminate.
    + cbn [replaceTagsFrom existsb]. intros H.
      destruct (N.eqb c greaterThan) eqn:E.
      * apply hasTag_app_plain; assumption.
      * rewrite N.eqb_sym, E in H. apply IH3. exact H.
Qed.

Lemma replaceTagsFrom_plain sub s :
  hasTag s = false -> replaceTagsFrom sub false s = s.
Proof.
  induction s as [|c s IH]; [reflexivity|].
  cbn [hasTag replaceTagsFrom]. intros H. apply orb_false_iff in H as [H1 H2].
  rewrite H1, (IH H2). reflexivity.
Qed.

(** X12 (generateSEOReview, tag removal).  After the replacement of
    /<[^>]*>/g by a space no "<" of the text is followed by a ">"; a text
    without such a pair is left as it is, so that replacing twice is
    replacing once. *)
Theorem replaceTags_removes_every_tag (content : jsstring) :
  hasTag (replaceTags (lit " ") content) = false
  /\ replaceTags (lit " ") (replaceTags (lit " ") content)
     = replaceTags (lit " ") content
  /\ (hasTag content = false -> replaceTags (lit " ") content = content).
Proof.
  destruct (replaceTagsFrom_spec (lit " ") content eq_refl eq_refl) as (_ & H & _).
  split; [exact H|]. split.
  - apply replaceTagsFrom_plain. exact H.
  - apply replaceTagsFrom_plain.
Qed.

(** ** workers/jobs-runner.js: what a tick changes *)

Lemma handle_keeps_submitted env R (op : Op R) w :
  map submitted (store (snd (handle env op w))) = map submitted (store w).
Proof.
  destruct op; simpl; try reflexivity.
  - destruct (fault env _); simpl; [reflexivity|].
    unfold findOneAndUpdate. destruct (oldest _) as [j0|]; simpl; [|reflexivity].
    unfold replace_doc. rewrite map_map. apply map_ext. intros x.
    destruct (N.eqb (_id x) (_id j0)); reflexivity.
  - destruct (fault env _); simpl; [reflexivity|].
    unfold updateOne, replace_doc. rewrite map_map. apply map_ext. intros x.
    destruct (N.eqb (_id x) id); reflexivity.
Qed.

Lemma run_keeps_submitted env A (p : Prog A) w :
  map submitted (store (snd (run env p w))) = map submitted (store w).
Proof.
  revert w; induction p as [a|R op k IH]; simpl; intros w; [reflexivity|].
  pose proof (handle_keeps_submitted env R op w) as H.
  destruct (handle env op w) as [r w']. simpl in H. rewrite IH. exact H.
Qed.

(** X13 (processOne, frame).  Under every environment a tick neither
    adds nor removes a document, and it leaves the identifier, the
    owner, the type, the payload and the creation time of every job as
    they were submitted. *)
Theorem tick_keeps_submitted (host : Host) (cfg : Config) (env : Env) (w : World) :
  map submitted (store (snd (run env (processOne host cfg) w)))
  = map submitted (store w)
  /\ length (store (snd (run env (processOne host cfg) w))) = length (store w).
Proof.
  pose proof (run_keeps_submitted env unit (processOne host cfg) w) as H.
  split; [exact H|]. apply (f_equal (@length _)) in H. rewrite !length_map in H. exact H.
Qed.

Section OnlyClaimed.
Context (host : Host) (cfg : Config).

Lemma quiet_writesOnly A id (p : Prog A) b :
  quiet p -> safe (writesOnly id) (fun _ _ => True) b p.
Proof.
  intros Hq. apply Hq; [|intros; exact I].
  intros R op Hop; destruct op; simpl in *; try contradiction; exact I.
Qed.

Lemma writesOnly_bind A B id (p : Prog A) (f : A -> Prog B) b :
  (forall b, safe (writesOnly id) (fun _ _ => True) b p) ->
  (forall a b, safe (writesOnly id) (fun _ _ => True) b (f a)) ->
  safe (writesOnly id) (fun _ _ => True) b (bind p f).
Proof.
  intros Hp Hf. apply safe_bind.
  eapply safe_mono; [| |apply Hp]; [auto|]. simpl. intros a b' _. apply Hf.
Qed.

Lemma writesOnly_attemptOnce job a b :
  safe (writesOnly (_id job)) (fun _ _ => True) b (attemptOnce host cfg job a).
Proof.
  unfold attemptOnce, bindE. apply writesOnly_bind.
  - intros b'. apply quiet_writesOnly, quiet_dispatch.
  - intros [e|r] b'; simpl; [exact I|]. split; [reflexivity|]. intros; exact I.
Qed.

Lemma writesOnly_retryLoop fuel job a last b :
  safe (writesOnly (_id job)) (fun _ _ => True) b (retryLoop host cfg fuel job a last).
Proof.
  revert a last b; induction fuel as [|fuel IH]; intros a last b; cbn [retryLoop].
  - exact I.
  - destruct (a <? maxAttempts cfg); [|exact I].
    apply writesOnly_bind; [intros; apply writesOnly_attemptOnce|].
    intros [[|e]|[]] b'; simpl; try exact I.
    split; [exact I|]. intros _ _. apply IH.
Qed.

Lemma writesOnly_processClaimed job b :
  safe (writesOnly (_id job)) (fun _ _ => True) b (processClaimed host cfg job).
Proof.
  unfold processClaimed, bindE. apply writesOnly_bind; [intros; apply writesOnly_retryLoop|].
  intros [e|[e|]] b'; simpl; try exact I.
  split; [reflexivity|]. intros; exact I.
Qed.

Lemma writesOnly_afterClaim job b :
  safe (writesOnly (_id job)) (fun _ _ => True) b (afterClaim host cfg job).
Proof.
  unfold afterClaim. apply writesOnly_bind; [intros; apply writesOnly_processClaimed|].
  intros [e|[]] b'; simpl; auto.
Qed.

(** A tick that finds the flag clear, by the outcome of its claim. *)
Lemma processOne_unclaimed env st tr :
  run env (processOne host cfg) (mkWorld st false tr)
  = match fault env (length tr) with
    | Some e => (tt, mkWorld st false (tr ++ [EClaimRejected (INSTANCE_ID cfg)]))
    | None =>
        match findOneAndUpdate (INSTANCE_ID cfg) (clock env (length tr)) st with
        | (None, _) => (tt, mkWorld st false (tr ++ [EClaim (INSTANCE_ID cfg) None]))
        | (Some job, st1) =>
            run env (afterClaim host cfg job)
              (mkWorld st1 true (tr ++ [EClaim (INSTANCE_ID cfg) (Some (_id job))]))
        end
    end.
Proof.
  destruct (fault env (length tr)) as [e|] eqn:Ef.
  - unfold processOne. rewrite run_getBusy_then. cbn [busy].
    rewrite run_setBusy_then. rewrite run_bind.
    unfold claimAndProcess. rewrite run_now_then. cbn [trace store].
    simpl. rewrite Ef. reflexivity.
  - pose proof (claim_spec (INSTANCE_ID cfg) (clock env (length tr)) st) as Hs.
    destruct (findOneAndUpdate (INSTANCE_ID cfg) (clock env (length tr)) st)
      as [[job|] st1] eqn:Ec.
    + apply processOne_claimed; assumption.
    + destruct Hs as [-> _].
      unfold processOne. rewrite run_getBusy_then. cbn [busy].
      rewrite run_setBusy_then. rewrite run_bind.
      unfold claimAndProcess. rewrite run_now_then. cbn [trace store].
      rewrite run_claim_then by exact Ef. cbn [store busy trace].
      rewrite Ec. reflexivity.
Qed.

Lemma handle_keeps_others env id x R (op : Op R) w :
  _id x <> id ->
  findById (store w) (_id x) = Some x ->
  writesOnly id (busy w) R op ->
  findById (store (snd (handle env op w))) (_id x) = Some x.
Proof.
  intros Hne Hx Hop. destruct op; simpl in *; auto; try contradiction.
  destruct (fault env _); simpl; [exact Hx|]. subst id0.
  unfold updateOne. rewrite findById_replace_other; auto.
Qed.

Lemma afterClaim_keeps_others env job x w :
  _id x <> _id job ->
  findById (store w) (_id x) = Some x ->
  findById (store (snd (run env (afterClaim host cfg job) w))) (_id x) = Some x.
Proof.
  intros Hne Hx.
  destruct (run_safe env (fun w => findById (store w) (_id x) = Some x)
              unit (writesOnly (_id job)) (fun _ _ => True) (afterClaim host cfg job) w)
    as [Hr _].
  - intros R op w' Hw Hop. eapply handle_keeps_others; eauto.
  - exact Hx.
  - apply writesOnly_afterClaim.
  - exact Hr.
Qed.

End OnlyClaimed.

Section TickFacts.
Context (host : Host) (cfg : Config) (env : Env).

(** A tick writes to no job but the one its claim returns. *)
Lemma tick_keeps_others st b tr x :
  List.NoDup (map _id st) -> In x st ->
  (forall j st1,
      findOneAndUpdate (INSTANCE_ID cfg) (clock env (length tr)) st = (Some j, st1) ->
      _id x <> _id j) ->
  findById (store (snd (run env (processOne host cfg) (mkWorld st b tr)))) (_id x)
  = Some x.
Proof.
  intros Hnd Hin Hne. pose proof (findById_unique st x Hnd Hin) as Hx.
  destruct b; [rewrite run_busy_skips; exact Hx|].
  rewrite processOne_unclaimed.
  destruct (fault env (length tr)); [exact Hx|].
  pose proof (claim_spec (INSTANCE_ID cfg) (clock env (length tr)) st) as Hs.
  destruct (findOneAndUpdate (INSTANCE_ID cfg) (clock env (length tr)) st)
    as [[job|] st1]; [|exact Hx].
  specialize (Hne job st1 eq_refl).
  destruct Hs as [j0 (Hin0 & Hc & -> & _ & ->)].
  apply afterClaim_keeps_others; [exact Hne|]. simpl.
  rewrite findById_replace_other; auto.
Qed.

(** The provider's operations leave the store and the flag alone. *)
Lemma quiet_keeps_store A (p : Prog A) w :
  quiet p -> store (snd (run env p w)) = store w /\ busy (snd (run env p w)) = busy w.
Proof.
  intros Hq.
  destruct (run_safe env (fun w' => store w' = store w /\ busy w' = busy w) A
              (fun _ R op => quietOp op) (fun _ _ => True) p w) as [Hr _].
  - intros R op w' [H1 H2] Hop. destruct op; simpl in *; try contradiction; auto.
  - auto.
  - apply Hq; auto.
  - exact Hr.
Qed.

End TickFacts.

Section AfterClaim.
Context (host : Host) (cfg : Config) (env : Env).

(** After the claim, when the first attempt returns. *)
Lemma afterClaim_success job r w1 w2 :
  attempt job < maxAttempts cfg ->
  run env (dispatch host cfg job) w1 = (inr r, w2) ->
  fault env (length (trace w2)) = None ->
  run env (afterClaim host cfg job) w1
  = (tt,
     mkWorld (updateOne (_id job) (successUpdate r (attempt job))
                (clock env (length (trace w2))) (store w2))
       false (trace w2 ++ [EUpdate (_id job) (successUpdate r (attempt job))])).
Proof.
  intros Hlt Hd Hf. unfold afterClaim, processClaimed, bindE.
  rewrite !run_bind.
  destruct (Z.to_nat (maxAttempts cfg - attempt job)) as [|fuel] eqn:Efuel; [lia|].
  rewrite retryLoop_S.
  assert ((attempt job <? maxAttempts cfg) = true) as -> by (apply Z.ltb_lt; lia).
  rewrite run_bind. unfold attemptOnce, bindE. rewrite run_bind, Hd.
  rewrite run_update by exact Hf. reflexivity.
Qed.

(** After the claim, when the block throws: the outer catch. *)
Lemma afterClaim_uncaught job err w1 w2 :
  run env (processClaimed host cfg job) w1 = (inl err, w2) ->
  fault env (length (trace w2)) = None ->
  run env (afterClaim host cfg job) w1
  = (tt,
     mkWorld (updateOne (_id job) (uncaughtUpdate cfg err)
                (clock env (length (trace w2))) (store w2))
       false (trace w2 ++ [EUpdate (_id job) (uncaughtUpdate cfg err)])).
Proof.
  intros Hp Hf. unfold afterClaim. rewrite run_bind, Hp.
  cbn [markUncaught]. rewrite !run_bind.
  rewrite run_update by exact Hf. reflexivity.
Qed.

End AfterClaim.

(** X14 (processOne, nothing to do).  When the store rejects the claim,
    or no document passes the filter, the tick leaves the store as it
    is, issues no other operation, and ends with the busy flag clear. *)
Theorem tick_without_claim (host : Host) (cfg : Config) (env : Env)
    (st : Store) (tr : list Event) :
  (exists e, fault env (length tr) = Some e)
  \/ List.filter (claimable (INSTANCE_ID cfg)) st = [] ->
  exists ev,
    run env (processOne host cfg) (mkWorld st false tr)
    = (tt, mkWorld st false (tr ++ [ev]))
    /\ (ev = EClaimRejected (INSTANCE_ID cfg) \/ ev = EClaim (INSTANCE_ID cfg) None).
Proof.
  intros H. rewrite processOne_unclaimed.
  destruct (fault env (length tr)) as [e|] eqn:Ef.
  - eexists. split; [reflexivity|left; reflexivity].
  - destruct H as [[e He]|H]; [discriminate He|].
    unfold findOneAndUpdate. rewrite H. simpl.
    eexists. split; [reflexivity|right; reflexivity].
Qed.

(** A store whose only job is settled. *)
Lemma tick_without_claim_witness :
  exists ev,
    run Samples.rateLimited (processOne Samples.host Samples.cfg)
      (mkWorld [Samples.doneJob] false [])
    = (tt, mkWorld [Samples.doneJob] false ([] ++ [ev]))
    /\ (ev = EClaimRejected (INSTANCE_ID Samples.cfg)
        \/ ev = EClaim (INSTANCE_ID Samples.cfg) None).
Proof.
  apply (tick_without_claim Samples.host Samples.cfg Samples.rateLimited
           [Samples.doneJob] []).
  right. reflexivity.
Defined.

(** X15 (processOne, one job per tick).  On a store with unique
    identifiers a tick leaves every job but the one it claims exactly as
    it is, under every environment: in particular every job that does
    not pass the filter of this instance, so a job that is RUNNING (left
    behind by a worker that stopped), SUCCEEDED or FAILED is never taken
    up or written again. *)
Theorem tick_changes_only_claimed (host : Host) (cfg : Config) (env : Env)
    (st : Store) (b : bool) (tr : list Event) (x : Job) :
  List.NoDup (map _id st) -> In x st ->
  claimable (INSTANCE_ID cfg) x = false
  \/ (forall j st1,
        findOneAndUpdate (INSTANCE_ID cfg) (clock env (length tr)) st = (Some j, st1) ->
        _id x <> _id j) ->
  findById (store (snd (run env (processOne host cfg) (mkWorld st b tr)))) (_id x)
  = Some x.
Proof.
  intros Hnd Hin Hx. apply tick_keeps_others; try assumption.
  destruct Hx as [Hx|Hx]; [|exact Hx].
  intros j st1 Hclaim E.
  pose proof (claim_spec (INSTANCE_ID cfg) (clock env (length tr)) st) as Hs.
  rewrite Hclaim in Hs. destruct Hs as [j0 (Hin0 & Hc & -> & _ & _)].
  simpl in E.
  pose proof (findById_unique st x Hnd Hin) as H1.
  pose proof (findById_unique st j0 Hnd Hin0) as H2.
  rewrite E in H1. assert (x = j0) as -> by congruence.
  congruence.
Qed.

(** A pending job beside a settled one. *)
Lemma tick_changes_only_claimed_witness :
  findById
    (store (snd (run Cases.answering (processOne Samples.host Samples.cfg)
                   (mkWorld [Samples.keywordsJob; Samples.doneJob] false []))))
    (_id Samples.doneJob)
  = Some Samples.doneJob.
Proof.
  apply (tick_changes_only_claimed Samples.host Samples.cfg Cases.answering
           [Samples.keywordsJob; Samples.doneJob] false [] Samples.doneJob).
  - repeat constructor; simpl; intuition discriminate.
  - simpl. auto.
  - left. reflexivity.
Defined.

(** X16 (processOne, no attempt left).  A job that is claimed with
    attempt >= JOB_MAX_ATTEMPTS is not processed: the loop does not run,
    nothing is written after the claim, and the job stays RUNNING, so no
    later claim of any instance returns it. *)
Theorem tick_leaves_spent_job_running (host : Host) (cfg : Config) (env : Env)
    (st st1 : Store) (tr : list Event) (job : Job) :
  fault env (length tr) = None ->
  findOneAndUpdate (INSTANCE_ID cfg) (clock env (length tr)) st = (Some job, st1) ->
  JOB_MAX_ATTEMPTS cfg <= attempt job ->
  run env (processOne host cfg) (mkWorld st false tr)
  = (tt, mkWorld st1 false (tr ++ [EClaim (INSTANCE_ID cfg) (Some (_id job))]))
  /\ status job = RUNNING
  /\ List.Forall
       (fun x => _id x = _id job ->
                 status x = RUNNING /\ forall inst, claimable inst x = false)
       st1.
Proof.
  intros Hf Hclaim Hmax.
  pose proof (claim_spec (INSTANCE_ID cfg) (clock env (length tr)) st) as Hs.
  rewrite Hclaim in Hs. destruct Hs as [j0 (Hin0 & Hc & Hj & _ & Hst)].
  split; [|split].
  - rewrite (processOne_claimed host cfg env st tr job st1 Hf Hclaim).
    unfold afterClaim, processClaimed, bindE. rewrite !run_bind.
    replace (Z.to_nat (maxAttempts cfg - attempt job)) with 0%nat
      by (unfold maxAttempts; lia).
    reflexivity.
  - rewrite Hj. reflexivity.
  - apply List.Forall_forall. intros x Hx Hid. rewrite Hst in Hx.
    apply replace_doc_In in Hx as [[_ Hne]|[x0 (_ & _ & ->)]].
    + rewrite Hj in Hid. simpl in Hid. contradiction.
    + split; [reflexivity|]. intros inst. apply set_claimed_not_claimable.
Qed.

(** A PENDING job with attempt = 3 under the default maximum. *)
Lemma tick_leaves_spent_job_running_witness :
  run Cases.answering (processOne Samples.host Samples.cfg)
    (mkWorld [Cases.spentJob] false [])
  = (tt,
     mkWorld [Cases.claimedSpent] false
       ([] ++ [EClaim (INSTANCE_ID Samples.cfg) (Some (_id Cases.claimedSpent))]))
  /\ status Cases.claimedSpent = RUNNING
  /\ List.Forall
       (fun x => _id x = _id Cases.claimedSpent ->
                 status x = RUNNING /\ forall inst, claimable inst x = false)
       [Cases.claimedSpent].
Proof.
  apply (tick_leaves_spent_job_running Samples.host Samples.cfg Cases.answering
           [Cases.spentJob] [Cases.claimedSpent] [] Cases.claimedSpent).
  - reflexivity.
  - reflexivity.
  - simpl. lia.
Defined.

(** ** workers/jobs-runner.js: the outcomes of a tick *)

(** X17 (processOne, success).  When the typed operation of the first
    attempt returns, the only write of the tick marks the job SUCCEEDED
    with the result and the model returned, attempt = the previous
    attempt + 1 and tokensUsed increased by the tokens returned; error,
    payload and claim are left as they were, and the runner does not
    sleep. *)
Theorem tick_success (host : Host) (cfg : Config) (env : Env)
    (st st1 : Store) (tr : list Event) (job : Job) (r : GenResult) (w2 : World) :
  List.NoDup (map _id st) ->
  fault env (length tr) = None ->
  findOneAndUpdate (INSTANCE_ID cfg) (clock env (length tr)) st = (Some job, st1) ->
  attempt job < JOB_MAX_ATTEMPTS cfg ->
  run env (dispatch host cfg job)
    (mkWorld st1 true (tr ++ [EClaim (INSTANCE_ID cfg) (Some (_id job))]))
  = (inr r, w2) ->
  fault env (length (trace w2)) = None ->
  exists t,
    run env (processOne host cfg) (mkWorld st false tr)
    = (tt,
       mkWorld (updateOne (_id job) (successUpdate r (attempt job)) t st1) false
         (trace w2 ++ [EUpdate (_id job) (successUpdate r (attempt job))]))
    /\ findById (updateOne (_id job) (successUpdate r (attempt job)) t st1) (_id job)
       = Some {| _id := _id job; userId := userId job; type := type job;
                 status := SUCCEEDED; payload := payload job;
                 result := g_result r; error := error job;
                 model := Some (g_model r);
                 tokensUsed := tokensUsed job + g_tokensUsed r;
                 attempt := attempt job + 1;
                 claimedBy := Some (INSTANCE_ID cfg); claimedAt := claimedAt job;
                 createdAt := createdAt job; updatedAt := t |}.
Proof.
  intros Hnd Hf Hclaim Hlt Hd Hf2.
  exists (clock env (length (trace w2))).
  pose proof (quiet_keeps_store env _ (dispatch host cfg job)
                (mkWorld st1 true (tr ++ [EClaim (INSTANCE_ID cfg) (Some (_id job))]))
                (quiet_dispatch host cfg job)) as [Hst _].
  rewrite Hd in Hst. simpl in Hst.
  split.
  - rewrite (processOne_claimed host cfg env st tr job st1 Hf Hclaim).
    rewrite (afterClaim_success host cfg env job r _ w2 Hlt Hd Hf2).
    rewrite Hst. reflexivity.
  - pose proof (claim_spec (INSTANCE_ID cfg) (clock env (length tr)) st) as Hs.
    rewrite Hclaim in Hs. destruct Hs as [j0 (Hin0 & Hc & -> & _ & ->)].
    unfold updateOne. simpl _id.
    rewrite (findById_replace_same (_id j0) _ _
               (set_claimed (INSTANCE_ID cfg) (clock env (length tr)) j0));
      [reflexivity|reflexivity|].
    apply findById_replace_same; [reflexivity|].
    apply findById_unique; assumption.
Qed.

(** A KEYWORDS job and an SDK that answers at once. *)
Lemma tick_success_witness :
  exists t,
    run Cases.answering (processOne Samples.host Samples.cfg)
      (mkWorld [Samples.keywordsJob] false [])
    = (tt,
       mkWorld (updateOne (_id Samples.claimedKeywords)
                  (successUpdate Cases.keywordsAnswer (attempt Samples.claimedKeywords))
                  t [Samples.claimedKeywords])
         false
         (trace Cases.afterAnswer
          ++ [EUpdate (_id Samples.claimedKeywords)
                (successUpdate Cases.keywordsAnswer (attempt Samples.claimedKeywords))]))
    /\ findById
         (updateOne (_id Samples.claimedKeywords)
            (successUpdate Cases.keywordsAnswer (attempt Samples.claimedKeywords))
            t [Samples.claimedKeywords])
         (_id Samples.claimedKeywords)
       = Some {| _id := _id Samples.claimedKeywords;
                 userId := userId Samples.claimedKeywords;
                 type := type Samples.claimedKeywords;
                 status := SUCCEEDED;
                 payload := payload Samples.claimedKeywords;
                 result := g_result Cases.keywordsAnswer;
                 error := error Samples.claimedKeywords;
                 model := Some (g_model Cases.keywordsAnswer);
                 tokensUsed := tokensUsed Samples.claimedKeywords
                               + g_tokensUsed Cases.keywordsAnswer;
                 attempt := attempt Samples.claimedKeywords + 1;
                 claimedBy := Some (INSTANCE_ID Samples.cfg);
                 claimedAt := claimedAt Samples.claimedKeywords;
                 createdAt := createdAt Samples.claimedKeywords;
                 updatedAt := t |}.
Proof.
  apply (tick_success Samples.host Samples.cfg Cases.answering
           [Samples.keywordsJob] [Samples.claimedKeywords] []
           Samples.claimedKeywords Cases.keywordsAnswer Cases.afterAnswer).
  - repeat constructor; simpl; intuition discriminate.
  - reflexivity.
  - reflexivity.
  - simpl. lia.
  - reflexivity.
  - reflexivity.
Defined.

Lemma seoScore_range data :
  num_le (of_Z 0) (seoScore data) /\ num_le (seoScore data) (of_Z 100).
Proof.
  unfold seoScore. destruct (get data "score") as [| | |n| | |];
    try (split; vm_compute; discriminate).
  destruct (clamp_range n) as (H1 & H2 & _). split; assumption.
Qed.

Section SeoTick.
Context (host : Host) (cfg : Config) (env : Env).

Lemma generateText_first_answer w res :
  GOOGLE_API_KEY cfg = true ->
  1 <= AI_RETRY_ATTEMPTS cfg ->
  sdk env (length (trace w)) = inr res ->
  run env (generateText host cfg) w
  = (inr (textResult cfg res), appendTrace w [ESdk]).
Proof.
  intros Hkey Hn Hs. unfold generateText, withRetry. rewrite Hkey.
  pose proof (withRetry_from_recovers host cfg env 0 0 ThrowUndefined w res) as H.
  rewrite Z.sub_0_r in H. apply H.
  - lia.
  - intros j Hj; lia.
  - unfold answer. rewrite <- Hs. f_equal. lia.
Qed.

Lemma dispatch_seo job c ks w res data :
  type job = lit "SEO" ->
  truthy (get (payload job) "title") = true ->
  get (payload job) "content" = JStr c -> c <> [] ->
  keywordsOf (payload job) = JArr ks ->
  forallb hasString (take 10 (keywordStrings ks)) = true ->
  hasString (get (payload job) "title") = true ->
  hasString (seedOf (payload job)) = true ->
  GOOGLE_API_KEY cfg = true ->
  1 <= AI_RETRY_ATTEMPTS cfg ->
  sdk env (length (trace w)) = inr res ->
  parseJSONResponse host (sdk_text res) = inr data ->
  run env (dispatch host cfg job) w
  = (inr (mkGenResult
            (seoResult host (get (payload job) "title") (seedOf (payload job)) c
               (keywordStrings ks) data)
            (sdk_tokens res) (GEMINI_MODEL cfg)),
     appendTrace w [ESdk]).
Proof.
  intros Hty Ht Hc Hne Hk Hjoin Htitle Htopic Hkey Hn Hs Hp.
  unfold dispatch, withArticle. rewrite Hty. cbn [streq lit].
  change (streq (lit "SEO") (lit "KEYWORDS")) with false.
  change (streq (lit "SEO") (lit "ARTICLE")) with false.
  change (streq (lit "SEO") (lit "SEO")) with true. cbv iota.
  rewrite Ht, Hc, Hk.
  destruct c as [|c0 c]; [congruence|]. cbn [truthy negb orb].
  unfold generateSEOReview. cbn [truthy negb orb]. rewrite seedOf_truthy.
  destruct (keywordsList_inr host 10 (keywordStrings ks) (seedOf (payload job))
              Hjoin Htopic) as [list [Hlist Hl]].
  cbn [negb mapKeywords lift bindE bind]. rewrite Hlist.
  cbn [contentText lift bindE bind]. rewrite toStrings_inr
    by (cbn [forallb app]; rewrite Htitle, Htopic, Hl; reflexivity).
  cbn [bindE bind].
  unfold generateAndParse, bindE. rewrite run_bind.
  rewrite (generateText_first_answer w res Hkey Hn Hs).
  unfold textResult. cbn [t_text t_tokensUsed]. rewrite Hp. reflexivity.
Qed.

End SeoTick.

Section Unparsable.
Context (host : Host) (cfg : Config) (env : Env).

Lemma attemptOnce_unparsable job a w res e :
  passesChecks job = true ->
  GOOGLE_API_KEY cfg = true ->
  1 <= AI_RETRY_ATTEMPTS cfg ->
  sdk env (length (trace w)) = inr res ->
  parseJSONResponse host (sdk_text res) = inl e ->
  run env (attemptOnce host cfg job a) w
  = (inl (ThrowError e), appendTrace w [ESdk]).
Proof.
  intros Hpass Hkey Hn Hs Hp.
  destruct (passesChecks_dispatch host cfg job Hpass) as [normalise Hdisp].
  unfold attemptOnce, bindE. rewrite run_bind, Hdisp.
  unfold generateAndParse, bindE. rewrite run_bind.
  rewrite (generateText_first_answer host cfg env w res Hkey Hn Hs).
  unfold textResult. cbn [t_text]. rewrite Hp. reflexivity.
Qed.

End Unparsable.

(** X18 (processOne with generateSEOReview).  An SEO job with a title, a
    content that is a string and keywords that are an array, whose
    title, topic and first ten keyword strings can be converted to
    strings for the prompt, and whose first SDK answer parses: one tick
    calls the SDK once, does not sleep, and stores the normalised review
    as result, with a score between 0 and 100, attempt + 1 and the
    tokens of the answer. *)
Theorem seo_job_succeeds (host : Host) (cfg : Config) (env : Env)
    (st st1 : Store) (tr : list Event) (job : Job)
    (c : jsstring) (ks : list JsVal) (res : SdkResult) (data : JsVal) :
  List.NoDup (map _id st) ->
  (forall n, fault env n = None) ->
  findOneAndUpdate (INSTANCE_ID cfg) (clock env (length tr)) st = (Some job, st1) ->
  attempt job < JOB_MAX_ATTEMPTS cfg ->
  type job = lit "SEO" ->
  truthy (get (payload job) "title") = true ->
  get (payload job) "content" = JStr c -> c <> [] ->
  keywordsOf (payload job) = JArr ks ->
  forallb hasString (take 10 (keywordStrings ks)) = true ->
  hasString (get (payload job) "title") = true ->
  hasString (seedOf (payload job)) = true ->
  GOOGLE_API_KEY cfg = true ->
  1 <= AI_RETRY_ATTEMPTS cfg ->
  sdk env (S (length tr)) = inr res ->
  parseJSONResponse host (sdk_text res) = inr data ->
  exists j,
    findById (store (snd (run env (processOne host cfg) (mkWorld st false tr))))
      (_id job) = Some j
    /\ status j = SUCCEEDED
    /\ attempt j = attempt job + 1
    /\ tokensUsed j = tokensUsed job + sdk_tokens res
    /\ result j
       = seoResult host (get (payload job) "title") (seedOf (payload job)) c
           (keywordStrings ks) data
    /\ get (result j) "score" = JNum (seoScore data)
    /\ num_le (of_Z 0) (seoScore data) /\ num_le (seoScore data) (of_Z 100)
    /\ sdkCalls (trace (snd (run env (processOne host cfg) (mkWorld st false tr))))
       = S (sdkCalls tr)
    /\ sleeps (trace (snd (run env (processOne host cfg) (mkWorld st false tr))))
       = sleeps tr.
Proof.
  intros Hnd Hfault Hclaim Hlt Hty Ht Hc Hne Hk Hjoin Htitle Htopic Hkey Hn Hs Hp.
  rewrite (processOne_claimed host cfg env st tr job st1 (Hfault _) Hclaim).
  assert (length (trace (mkWorld st1 true (tr ++ [EClaim (INSTANCE_ID cfg) (Some (_id job))])))
          = S (length tr)) as Hlen.
  { simpl. rewrite length_app. simpl. lia. }
  rewrite (afterClaim_success host cfg env job _ _ _ Hlt
             (dispatch_seo host cfg env job c ks _ res data Hty Ht Hc Hne Hk
                Hjoin Htitle Htopic Hkey Hn
                ltac:(rewrite Hlen; exact Hs) Hp) (Hfault _)).
  cbn [snd store trace appendTrace].
  pose proof (claim_spec (INSTANCE_ID cfg) (clock env (length tr)) st) as Hspec.
  rewrite Hclaim in Hspec. destruct Hspec as [j0 (Hin0 & Hcl & -> & _ & ->)].
  eexists. split.
  { unfold updateOne. simpl _id.
    apply findById_replace_same; [reflexivity|].
    apply findById_replace_same; [reflexivity|].
    apply findById_unique; assumption. }
  cbn [status attempt tokensUsed result apply_update successUpdate u_status u_attempt
         u_result u_incTokens g_result g_tokensUsed set_claimed].
  repeat split.
  - apply seoScore_range.
  - apply seoScore_range.
  - rewrite <- !app_assoc, !sdkCalls_app. generalize (sdkCalls tr). intros n.
    unfold sdkCalls. simpl. lia.
  - rewrite <- !app_assoc, !sleeps_app. generalize (sleeps tr). intros l.
    unfold sleeps. simpl. rewrite app_nil_r. reflexivity.
Qed.

(** The review job and an SDK that answers an empty object; the content
    has two words. *)
Lemma seo_job_succeeds_witness :
  Normalise.wordCount (lit "<p>Two wheels</p>") = 2%nat
  /\ exists j,
    findById
      (store (snd (run Cases.answering (processOne Cases.host Samples.cfg)
                     (mkWorld [Cases.reviewJob] false []))))
      (_id Cases.claimedReview) = Some j
    /\ status j = SUCCEEDED
    /\ attempt j = attempt Cases.claimedReview + 1
    /\ tokensUsed j = tokensUsed Cases.claimedReview + sdk_tokens (mkSdkResult (lit "{}") 42)
    /\ result j
       = seoResult Cases.host (get (payload Cases.claimedReview) "title")
           (seedOf (payload Cases.claimedReview)) (lit "<p>Two wheels</p>")
           (keywordStrings [JStr (lit "bike")]) (JObj [])
    /\ get (result j) "score" = JNum (seoScore (JObj []))
    /\ num_le (of_Z 0) (seoScore (JObj [])) /\ num_le (seoScore (JObj [])) (of_Z 100)
    /\ sdkCalls
         (trace (snd (run Cases.answering (processOne Cases.host Samples.cfg)
                        (mkWorld [Cases.reviewJob] false []))))
       = S (sdkCalls [])
    /\ sleeps
         (trace (snd (run Cases.answering (processOne Cases.host Samples.cfg)
                        (mkWorld [Cases.reviewJob] false []))))
       = sleeps [].
Proof.
  split; [reflexivity|].
  apply (seo_job_succeeds Cases.host Samples.cfg Cases.answering
           [Cases.reviewJob] [Cases.claimedReview] [] Cases.claimedReview
           (lit "<p>Two wheels</p>") [JStr (lit "bike")]
           (mkSdkResult (lit "{}") 42) (JObj [])).
  - repeat constructor; simpl; intuition discriminate.
  - intros n. reflexivity.
  - reflexivity.
  - simpl. lia.
  - reflexivity.
  - reflexivity.
  - reflexivity.
  - discriminate.
  - reflexivity.
  - reflexivity.
  - reflexivity.
  - reflexivity.
  - reflexivity.
  - simpl. lia.
  - reflexivity.
  - reflexivity.
Defined.

(** X19 (processOne, answers that do not parse).  A parse failure is
    raised outside withRetry, so it is retried by the runner's loop only:
    when every answer of the SDK fails to parse, the tick calls the SDK
    once for each attempt left, JOB_MAX_ATTEMPTS - attempt times, with
    the runner's backoff after each, and then marks the job FAILED with
    the JSON_PARSE_FAILED error of the last answer. *)
Theorem tick_unparsable_answers (host : Host) (cfg : Config) (env : Env)
    (st st1 : Store) (tr : list Event) (job : Job) :
  (forall n, exists res e,
      sdk env n = inr res /\ parseJSONResponse host (sdk_text res) = inl e) ->
  (forall n, fault env n = None) ->
  GOOGLE_API_KEY cfg = true ->
  1 <= AI_RETRY_ATTEMPTS cfg ->
  findOneAndUpdate (INSTANCE_ID cfg) (clock env (length tr)) st = (Some job, st1) ->
  attempt job < JOB_MAX_ATTEMPTS cfg ->
  passesChecks job = true ->
  exists e t,
    run env (processOne host cfg) (mkWorld st false tr)
    = (tt,
       mkWorld (updateOne (_id job) (exhaustedUpdate cfg e) t st1) false
         (tr ++ EClaim (INSTANCE_ID cfg) (Some (_id job))
             :: backoffEvents (Z.to_nat (JOB_MAX_ATTEMPTS cfg - attempt job))
                  (attempt job) [ESdk]
             ++ [EUpdate (_id job) (exhaustedUpdate cfg e)]))
    /\ sdkCalls (backoffEvents (Z.to_nat (JOB_MAX_ATTEMPTS cfg - attempt job))
                   (attempt job) [ESdk])
       = Z.to_nat (JOB_MAX_ATTEMPTS cfg - attempt job)
    /\ e_message e = lit "JSON_PARSE_FAILED"
    /\ exists res, e_rawText e = JStr (sdk_text res).
Proof.
  intros Hsdk Hfault Hkey Hn Hclaim Hlt Hpass.
  destruct (processOne_all_fail host cfg env st tr job st1 [ESdk]
              (fun e => e_message e = lit "JSON_PARSE_FAILED"
                        /\ exists res, e_rawText e = JStr (sdk_text res))
              Hfault Hclaim Hlt) as [e [t [He Hrun]]].
  { intros a w. destruct (Hsdk (length (trace w))) as [res [e [Hs Hp]]].
    exists e. split.
    - apply parseJSONResponse_failure in Hp as [msg [_ ->]].
      split; [reflexivity|]. exists res; reflexivity.
    - apply (attemptOnce_unparsable host cfg env job a w res e); assumption. }
  exists e, t. split; [exact Hrun|].
  split; [rewrite sdkCalls_backoffEvents; change (sdkCalls [ESdk]) with 1%nat; lia|exact He].
Qed.

(** An SDK that answers prose. *)
Lemma tick_unparsable_answers_witness :
  exists e t,
    run Cases.chatty (processOne Samples.host Samples.cfg)
      (mkWorld [Samples.keywordsJob] false [])
    = (tt,
       mkWorld (updateOne (_id Samples.claimedKeywords)
                  (exhaustedUpdate Samples.cfg e) t [Samples.claimedKeywords])
         false
         ([] ++ EClaim (INSTANCE_ID Samples.cfg) (Some (_id Samples.claimedKeywords))
             :: backoffEvents
                  (Z.to_nat (JOB_MAX_ATTEMPTS Samples.cfg
                             - attempt Samples.claimedKeywords))
                  (attempt Samples.claimedKeywords) [ESdk]
             ++ [EUpdate (_id Samples.claimedKeywords)
                   (exhaustedUpdate Samples.cfg e)]))
    /\ sdkCalls (backoffEvents
                   (Z.to_nat (JOB_MAX_ATTEMPTS Samples.cfg
                              - attempt Samples.claimedKeywords))
                   (attempt Samples.claimedKeywords) [ESdk])
       = Z.to_nat (JOB_MAX_ATTEMPTS Samples.cfg - attempt Samples.claimedKeywords)
    /\ e_message e = lit "JSON_PARSE_FAILED"
    /\ exists res, e_rawText e = JStr (sdk_text res).
Proof.
  apply (tick_unparsable_answers Samples.host Samples.cfg Cases.chatty
           [Samples.keywordsJob] [Samples.claimedKeywords] [] Samples.claimedKeywords).
  - intros n. exists (mkSdkResult (lit "no json here") 5), Cases.unparsed.
    split; reflexivity.
  - intros n. reflexivity.
  - reflexivity.
  - simpl. lia.
  - reflexivity.
  - simpl. lia.
  - reflexivity.
Defined.

(** X20 (getClient through processOne).  Without GOOGLE_API_KEY every
    attempt fails before the SDK is reached: the tick makes no SDK call,
    sleeps the runner's backoff after each attempt left, and marks the
    job FAILED with attempt = JOB_MAX_ATTEMPTS and the message that the
    key is not set. *)
Theorem tick_without_api_key (host : Host) (cfg : Config) (env : Env)
    (st st1 : Store) (tr : list Event) (job : Job) :
  GOOGLE_API_KEY cfg = false ->
  (forall n, fault env n = None) ->
  findOneAndUpdate (INSTANCE_ID cfg) (clock env (length tr)) st = (Some job, st1) ->
  attempt job < JOB_MAX_ATTEMPTS cfg ->
  passesChecks job = true ->
  exists t u,
    run env (processOne host cfg) (mkWorld st false tr)
    = (tt,
       mkWorld (updateOne (_id job) u t st1) false
         (tr ++ EClaim (INSTANCE_ID cfg) (Some (_id job))
             :: backoffEvents (Z.to_nat (JOB_MAX_ATTEMPTS cfg - attempt job))
                  (attempt job) []
             ++ [EUpdate (_id job) u]))
    /\ sdkCalls (backoffEvents (Z.to_nat (JOB_MAX_ATTEMPTS cfg - attempt job))
                   (attempt job) []) = 0%nat
    /\ u_status u = FAILED
    /\ u_attempt u = Some (JOB_MAX_ATTEMPTS cfg)
    /\ option_map (fun e => (get e "type", get e "message")) (u_error u)
       = Some (JStr (lit "PROVIDER"),
               JStr (lit "GOOGLE_API_KEY is not set. Set GOOGLE_API_KEY in .env (see 11-ops-runbook.md). Expected in backend/.env (same folder as index.js).")).
Proof.
  intros Hkey Hfault Hclaim Hlt Hpass.
  destruct (passesChecks_dispatch host cfg job Hpass) as [normalise Hdisp].
  destruct (processOne_all_fail host cfg env st tr job st1 []
              (fun e => e = newError host "Error"
                 "GOOGLE_API_KEY is not set. Set GOOGLE_API_KEY in .env (see 11-ops-runbook.md). Expected in backend/.env (same folder as index.js).")
              Hfault Hclaim Hlt) as [e [t [He Hrun]]].
  { intros a w. eexists. split; [reflexivity|].
    unfold attemptOnce, bindE. rewrite run_bind, Hdisp.
    unfold generateAndParse, bindE. rewrite run_bind.
    unfold generateText. rewrite Hkey. simpl. rewrite appendTrace_nil. reflexivity. }
  subst e. eexists t, _. split; [exact Hrun|].
  split; [rewrite sdkCalls_backoffEvents; apply Nat.mul_0_r|].
  repeat split.
Qed.

(** The defaults without the key. *)
Lemma tick_without_api_key_witness :
  exists t u,
    run Cases.answering (processOne Samples.host Cases.noKey)
      (mkWorld [Samples.keywordsJob] false [])
    = (tt,
       mkWorld (updateOne (_id Samples.claimedKeywords) u t [Samples.claimedKeywords])
         false
         ([] ++ EClaim (INSTANCE_ID Cases.noKey) (Some (_id Samples.claimedKeywords))
             :: backoffEvents
                  (Z.to_nat (JOB_MAX_ATTEMPTS Cases.noKey
                             - attempt Samples.claimedKeywords))
                  (attempt Samples.claimedKeywords) []
             ++ [EUpdate (_id Samples.claimedKeywords) u]))
    /\ sdkCalls (backoffEvents
                   (Z.to_nat (JOB_MAX_ATTEMPTS Cases.noKey
                              - attempt Samples.claimedKeywords))
                   (attempt Samples.claimedKeywords) []) = 0%nat
    /\ u_status u = FAILED
    /\ u_attempt u = Some (JOB_MAX_ATTEMPTS Cases.noKey)
    /\ option_map (fun e => (get e "type", get e "message")) (u_error u)
       = Some (JStr (lit "PROVIDER"),
               JStr (lit "GOOGLE_API_KEY is not set. Set GOOGLE_API_KEY in .env (see 11-ops-runbook.md). Expected in backend/.env (same folder as index.js).")).
Proof.
  apply (tick_without_api_key Samples.host Cases.noKey Cases.answering
           [Samples.keywordsJob] [Samples.claimedKeywords] [] Samples.claimedKeywords).
  - reflexivity.
  - intros n. reflexivity.
  - reflexivity.
  - simpl. lia.
  - reflexivity.
Defined.

(** X21 (withRetry with no attempt, through processOne).  With
    AI_RETRY_ATTEMPTS <= 0 the loop of withRetry never runs and it throws
    undefined; the runner's inner catch then fails on err.message, which
    ends the loop through the outer catch: the job is marked FAILED as
    WORKER_UNCAUGHT at once, its attempt counter is not written, and no
    SDK call or backoff is made. *)
Theorem tick_without_retry_attempts (host : Host) (cfg : Config) (env : Env)
    (st st1 : Store) (tr : list Event) (job : Job) :
  AI_RETRY_ATTEMPTS cfg <= 0 ->
  GOOGLE_API_KEY cfg = true ->
  (forall n, fault env n = None) ->
  findOneAndUpdate (INSTANCE_ID cfg) (clock env (length tr)) st = (Some job, st1) ->
  attempt job < JOB_MAX_ATTEMPTS cfg ->
  passesChecks job = true ->
  exists t u,
    run env (processOne host cfg) (mkWorld st false tr)
    = (tt,
       mkWorld (updateOne (_id job) u t st1) false
         (tr ++ [EClaim (INSTANCE_ID cfg) (Some (_id job)); EUpdate (_id job) u]))
    /\ u_status u = FAILED
    /\ u_attempt u = None
    /\ option_map (fun e => (get e "type", get e "message")) (u_error u)
       = Some (JStr (lit "WORKER_UNCAUGHT"),
               JStr (lit "Cannot read properties of undefined (reading 'message')")).
Proof.
  intros Hn Hkey Hfault Hclaim Hlt Hpass.
  destruct (passesChecks_dispatch host cfg job Hpass) as [normalise Hdisp].
  set (err := typeError host "Cannot read properties of undefined (reading 'message')").
  exists (clock env (S (length tr))), (uncaughtUpdate cfg err).
  split; [|repeat split].
  rewrite (processOne_claimed host cfg env st tr job st1 (Hfault _) Hclaim).
  rewrite (afterClaim_uncaught host cfg env job err _
             (mkWorld st1 true (tr ++ [EClaim (INSTANCE_ID cfg) (Some (_id job))]))).
  - cbn [trace store]. rewrite length_app. simpl length.
    replace (length tr + 1)%nat with (S (length tr)) by lia.
    rewrite <- app_assoc. reflexivity.
  - unfold processClaimed, bindE. rewrite run_bind.
    destruct (Z.to_nat (maxAttempts cfg - attempt job)) as [|fuel] eqn:Efuel;
      [unfold maxAttempts in Efuel; lia|].
    rewrite retryLoop_S.
    assert ((attempt job <? maxAttempts cfg) = true) as ->
        by (apply Z.ltb_lt; unfold maxAttempts; lia).
    rewrite run_bind. unfold attemptOnce, bindE. rewrite run_bind, Hdisp.
    unfold generateAndParse, bindE. rewrite run_bind.
    unfold generateText, withRetry. rewrite Hkey.
    replace (Z.to_nat (AI_RETRY_ATTEMPTS cfg)) with 0%nat by lia.
    reflexivity.
  - apply Hfault.
Qed.

(** The defaults with AI_RETRY_ATTEMPTS = 0. *)
Lemma tick_without_retry_attempts_witness :
  exists t u,
    run Cases.answering (processOne Samples.host Cases.noRetries)
      (mkWorld [Samples.keywordsJob] false [])
    = (tt,
       mkWorld (updateOne (_id Samples.claimedKeywords) u t [Samples.claimedKeywords])
         false
         ([] ++ [EClaim (INSTANCE_ID Cases.noRetries) (Some (_id Samples.claimedKeywords));
                 EUpdate (_id Samples.claimedKeywords) u]))
    /\ u_status u = FAILED
    /\ u_attempt u = None
    /\ option_map (fun e => (get e "type", get e "message")) (u_error u)
       = Some (JStr (lit "WORKER_UNCAUGHT"),
               JStr (lit "Cannot read properties of undefined (reading 'message')")).
Proof.
  apply (tick_without_retry_attempts Samples.host Cases.noRetries Cases.answering
           [Samples.keywordsJob] [Samples.claimedKeywords] [] Samples.claimedKeywords).
  - simpl. lia.
  - reflexivity.
  - intros n. reflexivity.
  - reflexivity.
  - simpl. lia.
  - reflexivity.
Defined.

(** X22 (claim filter and dispatch).  The type of a job that a claim
    returns is one of the six types that POST /ai accepts, and the
    runner runs the branch of that type: the branch "Unsupported job
    type" is never taken for a claimed job. *)
Theorem claimed_job_is_dispatched (host : Host) (cfg : Config) (inst : jsstring)
    (now : Z) (st st' : Store) (job : Job) :
  findOneAndUpdate inst now st = (Some job, st') ->
  In (type job) AiRoute.ALLOWED_TYPES
  /\ (dispatch host cfg job
      = generateKeywords host cfg (seedOf (payload job)) (localeOf cfg (payload job))
      \/ dispatch host cfg job
         = generateArticle host cfg (keywordsOf (payload job)) (seedOf (payload job))
             (localeOf cfg (payload job)) (settingsOf (payload job))
      \/ exists generate,
           In generate [generateSEOReview host cfg; generateMeta host cfg;
                        generateImage host cfg; generateHashtags host cfg]
           /\ dispatch host cfg job
              = withArticle host cfg (type job) (payload job) generate).
Proof.
  intros Hclaim. pose proof (claim_spec inst now st) as Hs. rewrite Hclaim in Hs.
  destruct Hs as [j0 (_ & Hc & -> & _ & _)].
  unfold claimable in Hc. apply andb_true_iff in Hc as [Hc _].
  apply andb_true_iff in Hc as [_ Hty].
  cbn [type payload set_claimed].
  apply existsb_exists in Hty as [ty [Hin Heq]]. apply streq_spec in Heq.
  split; [rewrite Heq; exact Hin|].
  unfold dispatch. cbn [type payload set_claimed]. rewrite Heq.
  simpl in Hin. destruct Hin as [<-|[<-|[<-|[<-|[<-|[<-|[]]]]]]].
  - left. reflexivity.
  - right; left. reflexivity.
  - right; right. eexists. split; [left; reflexivity|reflexivity].
  - right; right. eexists. split; [right; left; reflexivity|reflexivity].
  - right; right. eexists. split; [right; right; left; reflexivity|reflexivity].
  - right; right. eexists. split; [right; right; right; left; reflexivity|reflexivity].
Qed.

(** The claimed KEYWORDS job. *)
Lemma claimed_job_is_dispatched_witness :
  In (type Samples.claimedKeywords) AiRoute.ALLOWED_TYPES
  /\ (dispatch Samples.host Samples.cfg Samples.claimedKeywords
      = generateKeywords Samples.host Samples.cfg
          (seedOf (payload Samples.claimedKeywords))
          (localeOf Samples.cfg (payload Samples.claimedKeywords))
      \/ dispatch Samples.host Samples.cfg Samples.claimedKeywords
         = generateArticle Samples.host Samples.cfg
             (keywordsOf (payload Samples.claimedKeywords))
             (seedOf (payload Samples.claimedKeywords))
             (localeOf Samples.cfg (payload Samples.claimedKeywords))
             (settingsOf (payload Samples.claimedKeywords))
      \/ exists generate,
           In generate [generateSEOReview Samples.host Samples.cfg;
                        generateMeta Samples.host Samples.cfg;
                        generateImage Samples.host Samples.cfg;
                        generateHashtags Samples.host Samples.cfg]
           /\ dispatch Samples.host Samples.cfg Samples.claimedKeywords
              = withArticle Samples.host Samples.cfg (type Samples.claimedKeywords)
                  (payload Samples.claimedKeywords) generate).
Proof.
  apply (claimed_job_is_dispatched Samples.host Samples.cfg (lit "worker-1") 1000
           [Samples.keywordsJob] [Samples.claimedKeywords] Samples.claimedKeywords).
  reflexivity.
Defined.

(** ** routes/jobs.js: identifiers *)

Lemma hex_val_char d : (d < 16)%N -> hex_val (hex_char d) = Some d.
Proof.
  intros Hd. unfold hex_char, hex_val.
  destruct (d <? 10)%N eqn:E.
  - apply N.ltb_lt in E.
    assert ((48 <=? 48 + d)%N = true) as -> by (apply N.leb_le; lia).
    assert ((48 + d <=? 57)%N = true) as -> by (apply N.leb_le; lia).
    simpl. f_equal. lia.
  - apply N.ltb_ge in E.
    assert ((87 + d <=? 57)%N = false) as -> by (apply N.leb_gt; lia).
    rewrite andb_false_r.
    assert ((97 <=? 87 + d)%N = true) as -> by (apply N.leb_le; lia).
    assert ((87 + d <=? 102)%N = true) as -> by (apply N.leb_le; lia).
    simpl. f_equal. lia.
Qed.

(** Reading back the [k] low hexadecimal digits of [n], most
    significant first. *)
Lemma hex_digits_value k n acc :
  fold_left (fun a c => (a * 16 + default 0 (hex_val c))%N)
    (map (fun i => hex_char ((n / 16 ^ N.of_nat (k - 1 - i)) mod 16)%N) (seq 0 k)) acc
  = (acc * 16 ^ N.of_nat k + n mod 16 ^ N.of_nat k)%N.
Proof.
  revert n acc; induction k as [|k IH]; intros n acc.
  - simpl. rewrite N.mod_1_r. lia.
  - rewrite seq_S, map_app, fold_left_app. cbn [map fold_left Nat.add].
    replace (S k - 1 - k)%nat with 0%nat by lia. cbn [N.of_nat].
    rewrite N.pow_0_r, N.div_1_r.
    rewrite hex_val_char by (apply N.mod_upper_bound; lia). cbn [default].
    assert (map (fun i => hex_char ((n / 16 ^ N.of_nat (S k - 1 - i)) mod 16)%N) (seq 0 k)
            = map (fun i => hex_char ((n / 16 / 16 ^ N.of_nat (k - 1 - i)) mod 16)%N) (seq 0 k))
      as ->.
    { apply map_ext_in. intros i Hi. apply in_seq in Hi. f_equal. f_equal.
      rewrite N.Div0.div_div. f_equal.
      replace (S k - 1 - i)%nat with (S (k - 1 - i)) by lia.
      rewrite Nat2N.inj_succ, N.pow_succ_r'. reflexivity. }
    rewrite IH. rewrite Nat2N.inj_succ, N.pow_succ_r'.
    rewrite (N.Div0.mod_mul_r n 16 (16 ^ N.of_nat k)). unfold id. ring.
Qed.

Lemma oid_of_hex_of_oid n : (n < 2 ^ 96)%N -> oid_of_hex (hex_of_oid n) = n.
Proof.
  intros Hn. unfold oid_of_hex, hex_of_oid.
  pose proof (hex_digits_value 24 n 0) as H.
  change (fun i => hex_char ((n / 16 ^ N.of_nat (24 - 1 - i)) mod 16)%N)
    with (fun i => hex_char ((n / 16 ^ N.of_nat (23 - i)) mod 16)%N) in H.
  rewrite H. rewrite N.mul_0_l, N.add_0_l. apply N.mod_small.
  change (16 ^ N.of_nat 24)%N with (2 ^ 96)%N. exact Hn.
Qed.

Lemma idSchema_hex_of_oid n : idSchema (hex_of_oid n) = true.
Proof.
  unfold idSchema, hex_of_oid. rewrite length_map, length_seq.
  cbn [Nat.eqb andb]. apply forallb_forall. intros c Hc.
  apply in_map_iff in Hc as [i [<- _]].
  rewrite hex_val_char; [reflexivity|]. apply N.mod_upper_bound. lia.
Qed.

Lemma hex_of_oid_nonempty n : exists c s, hex_of_oid n = c :: s.
Proof. unfold hex_of_oid. simpl. eauto. Qed.

(** X23 (GET /jobs/:id, round trip).  On a store with unique identifiers
    the owner of a job who asks for it by String(job._id) gets 200 with
    the view of that job: the identifier printed as 24 hexadecimal
    digits denotes the job again. *)
Theorem owner_reads_own_job (st : Store) (j : Job) :
  List.NoDup (map _id st) -> In j st -> (_id j < 2 ^ 96)%N ->
  getJob st (hex_of_oid (_id j)) (JStr (hex_of_oid (userId j)))
  = mkResponse 200 (JObj (jobView j)).
Proof.
  intros Hnd Hin Hid. unfold getJob.
  rewrite idSchema_hex_of_oid. cbn [negb].
  destruct (hex_of_oid_nonempty (userId j)) as [c [s Hu]].
  rewrite Hu at 1. cbn [truthy negb].
  rewrite oid_of_hex_of_oid by exact Hid.
  rewrite (findById_unique st j Hnd Hin). rewrite streq_refl. reflexivity.
Qed.

(** User 7 asks for job 3. *)
Lemma owner_reads_own_job_witness :
  getJob [Samples.keywordsJob; Samples.doneJob] (hex_of_oid (_id Samples.doneJob))
    (JStr (hex_of_oid (userId Samples.doneJob)))
  = mkResponse 200 (JObj (jobView Samples.doneJob)).
Proof.
  apply (owner_reads_own_job [Samples.keywordsJob; Samples.doneJob] Samples.doneJob).
  - repeat constructor; simpl; intuition discriminate.
  - simpl. auto.
  - reflexivity.
Defined.

Lemma hex_val_fold_case c : hex_val (fold_case c) = hex_val c.
Proof.
  unfold fold_case, hex_val.
  destruct ((65 <=? c) && (c <=? 90))%N eqn:E; [|reflexivity].
  apply andb_true_iff in E as [E1 E2]. apply N.leb_le in E1, E2.
  assert ((c + 32 <=? 57)%N = false) as -> by (apply N.leb_gt; lia).
  assert ((48 <=? c)%N = true) as -> by (apply N.leb_le; lia).
  assert ((c <=? 57)%N = false) as -> by (apply N.leb_gt; lia).
  assert ((97 <=? c)%N = false) as -> by (apply N.leb_gt; lia).
  assert ((65 <=? c)%N = true) as -> by (apply N.leb_le; lia).
  assert ((97 <=? c + 32)%N = true) as -> by (apply N.leb_le; lia).
  assert ((65 <=? c + 32)%N = true) as -> by (apply N.leb_le; lia).
  assert ((c + 32 <=? 70)%N = false) as -> by (apply N.leb_gt; lia).
  rewrite andb_false_r. cbn [andb].
  destruct (N.leb_spec c 70) as [H|H].
  - assert ((c + 32 <=? 102)%N = true) as -> by (apply N.leb_le; lia).
    f_equal. lia.
  - assert ((c + 32 <=? 102)%N = false) as -> by (apply N.leb_gt; lia).
    reflexivity.
Qed.

Lemma idSchema_fold_case id : idSchema (map fold_case id) = idSchema id.
Proof.
  unfold idSchema. rewrite length_map. f_equal.
  induction id as [|c id IH]; simpl; [reflexivity|].
  rewrite hex_val_fold_case, IH. reflexivity.
Qed.

Lemma hex_fold_fold_case id acc :
  fold_left (fun a c => (a * 16 + default 0 (hex_val c))%N) (map fold_case id) acc
  = fold_left (fun a c => (a * 16 + default 0 (hex_val c))%N) id acc.
Proof.
  revert acc; induction id as [|c id IH]; intros acc; simpl; [reflexivity|].
  rewrite hex_val_fold_case. apply IH.
Qed.

Lemma oid_of_hex_fold_case id : oid_of_hex (map fold_case id) = oid_of_hex id.
Proof. apply hex_fold_fold_case. Qed.

(** X24 (GET /jobs/:id, letter case).  Two identifiers that differ in
    the case of their letters only get the same response. *)
Theorem job_id_case_insensitive (st : Store) (id id' : jsstring) (user : JsVal) :
  map fold_case id = map fold_case id' ->
  getJob st id user = getJob st id' user.
Proof.
  intros H. unfold getJob.
  rewrite <- (idSchema_fold_case id), <- (idSchema_fold_case id').
  rewrite <- (oid_of_hex_fold_case id), <- (oid_of_hex_fold_case id').
  rewrite H. reflexivity.
Qed.

(** The identifier of job 10 in upper and in lower case. *)
Lemma job_id_case_insensitive_witness :
  getJob [Samples.doneJob] (lit "00000000000000000000000A") (JStr (hex_of_oid 7))
  = getJob [Samples.doneJob] (lit "00000000000000000000000a") (JStr (hex_of_oid 7)).
Proof.
  apply (job_id_case_insensitive [Samples.doneJob] (lit "00000000000000000000000A")
           (lit "00000000000000000000000a")).
  reflexivity.
Defined.

(** ** routes/ai.js: POST /ai *)

Lemma assoc_filter_other k (p : jsstring) fs :
  streq k p = false ->
  assoc k (List.filter (fun kv => negb (streq (fst kv) p)) fs) = assoc k fs.
Proof.
  intros Hk. induction fs as [|[k' v] fs IH]; simpl; [reflexivity|].
  destruct (streq k' p) eqn:E; simpl.
  - apply streq_spec in E. subst k'. rewrite Hk. exact IH.
  - rewrite IH. reflexivity.
Qed.

Lemma assoc_filter_same (p : jsstring) fs :
  assoc p (List.filter (fun kv => negb (streq (fst kv) p)) fs) = None.
Proof.
  induction fs as [|[k' v] fs IH]; simpl; [reflexivity|].
  destruct (streq k' p) eqn:E; simpl; [exact IH|].
  destruct (streq p k') eqn:E2; [|exact IH].
  apply streq_spec in E2. subst k'. rewrite streq_refl in E. discriminate.
Qed.

Lemma allowed_is_claimable oid now uid ty pl inst :
  existsb (streq ty) AiRoute.ALLOWED_TYPES = true ->
  claimable inst (create oid now uid ty pl) = true.
Proof.
  intros H. unfold claimable. cbn [status type claimedBy create status_eqb andb].
  change allowedTypes with AiRoute.ALLOWED_TYPES. rewrite H. reflexivity.
Qed.

(** X25 (POST /ai).  The handler answers 201, 400 or 401, or hands an
    error on.  Only with 201 does the store change: one document is
    appended, of a type among the six the runner claims, which passes the
    claim filter of every runner instance; its payload is what the model
    saves of the body without its type; the body of the response is that
    document's identifier. *)
Theorem postAi_creates_claimable_job (b : AiRoute.Builtins) (oid : N) (now : Z)
    (st : Store) (body user : JsVal) :
  match AiRoute.postAi b oid now st body user with
  | (AiRoute.Replied r, st') =>
      (res_status r = 201 /\
       res_body r = JObj [(lit "id", JStr (hex_of_oid oid))] /\
       exists uid ty,
         st' = st ++ [create oid now uid ty
                        (AiRoute.savedPayload b (AiRoute.restWithoutType body))]
         /\ In ty allowedTypes
         /\ forall inst,
              claimable inst
                (create oid now uid ty
                   (AiRoute.savedPayload b (AiRoute.restWithoutType body)))
              = true)
      \/ ((res_status r = 400 \/ res_status r = 401) /\ st' = st)
  | (AiRoute.Next _, st') => st' = st
  end.
Proof.
  unfold AiRoute.postAi.
  destruct (AiRoute.toString b _) as [err|s]; [reflexivity|]. cbv zeta.
  destruct (existsb (streq (AiRoute.toUpperCase b s)) AiRoute.ALLOWED_TYPES) eqn:Ety;
    cbn [negb]; [|right; auto].
  destruct (truthy (AiRoute.userIdOf user)); cbn [negb]; [|right; auto].
  destruct (AiRoute.castObjectId b _) as [err|uid]; [reflexivity|].
  left. split; [reflexivity|]. split; [reflexivity|].
  exists uid, (AiRoute.toUpperCase b s). split; [reflexivity|]. split.
  - apply existsb_exists in Ety as [x [Hx Hs]]. apply streq_spec in Hs. subst x.
    exact Hx.
  - intros inst. apply allowed_is_claimable. exact Ety.
Qed.

Lemma restWithoutType_fields body :
  get (AiRoute.restWithoutType body) "type" = JUndefined
  /\ forall fs, body = JObj fs ->
       (forall k, streq (lit k) (lit "type") = false ->
          get (AiRoute.restWithoutType body) k = get body k)
       /\ Runner.seedOf (AiRoute.restWithoutType body) = Runner.seedOf body
       /\ Runner.keywordsOf (AiRoute.restWithoutType body) = Runner.keywordsOf body
       /\ Runner.settingsOf (AiRoute.restWithoutType body) = Runner.settingsOf body
       /\ (forall cfg, Runner.localeOf cfg (AiRoute.restWithoutType body)
                       = Runner.localeOf cfg body).
Proof.
  split.
  - unfold AiRoute.restWithoutType, get. rewrite assoc_filter_same. reflexivity.
  - intros fs ->.
    assert (forall k, streq (lit k) (lit "type") = false ->
              get (AiRoute.restWithoutType (JObj fs)) k = get (JObj fs) k) as H.
    { intros k Hk. unfold AiRoute.restWithoutType, get. cbn [or_ truthy spread].
      rewrite assoc_filter_other by exact Hk. reflexivity. }
    split; [exact H|].
    unfold Runner.seedOf, Runner.keywordsOf, Runner.settingsOf, Runner.localeOf.
    rewrite !H by reflexivity.
    unfold and_. cbn [truthy AiRoute.restWithoutType].
    repeat split; intros; rewrite ?H by reflexivity; reflexivity.
Qed.

(** X26 (POST /ai, payload).  When the model saves the payload as it is
    given (it holds no empty object), the payload of the job that a 201
    reports has no field "type", and for a body that is an object it has
    every other field of the body with its value: the seed, the locale,
    the keywords and the settings that the runner reads from the stored
    job are those of the body. *)
Theorem payload_is_body_without_type (b : AiRoute.Builtins) (oid : N) (now : Z)
    (st st' : Store) (body user : JsVal) (r : Response) :
  AiRoute.postAi b oid now st body user = (AiRoute.Replied r, st') ->
  res_status r = 201 ->
  AiRoute.savedPayload b (AiRoute.restWithoutType body)
  = AiRoute.restWithoutType body ->
  exists job,
    st' = st ++ [job]
    /\ get (res_body r) "id" = JStr (hex_of_oid (_id job))
    /\ get (payload job) "type" = JUndefined
    /\ forall fs, body = JObj fs ->
         (forall k, streq (lit k) (lit "type") = false ->
            get (payload job) k = get body k)
         /\ Runner.seedOf (payload job) = Runner.seedOf body
         /\ Runner.keywordsOf (payload job) = Runner.keywordsOf body
         /\ Runner.settingsOf (payload job) = Runner.settingsOf body
         /\ (forall cfg, Runner.localeOf cfg (payload job) = Runner.localeOf cfg body).
Proof.
  intros Hpost H201 Hsaved.
  unfold AiRoute.postAi in Hpost.
  destruct (AiRoute.toString b _) as [err|ts]; [discriminate|]. cbv zeta in Hpost.
  destruct (existsb (streq (AiRoute.toUpperCase b ts)) AiRoute.ALLOWED_TYPES);
    cbn [negb] in Hpost; [|injection Hpost as <- <-; discriminate H201].
  destruct (truthy (AiRoute.userIdOf user)); cbn [negb] in Hpost;
    [|injection Hpost as <- <-; discriminate H201].
  destruct (AiRoute.castObjectId b _) as [err|uid]; [discriminate|].
  injection Hpost as <- <-. rewrite Hsaved.
  eexists. split; [reflexivity|]. split; [reflexivity|].
  cbn [payload create]. apply restWithoutType_fields.
Qed.

(** User 7 submits a keywords job with a seed. *)
Lemma payload_is_body_without_type_witness :
  exists job,
    [Samples.doneJob;
     create 9 50 7 (lit "KEYWORDS") (AiRoute.restWithoutType Cases.keywordsBody)]
    = [Samples.doneJob] ++ [job]
    /\ get (res_body (mkResponse 201 (JObj [(lit "id", JStr (hex_of_oid 9))]))) "id"
       = JStr (hex_of_oid (_id job))
    /\ get (payload job) "type" = JUndefined
    /\ forall fs, Cases.keywordsBody = JObj fs ->
         (forall k, streq (lit k) (lit "type") = false ->
            get (payload job) k = get Cases.keywordsBody k)
         /\ Runner.seedOf (payload job) = Runner.seedOf Cases.keywordsBody
         /\ Runner.keywordsOf (payload job) = Runner.keywordsOf Cases.keywordsBody
         /\ Runner.settingsOf (payload job) = Runner.settingsOf Cases.keywordsBody
         /\ (forall cfg, Runner.localeOf cfg (payload job)
                         = Runner.localeOf cfg Cases.keywordsBody).
Proof.
  apply (payload_is_body_without_type Cases.builtins 9 50 [Samples.doneJob]
           [Samples.doneJob;
            create 9 50 7 (lit "KEYWORDS") (AiRoute.restWithoutType Cases.keywordsBody)]
           Cases.keywordsBody Cases.user7
           (mkResponse 201 (JObj [(lit "id", JStr (hex_of_oid 9))]))).
  - vm_compute. reflexivity.
  - reflexivity.
  - reflexivity.
Defined.

Lemma findById_app_new st j :
  ~ In (_id j) (map _id st) -> findById (st ++ [j]) (_id j) = Some j.
Proof.
  intros Hn. unfold findById. induction st as [|x st IH]; simpl.
  - rewrite N.eqb_refl. reflexivity.
  - destruct (N.eqb (_id x) (_id j)) eqn:E.
    + apply N.eqb_eq in E. exfalso. apply Hn. left. exact E.
    + apply IH. intros H. apply Hn. right. exact H.
Qed.

(** X27 (POST /ai, then GET /jobs/:id).  The job created for a user
    whose id is the canonical string of an ObjectId is returned to that
    user under the identifier that POST /ai answered, as a PENDING job of
    an accepted type without result, error, tokensUsed or model. *)
Theorem submit_then_view (b : AiRoute.Builtins) (oid uid : N) (now : Z)
    (st st' : Store) (body user : JsVal) (r : Response) :
  ~ In oid (map _id st) ->
  (oid < 2 ^ 96)%N ->
  get user "id" = JStr (hex_of_oid uid) ->
  AiRoute.castObjectId b (JStr (hex_of_oid uid)) = inr uid ->
  AiRoute.postAi b oid now st body user = (AiRoute.Replied r, st') ->
  res_status r = 201 ->
  exists ty,
    In ty allowedTypes
    /\ getJob st' (hex_of_oid oid) (get user "id")
       = mkResponse 200
           (JObj [ (lit "id", get (res_body r) "id");
                   (lit "userId", get user "id");
                   (lit "type", JStr ty);
                   (lit "status", JStr (lit "PENDING")) ]).
Proof.
  intros Hfresh Hoid Hu Hcast Hpost H201.
  destruct (hex_of_oid_nonempty uid) as [c [s Hne]].
  assert (AiRoute.userIdOf user = JStr (hex_of_oid uid)) as Huid.
  { unfold AiRoute.userIdOf. rewrite Hu.
    destruct user; try discriminate Hu. rewrite Hne. reflexivity. }
  unfold AiRoute.postAi in Hpost.
  destruct (AiRoute.toString b _) as [err|ts]; [discriminate|]. cbv zeta in Hpost.
  destruct (existsb (streq (AiRoute.toUpperCase b ts)) AiRoute.ALLOWED_TYPES) eqn:Ety;
    cbn [negb] in Hpost;
    [|injection Hpost as <- <-; discriminate H201].
  rewrite Huid, Hne in Hpost. cbn [truthy negb] in Hpost.
  rewrite <- Hne, Hcast in Hpost. injection Hpost as <- <-.
  exists (AiRoute.toUpperCase b ts). split.
  { apply existsb_exists in Ety as [x [Hx Hs]]. apply streq_spec in Hs. subst x.
    exact Hx. }
  unfold getJob. rewrite idSchema_hex_of_oid. cbn [negb].
  rewrite Hu. rewrite Hne at 1. cbn [truthy negb].
  rewrite oid_of_hex_of_oid by exact Hoid.
  unfold insert.
  pose proof (findById_app_new st
                (create oid now uid (AiRoute.toUpperCase b ts)
                   (AiRoute.savedPayload b (AiRoute.restWithoutType body))) Hfresh)
    as Hf.
  cbn [_id create] in Hf. rewrite Hf.
  cbn [userId create]. rewrite streq_refl. reflexivity.
Qed.

(** User 7 submits a keywords job. *)
Lemma submit_then_view_witness :
  exists ty,
    In ty allowedTypes
    /\ getJob [Samples.doneJob;
               create 9 50 7 (lit "KEYWORDS") (AiRoute.restWithoutType Cases.keywordsBody)]
         (hex_of_oid 9) (get Cases.user7 "id")
       = mkResponse 200
           (JObj [ (lit "id",
                    get (res_body (mkResponse 201 (JObj [(lit "id", JStr (hex_of_oid 9))])))
                      "id");
                   (lit "userId", get Cases.user7 "id");
                   (lit "type", JStr ty);
                   (lit "status", JStr (lit "PENDING")) ]).
Proof.
  apply (submit_then_view Cases.builtins 9 7 50 [Samples.doneJob]
           [Samples.doneJob;
            create 9 50 7 (lit "KEYWORDS") (AiRoute.restWithoutType Cases.keywordsBody)]
           Cases.keywordsBody Cases.user7
           (mkResponse 201 (JObj [(lit "id", JStr (hex_of_oid 9))]))).
  - simpl. intuition discriminate.
  - reflexivity.
  - reflexivity.
  - vm_compute. reflexivity.
  - vm_compute. reflexivity.
  - reflexivity.
Defined.

(** ** middleware/auth: requireAuth *)

Lemma userOf_passed payload user :
  Auth.userOf payload = Auth.Passed user ->
  get user "id" = or_ (get payload "id") (get payload "sub")
  /\ truthy (get user "id") = true.
Proof.
  unfold Auth.userOf.
  assert (forall id : JsVal,
            (if negb (truthy (or_ (get payload "id") (or_ (get payload "sub") JNull)))
             then Auth.Denied (Auth.denied 401 "Unauthorized" "INVALID_TOKEN_PAYLOAD")
             else Auth.Passed
                    (JObj [(lit "id", or_ (get payload "id") (or_ (get payload "sub") JNull));
                           (lit "email", or_ (get payload "email") JNull);
                           (lit "username", or_ (get payload "username") JNull)]))
            = Auth.Passed user ->
            get user "id" = or_ (get payload "id") (get payload "sub")
            /\ truthy (get user "id") = true) as H.
  { intros _.
    destruct (truthy (or_ (get payload "id") (or_ (get payload "sub") JNull))) eqn:E;
      cbn [negb]; [|discriminate].
    intros Hp; injection Hp as <-.
    change (get (JObj _) "id")
      with (or_ (get payload "id") (or_ (get payload "sub") JNull)).
    split; [|exact E].
    unfold or_ in *. destruct (truthy (get payload "id")); [reflexivity|].
    destruct (truthy (get payload "sub")); [reflexivity|discriminate E]. }
  destruct payload; try discriminate; apply (H JNull).
Qed.

(** X28 (requireAuth, soundness).  The middleware calls next only for a
    header whose first piece is "Bearer" in any case and whose second
    piece is a token that jwt.verify accepts under a configured secret;
    req.user.id is then payload.id, or payload.sub, and it is truthy
    (for a payload that is a string it is the method
    String.prototype.sub). *)
Theorem requireAuth_passes_verified_tokens
    (verify : jsstring -> jsstring -> Thrown + JsVal)
    (secret : option jsstring) (headers : JsVal) :
  Auth.calledNext (Auth.requireAuth verify secret headers) = true ->
  exists header token sec payload,
    or_ (get headers "authorization") (get headers "Authorization") = JStr header
    /\ Auth.isBearer (nth 0 (Auth.split Auth.space header) []) = true
    /\ nth_error (Auth.split Auth.space header) 1 = Some token
    /\ token <> []
    /\ secret = Some sec
    /\ sec <> []
    /\ verify token sec = inr payload
    /\ match Auth.requireAuth verify secret headers with
       | Auth.Passed user =>
           is_string payload = false
           /\ get user "id" = or_ (get payload "id") (get payload "sub")
           /\ truthy (get user "id") = true
       | Auth.PassedSub => is_string payload = true
       | Auth.Denied _ => False
       end.
Proof.
  unfold Auth.requireAuth.
  destruct (or_ (get headers "authorization") (get headers "Authorization"))
    as [| | | |[|c h]| |]; try discriminate.
  cbv zeta.
  destruct (nth_error (Auth.split Auth.space (c :: h)) 1) as [[|t oken]|] eqn:Et;
    try discriminate.
  destruct (Auth.isBearer (nth 0 (Auth.split Auth.space (c :: h)) [])) eqn:Eb;
    [|discriminate].
  destruct secret as [[|s ecret]|]; try discriminate.
  destruct (verify (t :: oken) (s :: ecret)) as [err|payload] eqn:Ev; [discriminate|].
  intros H.
  exists (c :: h), (t :: oken), (s :: ecret), payload.
  split; [reflexivity|]. split; [exact Eb|]. split; [exact Et|].
  split; [discriminate|]. split; [reflexivity|]. split; [discriminate|].
  split; [exact Ev|].
  destruct (Auth.userOf payload) as [r|user|] eqn:Eu; [discriminate H| |].
  - pose proof (userOf_passed payload user Eu) as [H1 H2].
    split; [|split; assumption].
    destruct payload; try reflexivity. discriminate Eu.
  - unfold Auth.userOf in Eu.
    destruct payload; try discriminate Eu; try reflexivity;
      destruct (negb _) in Eu; discriminate Eu.
Qed.

(** A token signed for the subject 7. *)
Lemma requireAuth_passes_verified_tokens_witness :
  exists header token sec payload,
    or_ (get Cases.bearerHeaders "authorization") (get Cases.bearerHeaders "Authorization")
    = JStr header
    /\ Auth.isBearer (nth 0 (Auth.split Auth.space header) []) = true
    /\ nth_error (Auth.split Auth.space header) 1 = Some token
    /\ token <> []
    /\ Some (lit "s3cret") = Some sec
    /\ sec <> []
    /\ Cases.verify token sec = inr payload
    /\ match Auth.requireAuth Cases.verify (Some (lit "s3cret")) Cases.bearerHeaders with
       | Auth.Passed user =>
           is_string payload = false
           /\ get user "id" = or_ (get payload "id") (get payload "sub")
           /\ truthy (get user "id") = true
       | Auth.PassedSub => is_string payload = true
       | Auth.Denied _ => False
       end.
Proof.
  apply (requireAuth_passes_verified_tokens Cases.verify (Some (lit "s3cret"))
           Cases.bearerHeaders).
  vm_compute. reflexivity.
Defined.

Lemma requireAuth_sets_id verify secret headers user :
  Auth.requireAuth verify secret headers = Auth.Passed user ->
  truthy (get user "id") = true.
Proof.
  unfold Auth.requireAuth.
  destruct (or_ (get headers "authorization") (get headers "Authorization"))
    as [| | | |[|c h]| |]; try discriminate.
  cbv zeta.
  destruct (nth_error (Auth.split Auth.space (c :: h)) 1) as [[|t oken]|];
    try discriminate.
  destruct (Auth.isBearer (nth 0 (Auth.split Auth.space (c :: h)) []));
    [|discriminate].
  destruct secret as [[|s ecret]|]; try discriminate.
  destruct (verify (t :: oken) (s :: ecret)) as [err|payload]; [discriminate|].
  intros H. apply userOf_passed in H as [_ H2]. exact H2.
Qed.

Lemma split_no_sep sep s : ~ In sep s -> Auth.split sep s = [s].
Proof.
  induction s as [|c s IH]; intros Hn; simpl; [reflexivity|].
  destruct (N.eqb_spec c sep) as [->|Hne]; [exfalso; apply Hn; left; reflexivity|].
  rewrite IH; [reflexivity|]. intros H; apply Hn; right; exact H.
Qed.

Lemma split_at_sep sep a b :
  ~ In sep a -> Auth.split sep (a ++ sep :: b) = a :: Auth.split sep b.
Proof.
  induction a as [|c a IH]; intros Hn; simpl.
  - rewrite N.eqb_refl. reflexivity.
  - destruct (N.eqb_spec c sep) as [->|Hne]; [exfalso; apply Hn; left; reflexivity|].
    rewrite IH; [reflexivity|]. intros H; apply Hn; right; exact H.
Qed.

Lemma isBearer_no_space scheme :
  Auth.isBearer scheme = true -> ~ In Auth.space scheme /\ scheme <> [].
Proof.
  unfold Auth.isBearer. intros H. apply streq_spec in H. split.
  - intros Hin. apply (in_map fold_case) in Hin. rewrite H in Hin.
    simpl in Hin. repeat destruct Hin as [Hin|Hin]; try discriminate Hin. exact Hin.
  - intros ->. discriminate H.
Qed.

(** X29 (requireAuth, completeness).  A header made of the scheme
    "Bearer" in any case, one space and a token without space that
    jwt.verify accepts, whose payload has a truthy id or sub, is passed
    on with that id and with the payload's email and username, null when
    absent. *)
Theorem bearer_token_accepted
    (verify : jsstring -> jsstring -> Thrown + JsVal)
    (headers payload : JsVal) (scheme token sec : jsstring) :
  get headers "authorization" = JStr (scheme ++ Auth.space :: token) ->
  Auth.isBearer scheme = true ->
  ~ In Auth.space token -> token <> [] -> sec <> [] ->
  verify token sec = inr payload ->
  truthy (or_ (get payload "id") (get payload "sub")) = true ->
  Auth.requireAuth verify (Some sec) headers
  = Auth.Passed
      (JObj [ (lit "id", or_ (get payload "id") (get payload "sub"));
              (lit "email", or_ (get payload "email") JNull);
              (lit "username", or_ (get payload "username") JNull) ]).
Proof.
  intros Hh Hb Hsp Ht Hs Hv Hid.
  destruct (isBearer_no_space scheme Hb) as [Hns Hne].
  unfold Auth.requireAuth. rewrite Hh.
  destruct scheme as [|c0 scheme]; [congruence|].
  cbn [app or_ truthy]. cbv zeta.
  change (c0 :: scheme ++ Auth.space :: token)
    with ((c0 :: scheme) ++ Auth.space :: token).
  rewrite (split_at_sep Auth.space (c0 :: scheme) token Hns).
  rewrite (split_no_sep Auth.space token Hsp).
  cbn [nth nth_error]. rewrite Hb.
  destruct token as [|t oken]; [congruence|].
  destruct sec as [|s ecret]; [congruence|].
  rewrite Hv. unfold Auth.userOf.
  assert (or_ (get payload "id") (or_ (get payload "sub") JNull)
          = or_ (get payload "id") (get payload "sub")) as ->.
  { unfold or_ in *. destruct (truthy (get payload "id")); [reflexivity|].
    rewrite Hid. reflexivity. }
  rewrite Hid. cbn [negb].
  destruct payload; try reflexivity; discriminate Hid.
Qed.

(** The header "bearer good". *)
Lemma bearer_token_accepted_witness :
  Auth.requireAuth Cases.verify (Some (lit "s3cret")) Cases.bearerHeaders
  = Auth.Passed
      (JObj [ (lit "id",
               or_ (get (JObj [ (lit "sub", JStr (hex_of_oid 7));
                                (lit "username", JStr (lit "ana")) ]) "id")
                   (get (JObj [ (lit "sub", JStr (hex_of_oid 7));
                                (lit "username", JStr (lit "ana")) ]) "sub"));
              (lit "email",
               or_ (get (JObj [ (lit "sub", JStr (hex_of_oid 7));
                                (lit "username", JStr (lit "ana")) ]) "email") JNull);
              (lit "username",
               or_ (get (JObj [ (lit "sub", JStr (hex_of_oid 7));
                                (lit "username", JStr (lit "ana")) ]) "username") JNull) ]).
Proof.
  apply (bearer_token_accepted Cases.verify Cases.bearerHeaders
           (JObj [ (lit "sub", JStr (hex_of_oid 7));
                   (lit "username", JStr (lit "ana")) ])
           (lit "bearer") (lit "good") (lit "s3cret")).
  - reflexivity.
  - reflexivity.
  - simpl. intuition discriminate.
  - discriminate.
  - discriminate.
  - reflexivity.
  - reflexivity.
Defined.

(** X30 (requireAuth before the routes).  For a request that requireAuth
    passed on, GET /jobs/:id answers 200, 400 or 404 and POST /ai answers
    201 or 400 (or hands an error on): the 401 branch of neither handler
    is reached. *)
Theorem authenticated_requests_are_not_unauthorized
    (verify : jsstring -> jsstring -> Thrown + JsVal)
    (secret : option jsstring) (headers user : JsVal)
    (st : Store) (id : jsstring)
    (b : AiRoute.Builtins) (oid : N) (now : Z) (body : JsVal) :
  Auth.requireAuth verify secret headers = Auth.Passed user ->
  In (res_status (getJob st id (get user "id"))) [200; 400; 404]
  /\ match fst (AiRoute.postAi b oid now st body user) with
     | AiRoute.Replied r => In (res_status r) [201; 400]
     | AiRoute.Next _ => True
     end.
Proof.
  intros H.
  pose proof (requireAuth_sets_id verify secret headers user H) as Hid.
  split.
  - unfold getJob. destruct (idSchema id); cbn [negb]; [|simpl; auto].
    rewrite Hid. cbn [negb].
    destruct (findById st (oid_of_hex id)) as [job|]; [|simpl; auto].
    destruct (get user "id") as [| | | |u| |]; cbn [res_status In]; auto.
    destruct (streq (hex_of_oid (userId job)) u); cbn [res_status In]; auto.
  - unfold AiRoute.postAi.
    destruct (AiRoute.toString b _) as [err|s]; [exact I|]. cbv zeta.
    destruct (existsb _ _); cbn [negb]; [|simpl; auto].
    assert (truthy (AiRoute.userIdOf user) = true) as ->.
    { unfold AiRoute.userIdOf, or_, and_.
      destruct user; try discriminate Hid.
      cbn [truthy]. rewrite Hid. cbv iota. rewrite Hid. exact Hid. }
    cbn [negb]. destruct (AiRoute.castObjectId b _); simpl; auto.
Qed.

(** The same request. *)
Lemma authenticated_requests_are_not_unauthorized_witness :
  In (res_status (getJob [Samples.doneJob] (hex_of_oid 3) (get Cases.user7 "id")))
    [200; 400; 404]
  /\ match fst (AiRoute.postAi Cases.builtins 9 50 [Samples.doneJob]
                  Cases.keywordsBody Cases.user7) with
     | AiRoute.Replied r => In (res_status r) [201; 400]
     | AiRoute.Next _ => True
     end.
Proof.
  apply (authenticated_requests_are_not_unauthorized Cases.verify
           (Some (lit "s3cret")) Cases.bearerHeaders Cases.user7
           [Samples.doneJob] (hex_of_oid 3) Cases.builtins 9 50 Cases.keywordsBody).
  vm_compute. reflexivity.
Defined.
